(** * tp25-api: the record store, the multi-partition merger, the rollup
      engine and the derived-metric calculator, embedded in Rocq.

    Go's [float64] is IEEE 754 binary64 and is modelled by Rocq's primitive
    floats, which are the same format with the same rounding (to nearest,
    ties to even); [map[string]interface{}] is a [gmap string value]; a
    [mongo.Pipeline] is the list of the denotations of its stages.

    The file has two parts: the embedding of the program, then its
    properties. *)

From Stdlib Require Import ZArith QArith Lia Lqa Bool Ascii String Permutation Sorted.
From Stdlib Require Import Floats.
From stdpp Require Import base gmap strings list.

Set Warnings "-inexact-float,-register-all".

#[local] Open Scope Z_scope.

(** * Part I: the program *)

(** ** binary64 *)

Module Float64.

(** [a <= b], [a < b] and "is a number" (is not NaN) on binary64. *)
Definition fle (a b : float) : Prop := PrimFloat.leb a b = true.
Definition flt (a b : float) : Prop := PrimFloat.ltb a b = true.
Definition number (a : float) : Prop := PrimFloat.eqb a a = true.

(** The comparison of two binary64 numbers is the lexicographic comparison
    of these keys; NaN has none. *)
Definition sfkey (f : spec_float) : option (Z * Z * Z) :=
  match f with
  | S754_nan => None
  | S754_zero _ => Some (0, 0, 0)
  | S754_infinity s => Some (if s then -2 else 2, 0, 0)
  | S754_finite s m e =>
      Some (if s then (-1, - e, Z.neg m) else (1, e, Z.pos m))
  end.

Definition lex3 (a b : Z * Z * Z) : comparison :=
  match a, b with
  | (a1, a2, a3), (b1, b2, b3) =>
      match a1 ?= b1 with
      | Eq => match a2 ?= b2 with
              | Eq => a3 ?= b3
              | c => c
              end
      | c => c
      end
  end.

(** The exact value of a finite binary64, as a rational. *)
Definition exact (f : float) : option Q :=
  match Prim2SF f with
  | S754_zero _ => Some 0%Q
  | S754_finite s m e =>
      let q := if 0 <=? e then inject_Z (Z.pos m * 2 ^ e)
               else Qmake (Z.pos m) (Pos.pow 2 (Z.to_pos (- e))) in
      Some (if s then Qopp q else q)
  | S754_infinity _ | S754_nan => None
  end.

(** The [k] binary64 values next above [a], those next below, and the values
    at most [k] units in the last place away from [a]. *)
Fixpoint ups (k : nat) (a : float) : list float :=
  match k with
  | O => []
  | S k' => PrimFloat.next_up a :: ups k' (PrimFloat.next_up a)
  end.

Fixpoint downs (k : nat) (a : float) : list float :=
  match k with
  | O => []
  | S k' => PrimFloat.next_down a :: downs k' (PrimFloat.next_down a)
  end.

Definition within_ulps (k : nat) (a b : float) : Prop :=
  In b (a :: ups k a ++ downs k a).

End Float64.

(** ** Conversions between [float64] and [int]

    [int(f)] discards the fraction (truncation towards zero).  Go leaves the
    result unspecified when the value does not fit; the model follows amd64
    (CVTTSD2SI), which yields the smallest int64 for NaN and for values out of
    range. *)

Module Conv.

Definition min_int64 : Z := - 2 ^ 63.
Definition max_int64 : Z := 2 ^ 63 - 1.
Definition max_int32 : Z := 2 ^ 31 - 1.
Definition min_int32 : Z := - 2 ^ 31.

(** The integer part of a finite binary64, rounded towards zero. *)
Definition trunc (f : float) : option Z :=
  match Prim2SF f with
  | S754_zero _ => Some 0
  | S754_finite s m e =>
      let a := if 0 <=? e then Z.pos m * 2 ^ e else Z.pos m / 2 ^ (- e) in
      Some (if s then - a else a)
  | S754_infinity _ | S754_nan => None
  end.

(** The integer part of a finite binary64, rounded towards minus infinity. *)
Definition floor (f : float) : option Z :=
  match Prim2SF f with
  | S754_zero _ => Some 0
  | S754_finite s m e =>
      Some (if 0 <=? e
            then (if s then - (Z.pos m * 2 ^ e) else Z.pos m * 2 ^ e)
            else (if s then Z.neg m / 2 ^ (- e) else Z.pos m / 2 ^ (- e)))
  | S754_infinity _ | S754_nan => None
  end.

Definition fits (z : Z) : bool := (min_int64 <=? z) && (z <=? max_int64).

(** [int(f)] *)
Definition int_of_float64 (f : float) : Z :=
  match trunc f with
  | Some z => if fits z then z else min_int64
  | None => min_int64
  end.

(** [float64(n)] for an [int] or [int64] [n]: the nearest binary64. *)
Definition float64_of_int (n : Z) : float :=
  if n =? min_int64
  then PrimFloat.opp
         (PrimFloat.mul (PrimFloat.of_uint63 (Uint63.of_Z (2 ^ 62))) 2)
  else if n <? 0 then PrimFloat.opp (PrimFloat.of_uint63 (Uint63.of_Z (- n)))
  else PrimFloat.of_uint63 (Uint63.of_Z n).

(** Arithmetic on [int] and [int64] wraps around at 64 bits. *)
Definition wrap64 (z : Z) : Z := (z + 2 ^ 63) mod 2 ^ 64 - 2 ^ 63.

End Conv.

(** ** Errors and outcomes *)

(** The [error] values that occur: the sentinels of package domain, the
    errors of the MongoDB driver, and [fmt.Errorf("...: %w", err)]. *)
Inductive error : Type :=
| ErrMetricNotFound
| ErrMetricCodeExisted
| ErrMetricMustHaveCode
| ErrRecordIDExisted
| WriteException (code : Z)
| CommandError (msg : string)
| Wrapped (prefix : string) (e : error).

(** What a call comes to: a result, an [error], or a run-time panic (a type
    assertion [x.(T)] without the [ok] form on a value of another type). *)
Inductive outcome (A : Type) : Type :=
| Ok (a : A)
| Err (e : error)
| Panic (msg : string).
Arguments Ok {A} a.
Arguments Err {A} e.
Arguments Panic {A} msg.

#[export] Instance outcome_ret : MRet outcome := fun A a => Ok a.
#[export] Instance outcome_bind : MBind outcome := fun A B k m =>
  match m with
  | Ok a => k a
  | Err e => Err e
  | Panic msg => Panic msg
  end.

(** [mapM] on lists, left to right. *)
Fixpoint traverse {A B : Type} (f : A -> outcome B) (l : list A)
    : outcome (list B) :=
  match l with
  | [] => Ok []
  | a :: l' => b ← f a; bs ← traverse f l'; Ok (b :: bs)
  end.

(** ** package domain *)

Module domain.

(** The dynamic types a decoded JSON or BSON document holds in an
    [interface{}].  A BSON array is a [bson.A] in Go ([VArray]); the plain
    slice type [[]interface{}] is another Go type ([VSlice]). *)
Inductive value : Type :=
| VFloat64 (f : float)
| VInt32 (n : Z)
| VInt64 (n : Z)
| VInt (n : Z)
| VString (s : string)
| VBool (b : bool)
| VNull
| VDate (ms : Z)
| VObjectID (n : N)
| VArray (l : list value)
| VSlice (l : list value)
| VDoc (d : gmap string value).

(** [type Record map[string]interface{}]; [bson.M] is the same map. *)
Abbreviation Record := (gmap string value).

(** [func (r Record) GetFloat(key string) float64] *)
Definition GetFloat (r : Record) (key : string) : float :=
  match r !! key with
  | Some (VFloat64 v) => v
  | Some (VInt64 v) => Conv.float64_of_int v
  | Some (VInt v) => Conv.float64_of_int v
  | _ => 0%float
  end.

(** [func RoundValue(f float64) float64] *)
Definition RoundValue (f : float) : float :=
  (Conv.float64_of_int (Conv.int_of_float64 (f * 100 + 0.5)) / 100)%float.

(** [type QueryRecord struct] *)
Record QueryRecord : Type := mkQueryRecord {
  Time : list Z;
  Limit : option Z;
  Skip : option Z
}.

(** [type RecordsResult struct] *)
Record RecordsResult : Type := mkRecordsResult {
  Records : list Record;
  Total : Z
}.

(** [type DailyReport struct] *)
Record DailyReport : Type := mkDailyReport {
  Date : string;
  Avg : gmap string float;
  Min : gmap string float;
  Max : gmap string float;
  Count : Z
}.

(** [type Report struct] *)
Record Report : Type := mkReport {
  InfoMonth : Z;
  InfoYear : Z;
  InfoMetric : string;
  ReportCount : Z;
  ReportTotal : float
}.

(** [func (r Record) GetTimestamp() int64] *)
Definition GetTimestamp (r : Record) : Z :=
  match r !! "_id" with
  | Some (VInt32 t) => t
  | _ =>
      match r !! "id" with
      | Some (VInt32 t) => t
      | _ => 0
      end
  end.

(** [func (r Record) GetCreateTime() int64] *)
Definition GetCreateTime (r : Record) : Z :=
  match r !! "c" with
  | Some (VInt64 c) => c
  | _ => 0
  end.

(** [type Pagination struct] *)
Record Pagination : Type := mkPagination {
  Page : Z;
  PageSize : Z
}.

(** [type PaginationMeta struct]; [Filter interface{}] holds a value of the
    type [F]. *)
Record PaginationMeta (F : Type) : Type := mkPaginationMeta {
  MetaPage : Z;
  MetaPageSize : Z;
  TotalItems : Z;
  TotalPages : Z;
  MetaFilter : F
}.
Arguments mkPaginationMeta {F}.
Arguments MetaPage {F}.
Arguments MetaPageSize {F}.
Arguments TotalItems {F}.
Arguments TotalPages {F}.
Arguments MetaFilter {F}.

(** [type PaginatedResponse struct]; [Data interface{}] holds a value of the
    type [D]. *)
Record PaginatedResponse (D F : Type) : Type := mkPaginatedResponse {
  Data : D;
  Meta : PaginationMeta F
}.
Arguments mkPaginatedResponse {D F}.
Arguments Data {D F}.
Arguments Meta {D F}.

(** [func NewPagination(page, pageSize int) *Pagination] *)
Definition NewPagination (page pageSize : Z) : Pagination :=
  let page := if page <? 1 then 1 else page in
  let pageSize := if pageSize <? 1 then 10 else pageSize in
  let pageSize := if 100 <? pageSize then 100 else pageSize in
  {| Page := page; PageSize := pageSize |}.

(** [func (p *Pagination) GetSkip() int] *)
Definition GetSkip (p : Pagination) : Z :=
  Conv.wrap64 (Conv.wrap64 (Page p - 1) * PageSize p).

(** [func (p *Pagination) GetLimit() int] *)
Definition GetLimit (p : Pagination) : Z := PageSize p.

(** [func NewPaginatedResponse(data interface{}, page, pageSize int,
    totalItems int64, filter interface{}) *PaginatedResponse]; the division
    of integers panics on a zero divisor and rounds towards zero. *)
Definition NewPaginatedResponse {D F : Type} (data : D)
    (page pageSize totalItems : Z) (filter : F)
    : outcome (PaginatedResponse D F) :=
  if pageSize =? 0 then Panic "runtime error: integer divide by zero"
  else
    let totalPages :=
      Conv.wrap64
        (Z.quot (Conv.wrap64 (Conv.wrap64 (totalItems + pageSize) - 1))
                pageSize) in
    let totalPages := if totalPages <? 1 then 1 else totalPages in
    Ok {| Data := data;
          Meta := {| MetaPage := page;
                     MetaPageSize := pageSize;
                     TotalItems := totalItems;
                     TotalPages := totalPages;
                     MetaFilter := filter |} |}.

(** [type Range struct] *)
Record Range : Type := mkRange {
  RangeMin : float;
  RangeMax : float;
  RangeCode : string
}.

(** [type Metric struct]; [Alias] and [DTime] are pointers, [MetricRange]
    is the slice [Range], for which nil and empty are the same here. *)
Record Metric : Type := mkMetric {
  ID : string;
  Code : string;
  Name : string;
  Unit : string;
  Alias : option string;
  MetricRange : list Range;
  CTime : Z;
  MTime : Z;
  DTime : option Z
}.

(** [type CreateMetricParams struct] *)
Record CreateMetricParams : Type := mkCreateMetricParams {
  CreateAlias : option string;
  CreateUnit : string;
  CreateCode : string;
  CreateName : string;
  CreateRange : list Range
}.

(** [type UpdateMetricParams struct]; [UpdateRange] is [None] for a nil
    slice. *)
Record UpdateMetricParams : Type := mkUpdateMetricParams {
  UpdateUnit : option string;
  UpdateCode : option string;
  UpdateName : option string;
  UpdateRange : option (list Range)
}.

(** [func NewMetric(params CreateMetricParams) *Metric]; [id] is
    [lib.Rand.Char(12)] and [now] is [time.Now().UnixMilli()]. *)
Definition NewMetric (id : string) (now : Z) (params : CreateMetricParams)
    : Metric :=
  {| ID := id;
     Code := CreateCode params;
     Name := CreateName params;
     Unit := CreateUnit params;
     Alias := CreateAlias params;
     MetricRange := CreateRange params;
     CTime := now;
     MTime := now;
     DTime := None |}.

End domain.

(** Rounding half up to two decimals, in the words of the specification:
    [floor(v * 100 + 0.5) / 100].  It differs from [domain.RoundValue] only
    in rounding the scaled value down instead of towards zero: where the
    scaled value does not fit an int64 (from about 9.2e16 on, infinities,
    NaN) it is given the result of the conversion of Go, as [RoundValue]
    is, so that the comparison of the two is about the direction of the
    rounding alone. *)
Definition round_half_up (v : float) : float :=
  match Conv.floor (v * 100 + 0.5)%float with
  | Some z =>
      (Conv.float64_of_int (if Conv.fits z then z else Conv.min_int64) / 100)%float
  | None => (Conv.float64_of_int Conv.min_int64 / 100)%float
  end.

(** ** package interpolation *)

Module interpolation.

(** The arithmetic [Interpolate] uses.  The program runs it on [float64];
    the same text is also read over the rationals, to say what the formula
    gives when no operation rounds. *)
Class Num (F : Type) : Type := {
  nzero : F;
  nadd : F -> F -> F;
  nsub : F -> F -> F;
  nmul : F -> F -> F;
  ndiv : F -> F -> F;
  nleb : F -> F -> bool;
  nltb : F -> F -> bool
}.

#[export] Instance float64_Num : Num float := {|
  nzero := 0%float;
  nadd := PrimFloat.add;
  nsub := PrimFloat.sub;
  nmul := PrimFloat.mul;
  ndiv := PrimFloat.div;
  nleb := PrimFloat.leb;
  nltb := PrimFloat.ltb
|}.

#[export] Instance exact_Num : Num Q := {|
  nzero := 0%Q;
  nadd := Qplus;
  nsub := Qminus;
  nmul := Qmult;
  ndiv := Qdiv;
  nleb := Qle_bool;
  nltb := fun a b => negb (Qle_bool b a)
|}.

Section Curves.
Context {F : Type} `{Num F}.

(** [type Point struct { X, Y float64 }] *)
Record Point : Type := mkPoint { X : F; Y : F }.

(** [type Curve struct { Points []Point }] *)
Record Curve : Type := mkCurve { Points : list Point }.

(** [sort.Slice(points, less)] is library code.  It is modelled by the
    insertion sort the library runs on slices of up to twelve elements:
    each element in turn moves left past the elements it is [less] than.
    [insert_back] works on the sorted prefix held back to front.  The
    library promises no order among elements of which neither is [less]
    than the other, and on longer slices it does not keep the order in
    which they were given, as this sort does: what is stated of a sorted
    slice holds whatever the order among such elements. *)
Fixpoint insert_back (less : Point -> Point -> bool) (p : Point)
    (rprefix : list Point) : list Point :=
  match rprefix with
  | [] => [p]
  | e :: l' => if less p e then e :: insert_back less p l' else p :: e :: l'
  end.

Definition sort_Slice (points : list Point)
    (less : Point -> Point -> bool) : list Point :=
  rev (foldl (fun rprefix p => insert_back less p rprefix) [] points).

(** The comparison [NewCurve] sorts by:
    [func(i, j int) bool { return points[i].X < points[j].X }] *)
Definition less_by_X (pi pj : Point) : bool := nltb (X pi) (X pj).

(** [func NewCurve(points []Point) *Curve] *)
Definition NewCurve (points : list Point) : Curve :=
  mkCurve (sort_Slice points less_by_X).

(** The value on the segment from [p1] to [p2]:
    [y1 + (x-x1)*(y2-y1)/(x2-x1)]. *)
Definition segment_value (p1 p2 : Point) (x : F) : F :=
  nadd (Y p1)
       (ndiv (nmul (nsub x (X p1)) (nsub (Y p2) (Y p1)))
             (nsub (X p2) (X p1))).

(** The loop [for i := 0; i < len(c.Points)-1; i++] of [Interpolate], with
    the final [return 0]. *)
Fixpoint find_segment (pts : list Point) (x : F) : F :=
  match pts with
  | p1 :: ((p2 :: _) as rest) =>
      if nleb (X p1) x && nleb x (X p2)
      then segment_value p1 p2 x
      else find_segment rest x
  | _ => nzero
  end.

(** [func (c *Curve) Interpolate(x float64) float64] *)
Definition Interpolate (c : Curve) (x : F) : F :=
  match Points c with
  | [] => nzero
  | [p] => Y p
  | p0 :: _ =>
      if nleb x (X p0) then Y p0
      else
        let pn := List.last (Points c) p0 in
        if nleb (X pn) x then Y pn
        else find_segment (Points c) x
  end.

(** [R] holds between each point and the next. *)
Fixpoint chain (R : Point -> Point -> Prop) (pts : list Point) : Prop :=
  match pts with
  | p1 :: ((p2 :: _) as rest) => R p1 p2 /\ chain R rest
  | _ => True
  end.

(** Points in non-decreasing order of X, which is what sorting gives;
    points in increasing order of X; points in non-increasing order. *)
Definition ascending (pts : list Point) : Prop :=
  chain (fun p q => nleb (X p) (X q) = true) pts.

Definition strictly_ascending (pts : list Point) : Prop :=
  chain (fun p q => nltb (X p) (X q) = true) pts.

Definition descending (pts : list Point) : Prop :=
  chain (fun p q => nleb (X q) (X p) = true) pts.

(** [p1] and [p2] are consecutive points of [pts]. *)
Definition consecutive (pts : list Point) (p1 p2 : Point) : Prop :=
  exists l1 l2, pts = l1 ++ p1 :: p2 :: l2.

End Curves.

Arguments Point F : clear implicits.
Arguments Curve F : clear implicits.

(** [type HydraulicCalculator struct]; [FlowCurve] may be nil. *)
Record HydraulicCalculator : Type := mkHydraulicCalculator {
  VolumeCurve : Curve float;
  FlowCurve : option (Curve float);
  OverflowM : float;
  OverflowB : float;
  OverflowG : float
}.

(** [func NewHydraulicCalculator() *HydraulicCalculator] *)
Definition NewHydraulicCalculator : HydraulicCalculator :=
  let volumePoints := [
    mkPoint 0 0; mkPoint 1 0.5; mkPoint 2 1.2;
    mkPoint 3 2.1; mkPoint 4 3.2; mkPoint 5 4.5 ]%float in
  {| VolumeCurve := NewCurve volumePoints;
     FlowCurve := None;
     OverflowM := 0.49;
     OverflowB := 10.0;
     OverflowG := 9.81 |}.

(** [func (h *HydraulicCalculator) CalculateWaterIndex(wau float64) float64] *)
Definition CalculateWaterIndex (h : HydraulicCalculator) (wau : float)
    : float :=
  Interpolate (VolumeCurve h) wau.

(** [func (h *HydraulicCalculator) CalculateWaterFlow(wau, dr float64) float64];
    [math.Sqrt] is the correctly rounded square root of binary64. *)
Definition CalculateWaterFlow (h : HydraulicCalculator) (wau dr : float)
    : float :=
  match FlowCurve h with
  | Some flowCurve => Interpolate flowCurve wau
  | None =>
      if (wau <=? 0)%float then 0%float
      else (dr * PrimFloat.sqrt (2 * OverflowG h * wau))%float
  end.

Section Overflow.
(** [math.Pow], which is library code, is a parameter. *)
Variable Pow : float -> float -> float.

(** [func (h *HydraulicCalculator) CalculateWaterOverFlow(wau float64) float64] *)
Definition CalculateWaterOverFlow (h : HydraulicCalculator) (wau : float)
    : float :=
  if (wau <=? 0)%float then 0%float
  else
    let sqrt2g := PrimFloat.sqrt (2 * OverflowG h)%float in
    let wauPower := Pow wau 1.5%float in
    (OverflowM h * OverflowB h * sqrt2g * wauPower)%float.

End Overflow.

(** [func (h *HydraulicCalculator) SetVolumeCurve(points []Point)] *)
Definition SetVolumeCurve (h : HydraulicCalculator) (points : list (Point float))
    : HydraulicCalculator :=
  {| VolumeCurve := NewCurve points;
     FlowCurve := FlowCurve h;
     OverflowM := OverflowM h;
     OverflowB := OverflowB h;
     OverflowG := OverflowG h |}.

(** [func (h *HydraulicCalculator) SetFlowCurve(points []Point)] *)
Definition SetFlowCurve (h : HydraulicCalculator) (points : list (Point float))
    : HydraulicCalculator :=
  {| VolumeCurve := VolumeCurve h;
     FlowCurve := Some (NewCurve points);
     OverflowM := OverflowM h;
     OverflowB := OverflowB h;
     OverflowG := OverflowG h |}.

(** [func (h *HydraulicCalculator) SetOverflowParams(m, b float64)] *)
Definition SetOverflowParams (h : HydraulicCalculator) (m b : float)
    : HydraulicCalculator :=
  {| VolumeCurve := VolumeCurve h;
     FlowCurve := FlowCurve h;
     OverflowM := m;
     OverflowB := b;
     OverflowG := OverflowG h |}.

End interpolation.

(** ** package service: the derived-metric calculator *)

Module service.
Import domain interpolation.

Section Calculator.
Variable Pow : float -> float -> float.
Variable calculator : HydraulicCalculator.

(** [func (s *SensorService) applyInterpolation(record domain.Record) domain.Record] *)
Definition applyInterpolation (record : Record) : Record :=
  let wau := GetFloat record "WAU" in
  if (wau =? 0)%float then record
  else
    let v := CalculateWaterIndex calculator wau in
    let record := <["V" := VFloat64 (RoundValue v)]> record in
    let dr := GetFloat record "DR" in
    let record :=
      if (0 <? dr)%float
      then <["Q" := VFloat64 (RoundValue (CalculateWaterFlow calculator wau dr))]> record
      else record in
    let qOf := CalculateWaterOverFlow Pow calculator wau in
    <["Q_of" := VFloat64 (RoundValue qOf)]> record.

End Calculator.

End service.

(** ** The MongoDB server and driver, as far as the repositories use them

    A database maps a collection name to its documents.  A stage of an
    aggregation pipeline is given by what it does to the stream of
    documents; a [mongo.Pipeline] is a list of stages. *)

Module mongo.
Import domain.

Abbreviation Collection := (list Record).
Abbreviation Database := (gmap string Collection).

(** [db.Collection(name)]: a collection that was never written is empty. *)
Definition collection (db : Database) (name : string) : Collection :=
  default [] (db !! name).

(** *** The order of BSON values

    Values of different types compare by type; numbers compare by their exact
    value whatever their type, NaN below every other number; strings compare
    byte by byte.  This is the order of [$sort], [$gte] and [$lte], which
    the repositories use on the key of a record and on dates; it leaves two
    documents, and two arrays, equal, so that a sort keeps such keys in the
    order in which it finds them.  Whether two keys are the same key of a
    collection is [same_key] below, which looks into documents. *)

Inductive numkey : Type := KNaN | KNegInf | KFin (q : Q) | KPosInf.

Definition float_numkey (f : float) : numkey :=
  match Float64.exact f with
  | Some q => KFin q
  | None =>
      match Prim2SF f with
      | S754_infinity s => if s then KNegInf else KPosInf
      | _ => KNaN
      end
  end.

Definition numkey_of (v : value) : option numkey :=
  match v with
  | VFloat64 f => Some (float_numkey f)
  | VInt32 n | VInt64 n | VInt n => Some (KFin (inject_Z n))
  | _ => None
  end.

Definition numkey_rank (k : numkey) : Z :=
  match k with KNaN => 0 | KNegInf => 1 | KFin _ => 2 | KPosInf => 3 end.

Definition numkey_compare (a b : numkey) : comparison :=
  match a, b with
  | KFin p, KFin q => Qcompare p q
  | _, _ => numkey_rank a ?= numkey_rank b
  end.

Definition type_rank (v : value) : Z :=
  match v with
  | VNull => 1
  | VFloat64 _ | VInt32 _ | VInt64 _ | VInt _ => 2
  | VString _ => 3
  | VDoc _ => 4
  | VArray _ | VSlice _ => 5
  | VObjectID _ => 7
  | VBool _ => 8
  | VDate _ => 9
  end.

Definition bson_compare (a b : value) : comparison :=
  match type_rank a ?= type_rank b with
  | Eq =>
      match a, b with
      | VString s, VString t => String.compare s t
      | VBool x, VBool y => Bool.compare x y
      | VDate x, VDate y => x ?= y
      | VObjectID x, VObjectID y => N.compare x y
      | _, _ =>
          match numkey_of a, numkey_of b with
          | Some x, Some y => numkey_compare x y
          | _, _ => Eq
          end
      end
  | c => c
  end.

Definition same_value (a b : value) : bool :=
  match bson_compare a b with Eq => true | _ => false end.

(** *** Query filters *)

Inductive cond : Type :=
| Gte (bound : value)
| Lte (bound : value)
| Exists (b : bool).

(** A condition on a field; range conditions hold only for a value of the
    type of the bound. *)
Definition cond_holds (field : option value) (c : cond) : bool :=
  match c with
  | Exists b => Bool.eqb (if field is Some _ then true else false) b
  | Gte bound =>
      match field with
      | Some v =>
          (type_rank v =? type_rank bound) &&
          (if bson_compare v bound is Lt then false else true)
      | None => false
      end
  | Lte bound =>
      match field with
      | Some v =>
          (type_rank v =? type_rank bound) &&
          (if bson_compare v bound is Gt then false else true)
      | None => false
      end
  end.

(** A filter document such as [bson.M{"_id": bson.M{"$gte": a, "$lte": b}}]. *)
Abbreviation Filter := (gmap string (list cond)).

Definition matches (filter : Filter) (d : Record) : bool :=
  forallb (fun kc => forallb (cond_holds (d !! kc.1)) kc.2)
          (map_to_list filter).

(** *** Dates *)

(** The civil date (year, month, day) of a day number counted from
    1970-01-01, in the proleptic Gregorian calendar. *)
Definition civil_from_days (days : Z) : Z * Z * Z :=
  let z := days + 719468 in
  let era := z / 146097 in
  let doe := z - era * 146097 in
  let yoe := (doe - doe / 1460 + doe / 36524 - doe / 146096) / 365 in
  let y := yoe + era * 400 in
  let doy := doe - (365 * yoe + yoe / 4 - yoe / 100) in
  let mp := (5 * doy + 2) / 153 in
  let d := doy - (153 * mp + 2) / 5 + 1 in
  let m := if mp <? 10 then mp + 3 else mp - 9 in
  (if m <=? 2 then y + 1 else y, m, d).

(** The UTC date of a time in milliseconds since the epoch. *)
Definition date_of_millis (ms : Z) : Z * Z * Z :=
  civil_from_days (ms / 86400000).

Definition digit (n : Z) : ascii := ascii_of_nat (48 + Z.to_nat n).

Definition pad2 (n : Z) : string :=
  String (digit (n / 10 mod 10)) (String (digit (n mod 10)) EmptyString).

Definition pad4 (n : Z) : string :=
  String (digit (n / 1000 mod 10)) (String (digit (n / 100 mod 10)) (pad2 n)).

(** [%Y-%m-%d] *)
Definition format_date (ymd : Z * Z * Z) : string :=
  let '(y, m, d) := ymd in
  pad4 y +:+ "-" +:+ pad2 m +:+ "-" +:+ pad2 d.

(** *** Aggregation expressions

    An expression is evaluated on a document and yields a value, or nothing
    when it refers to a missing field. *)

Definition expr : Type := Record -> outcome (option value).

Definition e_lit (v : value) : expr := fun _ => Ok (Some v).
(** ["$name"] *)
Definition e_field (name : string) : expr := fun d => Ok (d !! name).
(** ["$$ROOT"] *)
Definition e_root : expr := fun d => Ok (Some (VDoc d)).

Definition int_value (n : Z) : value :=
  if (Conv.min_int32 <=? n) && (n <=? Conv.max_int32) then VInt32 n
  else VInt64 n.

Definition int_of_value (v : value) : option Z :=
  match v with
  | VInt32 n | VInt64 n | VInt n => Some n
  | _ => None
  end.

Definition float_of_value (v : value) : option float :=
  match v with
  | VFloat64 f => Some f
  | VInt32 n | VInt64 n | VInt n => Some (Conv.float64_of_int n)
  | _ => None
  end.

Definition is_int32 (v : value) : bool :=
  if v is VInt32 _ then true else false.

Definition is_null (v : value) : bool :=
  if v is VNull then true else false.

(** The product of two numbers: of the integer type of the operands when it
    fits, a long when it does not fit an int, a double otherwise. *)
Definition mul_values (x y : value) : outcome (option value) :=
  if is_null x || is_null y then Ok (Some VNull)
  else
    match int_of_value x, int_of_value y with
    | Some a, Some b =>
        if Conv.fits (a * b)
        then Ok (Some (if is_int32 x && is_int32 y
                       then int_value (a * b) else VInt64 (a * b)))
        else Ok (Some (VFloat64
                         (Conv.float64_of_int a * Conv.float64_of_int b)))
    | _, _ =>
        match float_of_value x, float_of_value y with
        | Some a, Some b => Ok (Some (VFloat64 (a * b)))
        | _, _ => Err (CommandError "$multiply only supports numeric types")
        end
    end.

(** [{"$multiply": [a, b]}] *)
Definition e_multiply (a b : expr) : expr := fun d =>
  x ← a d; y ← b d;
  match x, y with
  | Some x, Some y => mul_values x y
  | _, _ => Ok (Some VNull)
  end.

(** [{"$toDate": e}]: a long or a double counts milliseconds. *)
Definition e_toDate (e : expr) : expr := fun d =>
  x ← e d;
  match x with
  | None | Some VNull => Ok (Some VNull)
  | Some (VDate ms) | Some (VInt64 ms) => Ok (Some (VDate ms))
  | Some (VFloat64 f) =>
      match Conv.trunc f with
      | Some ms =>
          if Conv.fits ms then Ok (Some (VDate ms))
          else Err (CommandError "$toDate: value out of range")
      | None => Err (CommandError "$toDate: value out of range")
      end
  | Some _ => Err (CommandError "Unsupported conversion to date")
  end.

(** [{"$dateToString": {"format": "%Y-%m-%d", "date": e}}] *)
Definition e_dateToString (e : expr) : expr := fun d =>
  x ← e d;
  match x with
  | None | Some VNull => Ok (Some VNull)
  | Some (VDate ms) =>
      let ymd := date_of_millis ms in
      if (0 <=? ymd.1.1) && (ymd.1.1 <=? 9999)
      then Ok (Some (VString (format_date ymd)))
      else Err (CommandError "$dateToString is only defined on year 0-9999")
  | Some _ => Err (CommandError "$dateToString requires a date")
  end.

(** [{"$year": e}] and [{"$month": e}] *)
Definition e_year (e : expr) : expr := fun d =>
  x ← e d;
  match x with
  | None | Some VNull => Ok (Some VNull)
  | Some (VDate ms) => Ok (Some (int_value (date_of_millis ms).1.1))
  | Some _ => Err (CommandError "$year requires a date")
  end.

Definition e_month (e : expr) : expr := fun d =>
  x ← e d;
  match x with
  | None | Some VNull => Ok (Some VNull)
  | Some (VDate ms) => Ok (Some (int_value (date_of_millis ms).1.2))
  | Some _ => Err (CommandError "$month requires a date")
  end.

(** *** Pipeline stages *)

Definition stage : Type := Database -> list Record -> outcome (list Record).

Fixpoint run (pipeline : list stage) (db : Database) (docs : list Record)
    : outcome (list Record) :=
  match pipeline with
  | [] => Ok docs
  | s :: rest => docs' ← s db docs; run rest db docs'
  end.

(** [$match] *)
Definition match_stage (filter : Filter) : stage := fun _ docs =>
  Ok (List.filter (matches filter) docs).

Definition set_field (name : string) (e : expr) (d : Record)
    : outcome Record :=
  v ← e d;
  Ok (match v with Some v => <[name := v]> d | None => d end).

(** [$addFields] with one field *)
Definition addFields (name : string) (e : expr) : stage := fun _ docs =>
  traverse (set_field name e) docs.

(** [$unset] *)
Definition unset (name : string) : stage := fun _ docs =>
  Ok (delete name <$> docs).

(** [$unionWith]: the documents so far, then those the inner pipeline gives
    on the other collection. *)
Definition unionWith (coll : string) (pipeline : list stage) : stage :=
  fun db docs =>
    more ← run pipeline db (collection db coll);
    Ok (docs ++ more).

(** [$sort] on one field; a document without the field sorts as null.  The
    server does not promise an order among documents with equal keys; the
    model keeps them in the order they arrive. *)
Fixpoint insert_sorted {A : Type} (le : A -> A -> bool) (d : A)
    (l : list A) : list A :=
  match l with
  | [] => [d]
  | e :: l' => if le d e then d :: e :: l' else e :: insert_sorted le d l'
  end.

Definition sort_by {A : Type} (le : A -> A -> bool) (l : list A) : list A :=
  foldr (insert_sorted le) [] l.

Definition sort_key (name : string) (d : Record) : value :=
  default VNull (d !! name).

Definition sort_le (name : string) (dir : Z) (a b : Record) : bool :=
  match bson_compare (sort_key name a) (sort_key name b) with
  | Eq => true
  | Lt => 0 <? dir
  | Gt => dir <? 0
  end.

Definition sort_stage (name : string) (dir : Z) : stage := fun _ docs =>
  Ok (sort_by (sort_le name dir) docs).

(** [$skip] and [$limit]; the server rejects a negative skip and a limit
    that is not positive. *)
Definition skip_stage (n : Z) : stage := fun _ docs =>
  if n <? 0 then Err (CommandError "Argument to $skip cannot be negative")
  else Ok (drop (Z.to_nat n) docs).

Definition limit_stage (n : Z) : stage := fun _ docs =>
  if n <=? 0 then Err (CommandError "the limit must be positive")
  else Ok (take (Z.to_nat n) docs).

(** [$count]: no document at all when there is nothing to count. *)
Definition count_stage (name : string) : stage := fun _ docs =>
  match docs with
  | [] => Ok []
  | _ => Ok [ {[ name := int_value (Z.of_nat (length docs)) ]} ]
  end.

(** [$facet]: one document, holding for each facet the array of the
    documents its pipeline gives on the input. *)
Definition facet (facets : list (string * list stage)) : stage :=
  fun db docs =>
    fields ← traverse
      (fun f : string * list stage =>
         out ← run f.2 db docs; Ok (f.1, VArray (VDoc <$> out)))
      facets;
    Ok [ list_to_map fields ].

(** [$project] with computed fields; [_id] is kept. *)
Definition project (fields : list (string * expr)) : stage := fun _ docs =>
  traverse
    (fun d =>
       fs ← traverse
         (fun f : string * expr => v ← f.2 d; Ok (f.1, v)) fields;
       let computed : Record :=
         list_to_map (omap (fun f : string * option value =>
                              v ← f.2; Some (f.1, v)) fs) in
       Ok (match d !! "_id" with
           | Some i => <["_id" := i]> computed
           | None => computed
           end))
    docs.

(** [$group].  [key] computes the grouping key of a document, [keq] tells
    when two keys are the same, [render] is the [_id] of the group.  The
    server gives the groups in no particular order; the model gives them in
    the order of their first member.  [ReportRecords] sorts the groups;
    what is stated of [ReportByMetric] with the decoding of the driver does
    not depend on their order. *)
Inductive accumulator : Type :=
| acc_count                (* [{"$sum": 1}] *)
| acc_push (e : expr).     (* [{"$push": e}] *)

Definition eval_acc (acc : accumulator) (members : list Record)
    : outcome value :=
  match acc with
  | acc_count => Ok (int_value (Z.of_nat (length members)))
  | acc_push e => vs ← traverse e members; Ok (VArray (omap id vs))
  end.

Section Group.
Context {K : Type}.
Variable key : Record -> outcome K.
Variable keq : K -> K -> bool.
Variable render : K -> value.

Fixpoint group_keys (ks : list K) : list K :=
  match ks with
  | [] => []
  | k :: ks' => k :: List.filter (fun k' => negb (keq k k')) (group_keys ks')
  end.

Definition members_of (keyed : list (K * Record)) (k : K) : list Record :=
  (List.filter (fun kd : K * Record => keq k kd.1) keyed).*2.

Definition group (accs : list (string * accumulator)) : stage :=
  fun _ docs =>
    keyed ← traverse (fun d => k ← key d; Ok (k, d)) docs;
    traverse
      (fun k =>
         fields ← traverse
           (fun a : string * accumulator =>
              v ← eval_acc a.2 (members_of keyed k); Ok (a.1, v))
           accs;
         Ok (<["_id" := render k]> (list_to_map fields : Record)))
      (group_keys keyed.*1).

End Group.

(** *** The driver *)

(** [collection.Aggregate(ctx, pipeline)] *)
Definition Aggregate (db : Database) (coll : string) (pipeline : list stage)
    : outcome (list Record) :=
  run pipeline db (collection db coll).

(** The Go type a BSON array is decoded to is an entry of the registry of
    the client, which is set up outside the repositories: [bson.A] (the
    default of the driver) or [[]interface{}]. *)
Inductive ArrayType : Type := BsonA | InterfaceSlice.

Fixpoint as_slices (v : value) : value :=
  match v with
  | VArray l => VSlice (List.map as_slices l)
  | VSlice l => VSlice (List.map as_slices l)
  | VDoc d => VDoc (as_slices <$> d)
  | v => v
  end.

Definition decode (reg : ArrayType) (v : value) : value :=
  match reg with
  | BsonA => v
  | InterfaceSlice => as_slices v
  end.

(** [cursor.All(ctx, &results)] with [results []bson.M] *)
Definition cursor_All (reg : ArrayType) (docs : list Record) : list Record :=
  (fun d : Record => decode reg <$> d) <$> docs.

(** *** The key of a document

    [_id] is unique in a collection.  Two numbers are the same key when
    they have the same value, whatever their types, and so for the other
    values that [bson_compare] orders.  Two documents are the same key when
    they have the same fields with the same values, and two arrays inside
    them when they have the same elements.  (The server compares the fields
    of a document in their order; the map of a Go record has none, so the
    order in which the driver writes a key of several fields is not fixed.) *)
Fixpoint same_key (a : value) : value -> bool :=
  match a with
  | VDoc d1 =>
      let fields := same_key <$> d1 in
      fun b =>
        match b with
        | VDoc d2 =>
            bool_decide (dom d1 = dom d2) &&
            map_fold (fun key same acc =>
                        acc && from_option same false (d2 !! key))
                     true fields
        | _ => false
        end
  | VArray l1 | VSlice l1 =>
      let elements := List.map same_key l1 in
      fun b =>
        match b with
        | VArray l2 | VSlice l2 =>
            (length l1 =? length l2)%nat &&
            forallb (fun sv : (value -> bool) * value => sv.1 sv.2)
                    (zip elements l2)
        | _ => false
        end
  | _ =>
      fun b =>
        match b with
        | VDoc _ | VArray _ | VSlice _ => false
        | _ => same_value a b
        end
  end.

Definition is_array (v : value) : bool :=
  match v with
  | VArray _ | VSlice _ => true
  | _ => false
  end.

Definition has_key (coll : Collection) (k : value) : bool :=
  existsb (fun d : Record =>
             match d !! "_id" with
             | Some k' => same_key k k'
             | None => false
             end) coll.

(** [collection.InsertOne(ctx, doc)]: a document without [_id] gets the
    ObjectID [oid] the driver generates; the server refuses an [_id] that
    is an array (a write error that is no duplicate key: code 2, BadValue)
    and an [_id] that a document of the collection has (write error 11000,
    DuplicateKey). *)
Definition InsertOne (db : Database) (name : string) (oid : N) (doc : Record)
    : Database * option error :=
  let coll := collection db name in
  let doc := match doc !! "_id" with
             | Some _ => doc
             | None => <["_id" := VObjectID oid]> doc
             end in
  let key := default VNull (doc !! "_id") in
  if is_array key then (db, Some (WriteException 2))
  else if has_key coll key then (db, Some (WriteException 11000))
  else (<[name := coll ++ [doc]]> db, None).

(** [collection.CountDocuments(ctx, filter)] *)
Definition CountDocuments (db : Database) (name : string) (filter : Filter)
    : outcome Z :=
  Ok (Z.of_nat (length (List.filter (matches filter) (collection db name)))).

End mongo.

(** ** package mongodb: the repositories *)

Module mongodb.
Import domain mongo.

(** [func (r *SensorRepository) getRecordCollection(boxID string) *mongo.Collection],
    by name *)
Definition getRecordCollection (boxID : string) : string :=
  "sensor_data_" +:+ boxID.

(** [func (r *SensorRepository) AddRecord];
    [now] is [time.Now().UnixMilli()], [oid] the ObjectID the driver would
    generate.  The result is the database after the call and the error.
    [record] is a map, with or without entries; the nil map, on which the
    assignment of [c] panics in Go, is no value of [Record]. *)
Definition AddRecord (db : Database) (now : Z) (oid : N) (boxID : string)
    (record : Record) : Database * option error :=
  let collection := getRecordCollection boxID in
  let record :=
    match record !! "c" with
    | Some _ => record
    | None => <["c" := VInt64 now]> record
    end in
  InsertOne db collection oid record.

(** The filter [matchStage] that [ListRecordsByGroup] builds. *)
Definition time_filter (base : Filter) (query : option QueryRecord) : Filter :=
  match query with
  | Some q =>
      match Time q with
      | [t0; t1] => <["_id" := [Gte (VInt64 t0); Lte (VInt64 t1)]]> base
      | _ => base
      end
  | None => base
  end.

Definition query_skip (query : option QueryRecord) : Z :=
  match query with
  | Some q => default 0 (Skip q)
  | None => 0
  end.

Definition query_limit (query : option QueryRecord) : Z :=
  match query with
  | Some q => default 20 (Limit q)
  | None => 20
  end.

(** The decoding of the one document a [$facet] stage gives. *)
Definition facet_records (result : list Record) : list Record :=
  match result with
  | r0 :: _ =>
      match r0 !! "records" with
      | Some (VArray recordsData) =>
          omap (fun item => if item is VDoc record then Some record else None)
               recordsData
      | _ => []
      end
  | [] => []
  end.

Definition facet_total (result : list Record) : Z :=
  match result with
  | r0 :: _ =>
      match r0 !! "total" with
      | Some (VArray (VDoc countDoc :: _)) =>
          match countDoc !! "count" with
          | Some (VInt32 count) => count
          | _ => 0
          end
      | _ => 0
      end
  | [] => 0
  end.

(** [func (r *SensorRepository) ListRecordsByGroup] *)
Definition ListRecordsByGroup (reg : ArrayType) (db : Database)
    (boxIDs : list string) (query : option QueryRecord)
    : outcome RecordsResult :=
  match boxIDs with
  | [] => Ok (mkRecordsResult [] 0)
  | firstBoxID :: rest =>
      let skip := query_skip query in
      let limit := query_limit query in
      let matchStage := time_filter ∅ query in
      let collection := getRecordCollection firstBoxID in
      let pipeline := [
        match_stage matchStage;
        addFields "box_id" (e_lit (VString firstBoxID)) ] in
      let pipeline :=
        foldl (fun pipeline boxID =>
                 pipeline ++ [
                   unionWith ("sensor_data_" +:+ boxID) [
                     match_stage matchStage;
                     addFields "box_id" (e_lit (VString boxID)) ] ])
              pipeline rest in
      let pipeline := pipeline ++ [
        facet [
          ("records", [
             sort_stage "_id" (-1);
             skip_stage skip;
             limit_stage limit;
             addFields "id" (e_field "_id");
             unset "_id" ]);
          ("total", [ count_stage "count" ]) ] ] in
      match Aggregate db collection pipeline with
      | Err e => Err (Wrapped "aggregation failed" e)
      | Panic msg => Panic msg
      | Ok docs =>
          let result := cursor_All reg docs in
          Ok (mkRecordsResult (facet_records result) (facet_total result))
      end
  end.

(** The four maps [metricSums], [metricCounts], [metricMins], [metricMaxs]
    of [ReportRecords]. *)
Record stats : Type := mkStats {
  metricSums : gmap string float;
  metricCounts : gmap string Z;
  metricMins : gmap string float;
  metricMaxs : gmap string float
}.

Definition no_stats : stats := mkStats ∅ ∅ ∅ ∅.

(** The body of [if floatVal, ok := value.(float64); ok { ... }] *)
Definition add_value (st : stats) (key : string) (floatVal : float) : stats :=
  let sums :=
    <[key := (default 0 (metricSums st !! key) + floatVal)%float]>
      (metricSums st) in
  let counts :=
    <[key := default 0 (metricCounts st !! key) + 1]> (metricCounts st) in
  match metricMins st !! key with
  | None =>
      mkStats sums counts
        (<[key := floatVal]> (metricMins st))
        (<[key := floatVal]> (metricMaxs st))
  | Some mn =>
      mkStats sums counts
        (if (floatVal <? mn)%float
         then <[key := floatVal]> (metricMins st) else metricMins st)
        (if (default 0 (metricMaxs st !! key) <? floatVal)%float
         then <[key := floatVal]> (metricMaxs st) else metricMaxs st)
  end.

(** The body of [for key, value := range record] *)
Definition visit_field (key : string) (value : domain.value) (st : stats)
    : stats :=
  if decide (key = "_id" \/ key = "c" \/ key = "date") then st
  else
    match value with
    | VFloat64 floatVal => add_value st key floatVal
    | _ => st
    end.

(** [for key, value := range record]: the fields are visited in the order
    the map gives them. *)
Definition visit_record (st : stats) (record : Record) : stats :=
  map_fold visit_field st record.

(** [for _, item := range data] *)
Definition visit_data (data : list value) : stats :=
  foldl (fun st item =>
           if item is VDoc record then visit_record st record else st)
        no_stats data.

(** The unchecked type assertions [x.(string)], [x.(int32)],
    [x.([]interface{})] and [x.(float64)]. *)
Definition assert_string (x : option value) : outcome string :=
  if x is Some (VString s) then Ok s
  else Panic "interface conversion: interface {} is not string".

Definition assert_int32 (x : option value) : outcome Z :=
  if x is Some (VInt32 n) then Ok n
  else Panic "interface conversion: interface {} is not int32".

Definition assert_slice (x : option value) : outcome (list value) :=
  if x is Some (VSlice l) then Ok l
  else Panic "interface conversion: interface {} is not []interface {}".

(** The body of [for _, result := range results] in [ReportRecords] *)
Definition daily_report (result : Record) : outcome DailyReport :=
  date ← assert_string (result !! "_id");
  count ← assert_int32 (result !! "count");
  data ← assert_slice (result !! "data");
  let st := visit_data data in
  Ok {| Date := date;
        Count := count;
        Avg := map_imap
                 (fun key sum =>
                    let count := default 0 (metricCounts st !! key) in
                    if 0 <? count
                    then Some (RoundValue (sum / Conv.float64_of_int count))
                    else None)
                 (metricSums st);
        Min := RoundValue <$> metricMins st;
        Max := RoundValue <$> metricMaxs st |}.

(** The date of a record: its key, in seconds, as a day [%Y-%m-%d]. *)
Definition date_expr : expr :=
  e_dateToString
    (e_toDate (e_multiply (e_field "_id") (e_lit (VInt32 1000)))).

(** The group key ["$date"]. *)
Definition date_key (d : Record) : outcome value :=
  Ok (default VNull (d !! "date")).

(** [func (r *SensorRepository) ReportRecords] *)
Definition ReportRecords (reg : ArrayType) (db : Database) (boxID : string)
    (query : option QueryRecord) : outcome (list DailyReport) :=
  let collection := getRecordCollection boxID in
  let matchStage := time_filter {[ "_id" := [Exists true] ]} query in
  let pipeline := [
    match_stage matchStage;
    addFields "date" date_expr;
    group date_key same_value id [
      ("count", acc_count);
      ("data", acc_push e_root) ];
    sort_stage "_id" 1 ] in
  docs ← Aggregate db collection pipeline;
  traverse daily_report (cursor_All reg docs).

(** The loop [for _, item := range data] of [ReportByMetric]: the sum and
    the number of the [float64] values of [metric]. *)
Definition metric_total (data : list value) (metric : string) : float * Z :=
  foldl (fun acc item =>
           match item with
           | VDoc record =>
               match record !! metric with
               | Some (VFloat64 floatVal) =>
                   ((acc.1 + floatVal)%float, acc.2 + 1)
               | _ => acc
               end
           | _ => acc
           end)
        (0%float, 0) data.

(** The body of [for _, result := range results] in [ReportByMetric] *)
Definition monthly_reports (metrics : list string) (result : Record)
    : outcome (list Report) :=
  match result !! "_id" with
  | Some (VDoc id) =>
      year ← assert_int32 (id !! "year");
      month ← assert_int32 (id !! "month");
      count ← assert_int32 (result !! "count");
      data ← assert_slice (result !! "data");
      Ok (omap (fun metric =>
                  let '(total, validCount) := metric_total data metric in
                  if 0 <? validCount
                  then Some {| InfoMonth := month;
                               InfoYear := year;
                               InfoMetric := metric;
                               ReportCount := count;
                               ReportTotal := RoundValue total |}
                  else None)
               metrics)
  | _ => Ok []
  end.

(** The group key [{"year": "$year", "month": "$month"}]. *)
Definition month_key (d : Record) : outcome (value * value) :=
  Ok (default VNull (d !! "year"), default VNull (d !! "month")).

Definition month_keq (a b : value * value) : bool :=
  same_value a.1 b.1 && same_value a.2 b.2.

Definition month_render (k : value * value) : value :=
  VDoc (<["year" := k.1]> {[ "month" := k.2 ]}).

(** The time [t] of a record, in seconds, as a date. *)
Definition time_expr : expr :=
  e_toDate (e_multiply (e_field "t") (e_lit (VInt32 1000))).

(** The pipeline of [ReportByMetric]. *)
Definition monthly_pipeline : list stage :=
  [ match_stage {[ "t" := [Exists true] ]};
    project [ ("year", e_year time_expr);
              ("month", e_month time_expr);
              ("metrics", e_root) ];
    group month_key month_keq month_render [
      ("count", acc_count);
      ("data", acc_push (e_field "metrics")) ] ].

(** The body of [for _, source := range sources]; an error of the store
    makes the loop [continue]. *)
Definition source_reports (reg : ArrayType) (db : Database)
    (metrics : list string) (source : string) : outcome (list Report) :=
  let collectionName := "sensor_data_" +:+ source in
  match Aggregate db collectionName monthly_pipeline with
  | Err _ => Ok []
  | Panic msg => Panic msg
  | Ok docs =>
      rows ← traverse (monthly_reports metrics) (cursor_All reg docs);
      Ok (concat rows)
  end.

(** [func (r *ZoneRepository) ReportByMetric] *)
Definition ReportByMetric (reg : ArrayType) (db : Database)
    (sources metrics : list string) : outcome (list Report) :=
  rows ← traverse (source_reports reg db metrics) sources;
  Ok (concat rows).

(** [func (r *SensorRepository) ListRecords] *)
Definition ListRecords (reg : ArrayType) (db : Database) (boxID : string)
    (query : option QueryRecord) : outcome RecordsResult :=
  let collection := getRecordCollection boxID in
  let filter := time_filter ∅ query in
  let skip := query_skip query in
  let limit := query_limit query in
  let pipeline := [
    match_stage filter;
    facet [
      ("records", [
         sort_stage "_id" (-1);
         skip_stage skip;
         limit_stage limit;
         addFields "id" (e_field "_id");
         unset "_id" ]);
      ("total", [ count_stage "count" ]) ] ] in
  docs ← Aggregate db collection pipeline;
  let result := cursor_All reg docs in
  Ok (mkRecordsResult (facet_records result) (facet_total result)).

(** [func (r *SensorRepository) CountRecords] *)
Definition CountRecords (db : Database) (boxID : string)
    (query : option QueryRecord) : outcome Z :=
  let collection := getRecordCollection boxID in
  let filter := time_filter ∅ query in
  CountDocuments db collection filter.

(** [func (r *SensorRepository) ImportRecord], the same body as
    [AddRecord]; as there, [record] is a map that is not nil. *)
Definition ImportRecord (db : Database) (now : Z) (oid : N) (boxID : string)
    (record : Record) : Database * option error :=
  let collection := getRecordCollection boxID in
  let record :=
    match record !! "c" with
    | Some _ => record
    | None => <["c" := VInt64 now]> record
    end in
  InsertOne db collection oid record.

(** [func (r *SensorRepository) ListRecordsLatestByGroup];
    [cursor.All(ctx, &result)] with [result []domain.Record]. *)
Definition ListRecordsLatestByGroup (reg : ArrayType) (db : Database)
    (boxIDs : list string) : outcome RecordsResult :=
  match boxIDs with
  | [] => Ok (mkRecordsResult [] 0)
  | firstBoxID :: rest =>
      let collection := getRecordCollection firstBoxID in
      let pipeline := [
        sort_stage "_id" (-1);
        limit_stage 1;
        addFields "box_id" (e_lit (VString firstBoxID)) ] in
      let pipeline :=
        foldl (fun pipeline boxID =>
                 pipeline ++ [
                   unionWith ("sensor_data_" +:+ boxID) [
                     sort_stage "_id" (-1);
                     limit_stage 1;
                     addFields "box_id" (e_lit (VString boxID)) ] ])
              pipeline rest in
      let pipeline := pipeline ++ [ sort_stage "_id" (-1) ] in
      let pipeline := pipeline ++ [
        addFields "id" (e_field "_id");
        unset "_id" ] in
      match Aggregate db collection pipeline with
      | Err e => Err (Wrapped "aggregation failed" e)
      | Panic msg => Panic msg
      | Ok docs =>
          let result := cursor_All reg docs in
          Ok (mkRecordsResult result (Z.of_nat (length result)))
      end
  end.

End mongodb.

(** ** What the multi-partition query is about

    The notions in which the properties of [ListRecordsByGroup] are stated. *)

Module merge.
Import domain mongo mongodb.

(** The records of the partition [boxID] that the filter of the query
    accepts, in the order of the collection. *)
Definition partition_matches (db : Database) (query : option QueryRecord)
    (boxID : string) : list Record :=
  List.filter (matches (time_filter ∅ query))
              (collection db (getRecordCollection boxID)).

(** A record tagged with the key of its partition. *)
Definition tagged (boxID : string) (d : Record) : Record :=
  <["box_id" := VString boxID]> d.

(** The tagged matches of all partitions, one partition after the other. *)
Definition merged (db : Database) (query : option QueryRecord)
    (boxIDs : list string) : list Record :=
  flat_map (fun boxID => tagged boxID <$> partition_matches db query boxID)
           boxIDs.

(** The stage by which [ListRecordsByGroup] brings in one more partition. *)
Definition union_of (filter : Filter) (boxID : string) : stage :=
  unionWith ("sensor_data_" +:+ boxID)
    [ match_stage filter; addFields "box_id" (e_lit (VString boxID)) ].

(** A record as it is returned: its key is under [id] and not under [_id]. *)
Definition presented (d : Record) : Record :=
  delete "_id" (if d !! "_id" is Some v then <["id" := v]> d else d).

(** Records in descending order of their key. *)
Definition key_descending (l : list Record) : Prop :=
  Sorted (fun a b => bson_compare (sort_key "_id" a) (sort_key "_id" b) <> Lt)
         l.

(** The scenario of three partitions that hold 5, 0 and 3 records. *)
Definition reading (key : Z) (level : float) : Record :=
  <["_id" := VInt64 key]> {[ "WAU" := VFloat64 level ]}.

Definition scenario_db : Database :=
  <["sensor_data_a" := [reading 1700000000 1; reading 1700000600 2;
                        reading 1700001200 3; reading 1700001800 4;
                        reading 1700002400 5]]>
  (<["sensor_data_b" := []]>
  {[ "sensor_data_c" := [reading 1700000300 6; reading 1700002100 7;
                         reading 1700002700 8] ]}).

Definition scenario_query : option QueryRecord :=
  Some {| Time := [1700000000; 1700003000]; Limit := Some 4; Skip := None |}.

Definition returned (boxID : string) (key : Z) (level : float) : Record :=
  <["id" := VInt64 key]>
    (<["box_id" := VString boxID]> {[ "WAU" := VFloat64 level ]}).

Definition scenario_page : list Record :=
  [ returned "c" 1700002700 8; returned "a" 1700002400 5;
    returned "c" 1700002100 7; returned "a" 1700001800 4 ].

End merge.

(** ** What the rollups are about

    The notions in which the properties of [ReportRecords] and
    [ReportByMetric] are stated. *)

Module rollup.
Import domain mongo mongodb.

(** The records of the partition [boxID] that [ReportRecords] reads. *)
Definition daily_matches (db : Database) (query : option QueryRecord)
    (boxID : string) : list Record :=
  List.filter (matches (time_filter {[ "_id" := [Exists true] ]} query))
              (collection db (getRecordCollection boxID)).

(** The UTC calendar date the pipeline derives from the key of a record. *)
Definition record_date (d : Record) : option string :=
  match date_expr d with
  | Ok (Some (VString s)) => Some s
  | _ => None
  end.

Definition date_str (d : Record) : string := default EmptyString (record_date d).

(** The records of a list that fall on the date [s]. *)
Definition bucket (s : string) (l : list Record) : list Record :=
  List.filter (fun d => String.eqb s (date_str d)) l.

(** The fields [ReportRecords] leaves out. *)
Definition reserved (key : string) : Prop :=
  key = "_id" \/ key = "c" \/ key = "date".

(** The [float64] values of the field [key] in a list of records, in the
    order of the records. *)
Definition field_values (key : string) (l : list Record) : list float :=
  omap (fun d : Record => if d !! key is Some (VFloat64 f) then Some f else None)
       l.

(** Sum, minimum and maximum of a list of [float64] the way the loops form
    them. *)
Definition fsum (vs : list float) : float := foldl PrimFloat.add 0%float vs.

Definition fmin (vs : list float) : option float :=
  match vs with
  | [] => None
  | v :: vs' =>
      Some (foldl (fun m f => if PrimFloat.ltb f m then f else m) v vs')
  end.

Definition fmax (vs : list float) : option float :=
  match vs with
  | [] => None
  | v :: vs' =>
      Some (foldl (fun m f => if PrimFloat.ltb m f then f else m) v vs')
  end.

(** What the four maps of [ReportRecords] hold for one key, and how one
    more value of that key changes it. *)
Definition key_state (st : stats) (key : string)
    : option float * option Z * option float * option float :=
  (metricSums st !! key, metricCounts st !! key,
   metricMins st !! key, metricMaxs st !! key).

Definition step (ks : option float * option Z * option float * option float)
    (f : float) : option float * option Z * option float * option float :=
  let '(s, c, mn, mx) := ks in
  (Some (default 0 s + f)%float,
   Some (default 0 c + 1),
   match mn with
   | None => Some f
   | Some m => if PrimFloat.ltb f m then Some f else Some m
   end,
   match mn with
   | None => Some f
   | Some _ => if PrimFloat.ltb (default 0%float mx) f then Some f else mx
   end).

(** The record as the pipeline passes it on: with its date. *)
Definition with_date (d : Record) : Record :=
  <["date" := VString (date_str d)]> d.

(** The group of the date [s] as the pipeline gives it. *)
Definition daily_group (matched : list Record) (s : string) : Record :=
  <["_id" := VString s]>
    (<["count" := int_value (Z.of_nat (length (bucket s matched)))]>
       (<["data" := VArray (VDoc <$> (with_date <$> bucket s matched))]> ∅)).

(** The order of date strings. *)
Definition date_le (a b : string) : bool :=
  if String.compare a b is Gt then false else true.

(** The dates of a list of records, each once, in ascending order. *)
Definition dates_of (matched : list Record) : list string :=
  sort_by date_le (group_keys String.eqb (date_str <$> matched)).

(** The scenario of one record with the value 1.234. *)
Definition one_reading_db : Database :=
  {[ "sensor_data_a" :=
       [ <["_id" := VInt64 1700000000]> {[ "T" := VFloat64 1.234 ]} ] ]}.

(** The (year, month) the pipeline of [ReportByMetric] derives from the time
    [t] of a record, when both are int32. *)
Definition record_month (d : Record) : option (Z * Z) :=
  match e_year time_expr d, e_month time_expr d with
  | Ok (Some (VInt32 y)), Ok (Some (VInt32 m)) => Some (y, m)
  | _, _ => None
  end.

Definition month_of (d : Record) : Z * Z := default (0, 0) (record_month d).

Definition month_eqb (a b : Z * Z) : bool := (a.1 =? b.1) && (a.2 =? b.2).

(** The records of the partition [source] that [ReportByMetric] reads. *)
Definition monthly_matches (db : Database) (source : string) : list Record :=
  List.filter (matches {[ "t" := [Exists true] ]})
              (collection db ("sensor_data_" +:+ source)).

(** The records of a list that fall in the month [ym]. *)
Definition month_bucket (ym : Z * Z) (l : list Record) : list Record :=
  List.filter (fun d => month_eqb ym (month_of d)) l.

(** The months of a list of records, each once, in the order in which they
    first occur. *)
Definition months_of (matched : list Record) : list (Z * Z) :=
  group_keys month_eqb (month_of <$> matched).

(** The rows of one month of one partition: one for each requested metric
    that has a [float64] value in the month. *)
Definition month_rows (metrics : list string) (matched : list Record)
    (ym : Z * Z) : list Report :=
  omap (fun metric =>
          match field_values metric (month_bucket ym matched) with
          | [] => None
          | vs =>
              Some {| InfoMonth := ym.2;
                      InfoYear := ym.1;
                      InfoMetric := metric;
                      ReportCount :=
                        Z.of_nat (length (month_bucket ym matched));
                      ReportTotal := RoundValue (fsum vs) |}
          end)
       metrics.

(** The record as [$project] passes it on, the key of its group, and the
    group of the month [ym] as the pipeline gives it. *)
Definition projected (d : Record) : Record :=
  let computed : Record :=
    <["year" := VInt32 (month_of d).1]>
      (<["month" := VInt32 (month_of d).2]>
         (<["metrics" := VDoc d]> ∅)) in
  match d !! "_id" with
  | Some i => <["_id" := i]> computed
  | None => computed
  end.

Definition month_values (ym : Z * Z) : value * value :=
  (VInt32 ym.1, VInt32 ym.2).

Definition monthly_group (matched : list Record) (ym : Z * Z) : Record :=
  <["_id" := month_render (month_values ym)]>
    (<["count" := int_value (Z.of_nat (length (month_bucket ym matched)))]>
       (<["data" := VArray (VDoc <$> month_bucket ym matched)]> ∅)).

(** The scenario of a month with two records, one of which carries "y". *)
Definition two_readings_db : Database :=
  {[ "sensor_data_a" :=
       [ <["_id" := VInt64 1]>
           (<["t" := VInt64 1700000000]>
              (<["x" := VFloat64 1.5]> {[ "y" := VFloat64 2 ]}));
         <["_id" := VInt64 2]>
           (<["t" := VInt64 1700000100]> {[ "x" := VFloat64 2.5 ]}) ] ]}.

End rollup.

(** ** The collection of metrics

    The repository reads and writes the collection [metric] through the
    struct [domain.Metric].  The collection is given by the metrics its
    documents decode to, in the order in which they were inserted, which is
    the order in which the store finds them. *)

Module metrics.
Import domain.

Abbreviation MetricCollection := (list Metric).

(** [collection.FindOne(ctx, filter).Decode(&metric)]: the first document
    the filter accepts; [None] stands for [mongo.ErrNoDocuments]. *)
Definition FindOne (coll : MetricCollection) (filter : Metric -> bool)
    : option Metric :=
  List.find filter coll.

(** [collection.InsertOne(ctx, metric)]: [_id], the field [ID], is unique
    in the collection. *)
Definition InsertOne (coll : MetricCollection) (metric : Metric)
    : MetricCollection * option error :=
  if existsb (fun d => String.eqb (ID d) (ID metric)) coll
  then (coll, Some (WriteException 11000))
  else (coll ++ [metric], None).

(** [collection.UpdateOne(ctx, filter, update)]: the first document the
    filter accepts is updated; it is no error when there is none. *)
Fixpoint UpdateOne (coll : MetricCollection) (filter : Metric -> bool)
    (update : Metric -> Metric) : MetricCollection :=
  match coll with
  | [] => []
  | d :: coll' =>
      if filter d then update d :: coll'
      else d :: UpdateOne coll' filter update
  end.

(** The filters [bson.M{"code": code}], [bson.M{"_id": id}] and
    [bson.M{"dtime": bson.M{"$exists": false}}]. *)
Definition by_code (code : string) (d : Metric) : bool := String.eqb (Code d) code.
Definition by_id (id : string) (d : Metric) : bool := String.eqb (ID d) id.
Definition not_deleted (d : Metric) : bool :=
  if DTime d is None then true else false.

(** [bson.M{"$set": metric}]: the fields of the struct are written; the
    fields tagged [omitempty] are left out of the update, and so stay as
    they are, when they are empty ([Alias] and [DTime] nil, [Range] of
    length 0). *)
Definition set_metric (metric : Metric) (d : Metric) : Metric :=
  {| ID := ID metric;
     Code := Code metric;
     Name := Name metric;
     Unit := Unit metric;
     Alias := if Alias metric is Some a then Some a else Alias d;
     MetricRange := if MetricRange metric is [] then MetricRange d
                    else MetricRange metric;
     CTime := CTime metric;
     MTime := MTime metric;
     DTime := if DTime metric is Some t then Some t else DTime d |}.

(** [bson.M{"$set": bson.M{"dtime": now}}] *)
Definition set_dtime (now : Z) (d : Metric) : Metric :=
  {| ID := ID d;
     Code := Code d;
     Name := Name d;
     Unit := Unit d;
     Alias := Alias d;
     MetricRange := MetricRange d;
     CTime := CTime d;
     MTime := MTime d;
     DTime := Some now |}.

(** [func (r *SensorRepository) ListMetrics] *)
Definition ListMetrics (coll : MetricCollection) : list Metric :=
  List.filter not_deleted coll.

(** [func (r *SensorRepository) GetMetric]:
    [filter["dtime"] = bson.M{"$exists": false}] adds a condition to the
    filter. *)
Definition GetMetric (coll : MetricCollection) (filter : Metric -> bool)
    : outcome Metric :=
  let filter := fun d => filter d && not_deleted d in
  match FindOne coll filter with
  | None => Err ErrMetricNotFound
  | Some metric => Ok metric
  end.

(** [func (r *SensorRepository) CreateMetric] *)
Definition CreateMetric (coll : MetricCollection) (metric : Metric)
    : MetricCollection * option error :=
  match GetMetric coll (by_code (Code metric)) with
  | Ok existing => (coll, Some ErrMetricCodeExisted)
  | _ => InsertOne coll metric
  end.

(** [func (r *SensorRepository) UpdateMetric]; [metric.MTime] is set
    through the pointer, so the caller sees it: the result is the
    collection and the metric after the call. *)
Definition UpdateMetric (coll : MetricCollection) (now : Z) (metric : Metric)
    : MetricCollection * Metric :=
  let metric :=
    {| ID := ID metric; Code := Code metric; Name := Name metric;
       Unit := Unit metric; Alias := Alias metric;
       MetricRange := MetricRange metric; CTime := CTime metric;
       MTime := now; DTime := DTime metric |} in
  (UpdateOne coll (by_id (ID metric)) (set_metric metric), metric).

(** [func (r *SensorRepository) DeleteMetric] *)
Definition DeleteMetric (coll : MetricCollection) (now : Z) (id : string)
    : MetricCollection :=
  UpdateOne coll (by_id id) (set_dtime now).

End metrics.

(** ** package service: the operations of [SensorService] *)

Module SensorService.
Import domain mongo interpolation service.

(** [func (s *SensorService) CreateMetric] *)
Definition CreateMetric (coll : metrics.MetricCollection) (id : string)
    (now : Z) (params : CreateMetricParams)
    : metrics.MetricCollection * outcome Metric :=
  if String.eqb (CreateCode params) ""
  then (coll, Err ErrMetricMustHaveCode)
  else
    let metric := NewMetric id now params in
    match metrics.CreateMetric coll metric with
    | (coll', Some err) => (coll', Err err)
    | (coll', None) => (coll', Ok metric)
    end.

(** [func (s *SensorService) UpdateMetric] *)
Definition UpdateMetric (coll : metrics.MetricCollection) (now : Z)
    (id : string) (params : UpdateMetricParams)
    : metrics.MetricCollection * outcome Metric :=
  match metrics.GetMetric coll (metrics.by_id id) with
  | Err err => (coll, Err err)
  | Panic msg => (coll, Panic msg)
  | Ok metric =>
      let metric :=
        {| ID := ID metric;
           Code := default (Code metric) (UpdateCode params);
           Name := default (Name metric) (UpdateName params);
           Unit := default (Unit metric) (UpdateUnit params);
           Alias := Alias metric;
           MetricRange := default (MetricRange metric) (UpdateRange params);
           CTime := CTime metric;
           MTime := MTime metric;
           DTime := DTime metric |} in
      let '(coll', metric) := metrics.UpdateMetric coll now metric in
      (coll', Ok metric)
  end.

(** [func (s *SensorService) DeleteMetric] *)
Definition DeleteMetric (coll : metrics.MetricCollection) (now : Z)
    (id : string) : metrics.MetricCollection * outcome Metric :=
  match metrics.GetMetric coll (metrics.by_id id) with
  | Err err => (coll, Err err)
  | Panic msg => (coll, Panic msg)
  | Ok metric => (metrics.DeleteMetric coll now id, Ok metric)
  end.

Section Service.
(** [math.Pow] and the calculator [s.calculator] of the service. *)
Variable Pow : float -> float -> float.
Variable calculator : HydraulicCalculator.

(** [func (s *SensorService) AddRecord] *)
Definition AddRecord (db : Database) (now : Z) (oid : N) (boxID : string)
    (record : Record) : Database * option error :=
  let record := applyInterpolation Pow calculator record in
  mongodb.AddRecord db now oid boxID record.

(** [func (s *SensorService) ImportRecord] *)
Definition ImportRecord (db : Database) (now : Z) (oid : N) (boxID : string)
    (record : Record) : Database * option error :=
  let record := applyInterpolation Pow calculator record in
  mongodb.ImportRecord db now oid boxID record.

End Service.

(** [func (s *SensorService) ListRecords] *)
Definition ListRecords (reg : ArrayType) (db : Database) (boxID : string)
    (query : option QueryRecord) : outcome RecordsResult :=
  mongodb.ListRecords reg db boxID query.

(** [func (s *SensorService) CountRecords] *)
Definition CountRecords (db : Database) (boxID : string)
    (query : option QueryRecord) : outcome Z :=
  mongodb.CountRecords db boxID query.

End SensorService.

(** ** A catalog of two metrics, used to illustrate the statements *)

Module catalog.
Import domain.

Definition level : Metric :=
  {| ID := "m1"; Code := "level"; Name := "Water level"; Unit := "m";
     Alias := None;
     MetricRange := [ {| RangeMin := 0; RangeMax := 10; RangeCode := "ok" |} ];
     CTime := 1000; MTime := 1000; DTime := None |}.

Definition flow : Metric :=
  {| ID := "m2"; Code := "flow"; Name := "Flow"; Unit := "m3/s";
     Alias := None; MetricRange := [];
     CTime := 2000; MTime := 2000; DTime := None |}.

Definition two_metrics : metrics.MetricCollection := [level; flow].

Definition rain : CreateMetricParams :=
  {| CreateAlias := None; CreateUnit := "mm"; CreateCode := "rain";
     CreateName := "Rain"; CreateRange := [] |}.

(** The body [{"range": []}] of an update. *)
Definition empty_range : UpdateMetricParams :=
  {| UpdateUnit := None; UpdateCode := None; UpdateName := None;
     UpdateRange := Some [] |}.

(** The body [{"code": code}] of an update. *)
Definition new_code (code : string) : UpdateMetricParams :=
  {| UpdateUnit := None; UpdateCode := Some code; UpdateName := None;
     UpdateRange := None |}.

End catalog.

(** ** UTF-8, as the loop [for _, char := range s] and the conversion
       [string(char)] use it

    A Go string is a sequence of bytes, here a [string] of Rocq. *)

Module utf8.

Definition RuneError : N := 65533.

Definition byte (c : ascii) : N := N_of_ascii c.

(** A continuation byte, 0x80 to 0xBF. *)
Definition cont (c : ascii) : bool := (128 <=? byte c)%N && (byte c <=? 191)%N.

Definition between (lo hi : N) (c : ascii) : bool :=
  (lo <=? byte c)%N && (byte c <=? hi)%N.

(** The runes [range s] yields: the code point of each well-formed
    sequence, and [RuneError] for each byte that starts none. *)
Fixpoint runes (s : string) : list N :=
  match s with
  | EmptyString => []
  | String c0 s1 =>
      let b0 := byte c0 in
      let invalid := RuneError :: runes s1 in
      if (b0 <? 128)%N then b0 :: runes s1
      else if between 194 223 c0 then
        match s1 with
        | String c1 s2 =>
            if cont c1
            then ((b0 mod 32) * 64 + byte c1 mod 64)%N :: runes s2
            else invalid
        | _ => invalid
        end
      else if between 224 239 c0 then
        match s1 with
        | String c1 (String c2 s3) =>
            if between (if (b0 =? 224)%N then 160 else 128)
                       (if (b0 =? 237)%N then 159 else 191) c1
               && cont c2
            then ((b0 mod 16) * 4096 + (byte c1 mod 64) * 64
                  + byte c2 mod 64)%N :: runes s3
            else invalid
        | _ => invalid
        end
      else if between 240 244 c0 then
        match s1 with
        | String c1 (String c2 (String c3 s4)) =>
            if between (if (b0 =? 240)%N then 144 else 128)
                       (if (b0 =? 244)%N then 143 else 191) c1
               && cont c2 && cont c3
            then ((b0 mod 8) * 262144 + (byte c1 mod 64) * 4096
                  + (byte c2 mod 64) * 64 + byte c3 mod 64)%N :: runes s4
            else invalid
        | _ => invalid
        end
      else invalid
  end.

Definition chr (n : N) : ascii := ascii_of_N n.

(** [string(r)] for a rune [r]: its UTF-8 encoding, that of [RuneError] for
    a surrogate and beyond the last code point. *)
Definition EncodeRune (r : N) : string :=
  let three (r : N) :=
    String (chr (224 + r / 4096))
      (String (chr (128 + r / 64 mod 64))
         (String (chr (128 + r mod 64)) EmptyString)) in
  if (r <=? 127)%N then String (chr r) EmptyString
  else if (r <=? 2047)%N then
    String (chr (192 + r / 64)) (String (chr (128 + r mod 64)) EmptyString)
  else if (1114111 <? r)%N || ((55296 <=? r)%N && (r <=? 57343)%N)
  then three RuneError
  else if (r <=? 65535)%N then three r
  else
    String (chr (240 + r / 262144))
      (String (chr (128 + r / 4096 mod 64))
         (String (chr (128 + r / 64 mod 64))
            (String (chr (128 + r mod 64)) EmptyString))).

End utf8.

(** ** package handler *)

Module handler.
Import domain mongo.

(** What a handler answers: [c.JSON(http.StatusOK, body)],
    [c.JSON(http.StatusBadRequest, gin.H{"error": msg})] or
    [c.JSON(http.StatusInternalServerError, gin.H{"error": err.Error()})]. *)
Inductive response (A : Type) : Type :=
| StatusOK (body : A)
| StatusBadRequest (msg : string)
| StatusInternalServerError (err : error).
Arguments StatusOK {A} body.
Arguments StatusBadRequest {A} msg.
Arguments StatusInternalServerError {A} err.

(** [func (h *SensorHandler) ListRecords(c *gin.Context)], from the parsed
    request on: [boxID] is [c.Param("id")], [page] and [pageSize] are what
    [strconv.Atoi] makes of the parameters [page] and [page_size], and [time]
    holds what [strconv.ParseInt] makes of [time_min] and [time_max] when
    both are given. *)
Definition ListRecords (reg : ArrayType) (db : Database) (boxID : string)
    (page pageSize : Z) (time : option (Z * Z))
    : outcome (response (PaginatedResponse (list Record) (gmap string Z))) :=
  if decide (boxID = "") then Ok (StatusBadRequest "id parameter is required")
  else
    let pagination := NewPagination page pageSize in
    let limit := GetLimit pagination in
    let skip := GetSkip pagination in
    let query :=
      {| Time := match time with Some (min, max) => [min; max] | None => [] end;
         Limit := Some limit;
         Skip := Some skip |} in
    match SensorService.ListRecords reg db boxID (Some query) with
    | Err err => Ok (StatusInternalServerError err)
    | Panic msg => Panic msg
    | Ok result =>
        let filterInfo : gmap string Z :=
          match Time query with
          | [t0; t1] => <["time_max" := t1]> {[ "time_min" := t0 ]}
          | _ => ∅
          end in
        body ← NewPaginatedResponse (Records result) (Page pagination)
                 (PageSize pagination) (Total result) filterInfo;
        Ok (StatusOK body)
    end.

(** The time of a row of [ExportRecords]:
    [timestamp := record.GetTimestamp(); if timestamp > 1e12 { timestamp = timestamp / 1000 }] *)
Definition export_timestamp (record : Record) : Z :=
  let timestamp := GetTimestamp record in
  if 1000000000000 <? timestamp then Z.quot timestamp 1000 else timestamp.

(** The body of the loop [for _, char := range s] of [splitString], on the
    variables [result] and [current]. *)
Definition split_step (sep : string) (st : list string * string) (char : N)
    : list string * string :=
  let '(result, current) := st in
  if String.eqb (utf8.EncodeRune char) sep
  then (result ++ [current], EmptyString)
  else (result, current +:+ utf8.EncodeRune char).

(** [func splitString(s, sep string) []string] *)
Definition splitString (s sep : string) : list string :=
  if String.eqb s "" then []
  else
    let '(result, current) :=
      foldl (split_step sep) ([], EmptyString) (utf8.runes s) in
    if negb (String.eqb current "") || (0 <? length result)%nat
    then result ++ [current]
    else result.

(** The bytes [trimString] removes: space, tab, line feed, carriage
    return. *)
Definition is_space (c : ascii) : bool :=
  (Ascii.eqb c " " || Ascii.eqb c "009" || Ascii.eqb c "010"
   || Ascii.eqb c "013")%char.

(** The loop [for start < end && (s[start] == ' ' || ...) { start++ }], on
    the bytes from [start] on. *)
Fixpoint skip_spaces (s : string) : string :=
  match s with
  | String c s' => if is_space c then skip_spaces s' else s
  | EmptyString => EmptyString
  end.

Definition reverse (s : string) : string :=
  string_of_list_ascii (rev (list_ascii_of_string s)).

(** [func trimString(s string) string]: [s[start:end]], where [start] is
    behind the spaces at the front and [end] before those at the back. *)
Definition trimString (s : string) : string :=
  reverse (skip_spaces (reverse (skip_spaces s))).

(** [func splitAndTrim(s, sep string) []string] *)
Definition splitAndTrim (s sep : string) : list string :=
  List.map trimString (splitString s sep).

(** The list [metrics] that [ReportByMetric] builds from the parameter
    [metrics]:
    [for _, m := range splitAndTrim(metricsStr, ",") { if m != "" { metrics = append(metrics, m) } }] *)
Definition request_metrics (metricsStr : string) : list string :=
  List.filter (fun m => negb (String.eqb m "")) (splitAndTrim metricsStr ",").

End handler.

(** ** What the single-partition queries are about

    The notions in which the further properties of the record queries are
    stated. *)

Module listing.
Import domain mongo mongodb merge.

(** The document a [$facet] stage with the facets [records] and [total]
    gives when the facet [records] holds [out] and [n] documents were
    counted. *)
Definition facet_doc (out : list Record) (n : nat) : Record :=
  <["records" := VArray (VDoc <$> out)]>
    (<["total" := VArray (VDoc <$> match n with
                                    | O => []
                                    | S _ => [ {[ "count" := int_value (Z.of_nat n) ]} ]
                                    end)]> ∅).

(** The query of a request for a time range, without skip and limit. *)
Definition range_query (time : option (Z * Z)) : option QueryRecord :=
  Some {| Time := match time with Some (min, max) => [min; max] | None => [] end;
          Limit := None;
          Skip := None |}.

(** The records on a page of the answer of the handler [ListRecords]; none
    when it answers with an error. *)
Definition page_records (reg : ArrayType) (db : Database) (boxID : string)
    (pageSize : Z) (time : option (Z * Z)) (page : Z) : list Record :=
  match handler.ListRecords reg db boxID page pageSize time with
  | Ok (handler.StatusOK body) => Data body
  | _ => []
  end.

(** The most recent record of a partition, tagged with its key; nothing for
    an empty partition. *)
Definition latest (db : Database) (boxID : string) : list Record :=
  tagged boxID <$>
    take 1 (sort_by (sort_le "_id" (-1))
              (collection db (getRecordCollection boxID))).

End listing.

(** ** What the string helpers are about

    The notions in which the properties of [splitString] and [trimString] are
    stated. *)

Module text.

(** The bytes of a string. *)
Definition bytes (s : string) : list ascii := list_ascii_of_string s.

(** A string of ASCII bytes only. *)
Definition ascii_only (s : string) : Prop :=
  Forall (fun c => (utf8.byte c < 128)%N) (bytes s).

(** The parts put together again with the separator between them, as
    [strings.Join] does. *)
Fixpoint join (sep : string) (parts : list string) : string :=
  match parts with
  | [] => EmptyString
  | [p] => p
  | p :: parts' => p +:+ sep +:+ join sep parts'
  end.

(** The string as its runes encode it: the string itself but for the bytes
    that are not UTF-8, each of which becomes the encoding of
    [utf8.RuneError]. *)
Definition reencoded (s : string) : string :=
  foldr (fun r acc => utf8.EncodeRune r +:+ acc) EmptyString (utf8.runes s).

(** The string has the byte [c]. *)
Definition has_byte (c : ascii) (s : string) : Prop := In c (bytes s).

(** No space at the front and none at the back. *)
Definition trimmed (s : string) : Prop :=
  match bytes s with
  | [] => True
  | c :: _ => handler.is_space c = false
  end /\
  match rev (bytes s) with
  | [] => True
  | c :: _ => handler.is_space c = false
  end.

End text.

(** * Part II: properties *)

(** ** The order of binary64

    [<] and [<=] on [float64] are a total preorder once NaN is set aside.
    The facts are read off the specification of the primitive comparisons
    over [spec_float]. *)

Module Float64Order.
Import Float64.

Lemma SFcompare_key (f1 f2 : spec_float) :
  SFcompare f1 f2 =
  match sfkey f1, sfkey f2 with
  | Some a, Some b => Some (lex3 a b)
  | _, _ => None
  end.
Proof.
  destruct f1 as [s1|s1| |s1 m1 e1], f2 as [s2|s2| |s2 m2 e2];
    try destruct s1; try destruct s2; simpl; try reflexivity.
  rewrite Z.compare_opp, (Z.compare_antisym e1 e2).
  destruct (e1 ?= e2); reflexivity.
Qed.

Lemma lex3_Lt a1 a2 a3 b1 b2 b3 :
  lex3 (a1, a2, a3) (b1, b2, b3) = Lt <->
  a1 < b1 \/ (a1 = b1 /\ (a2 < b2 \/ (a2 = b2 /\ a3 < b3))).
Proof.
  simpl.
  destruct (Z.compare_spec a1 b1), (Z.compare_spec a2 b2),
    (Z.compare_spec a3 b3); split; intros Hx; try reflexivity;
    try discriminate; lia.
Qed.

Lemma lex3_Lt_trans a b c : lex3 a b = Lt -> lex3 b c = Lt -> lex3 a c = Lt.
Proof.
  destruct a as [[a1 a2] a3], b as [[b1 b2] b3], c as [[c1 c2] c3].
  rewrite !lex3_Lt. lia.
Qed.

Lemma lex3_Eq a b : lex3 a b = Eq -> a = b.
Proof.
  destruct a as [[a1 a2] a3], b as [[b1 b2] b3]; simpl.
  destruct (Z.compare_spec a1 b1), (Z.compare_spec a2 b2),
    (Z.compare_spec a3 b3); try discriminate; intros _; congruence.
Qed.

Lemma lex3_refl a : lex3 a a = Eq.
Proof.
  destruct a as [[a1 a2] a3]; simpl. now rewrite !Z.compare_refl.
Qed.

Lemma lex3_antisym a b : lex3 b a = CompOpp (lex3 a b).
Proof.
  destruct a as [[a1 a2] a3], b as [[b1 b2] b3]; simpl.
  rewrite (Z.compare_antisym a1 b1), (Z.compare_antisym a2 b2),
    (Z.compare_antisym a3 b3).
  destruct (a1 ?= b1), (a2 ?= b2), (a3 ?= b3); reflexivity.
Qed.

(** The three comparisons read through the key. *)
Lemma flt_key a b :
  flt a b <->
  exists ka kb, sfkey (Prim2SF a) = Some ka /\ sfkey (Prim2SF b) = Some kb
                /\ lex3 ka kb = Lt.
Proof.
  unfold flt. rewrite FloatAxioms.ltb_spec. unfold SFltb. rewrite SFcompare_key.
  destruct (sfkey (Prim2SF a)) as [ka|], (sfkey (Prim2SF b)) as [kb|];
    split; try discriminate; try (intros (? & ? & ? & ? & ?); discriminate).
  - intros H. exists ka, kb. repeat split. now destruct (lex3 ka kb).
  - intros (? & ? & [= <-] & [= <-] & ->). reflexivity.
Qed.

Lemma fle_key a b :
  fle a b <->
  exists ka kb, sfkey (Prim2SF a) = Some ka /\ sfkey (Prim2SF b) = Some kb
                /\ lex3 ka kb <> Gt.
Proof.
  unfold fle. rewrite FloatAxioms.leb_spec. unfold SFleb. rewrite SFcompare_key.
  destruct (sfkey (Prim2SF a)) as [ka|], (sfkey (Prim2SF b)) as [kb|];
    split; try discriminate; try (intros (? & ? & ? & ? & ?); discriminate).
  - intros H. exists ka, kb. repeat split. now destruct (lex3 ka kb).
  - intros (? & ? & [= <-] & [= <-] & H). now destruct (lex3 ka kb).
Qed.

Lemma number_key a : number a <-> exists ka, sfkey (Prim2SF a) = Some ka.
Proof.
  unfold number. rewrite FloatAxioms.eqb_spec. unfold SFeqb. rewrite SFcompare_key.
  destruct (sfkey (Prim2SF a)) as [ka|]; split; try discriminate.
  - eauto.
  - intros _. now rewrite lex3_refl.
  - intros (? & ?). discriminate.
Qed.

Lemma flt_fle a b : flt a b -> fle a b.
Proof.
  rewrite flt_key, fle_key. intros (ka & kb & ? & ? & H).
  exists ka, kb. repeat split; try assumption. now rewrite H.
Qed.

Lemma flt_number_l a b : flt a b -> number a.
Proof. rewrite flt_key, number_key. intros (ka & ? & ? & _). eauto. Qed.

Lemma flt_number_r a b : flt a b -> number b.
Proof. rewrite flt_key, number_key. intros (? & kb & ? & ? & _). eauto. Qed.

Lemma fle_number_l a b : fle a b -> number a.
Proof. rewrite fle_key, number_key. intros (ka & ? & ? & _). eauto. Qed.

Lemma fle_number_r a b : fle a b -> number b.
Proof. rewrite fle_key, number_key. intros (? & kb & ? & ? & _). eauto. Qed.

Lemma fle_refl a : number a -> fle a a.
Proof.
  rewrite fle_key, number_key. intros (ka & H). exists ka, ka.
  repeat split; try assumption. now rewrite lex3_refl.
Qed.

(** Totality: two numbers that are not [a <= b] are [b < a]. *)
Lemma not_fle_flt a b :
  number a -> number b -> PrimFloat.leb a b = false -> flt b a.
Proof.
  rewrite !number_key, flt_key. intros (ka & Ha) (kb & Hb) H.
  exists kb, ka. repeat split; try assumption.
  rewrite FloatAxioms.leb_spec in H. unfold SFleb in H.
  rewrite SFcompare_key, Ha, Hb in H. rewrite lex3_antisym.
  now destruct (lex3 ka kb).
Qed.

Lemma flt_not_fle a b : flt a b -> PrimFloat.leb b a = false.
Proof.
  rewrite flt_key. intros (ka & kb & Ha & Hb & H).
  rewrite FloatAxioms.leb_spec. unfold SFleb. rewrite SFcompare_key, Ha, Hb.
  rewrite lex3_antisym, H. reflexivity.
Qed.

Lemma fle_not_flt a b : fle a b -> PrimFloat.ltb b a = false.
Proof.
  rewrite fle_key. intros (ka & kb & Ha & Hb & H).
  rewrite FloatAxioms.ltb_spec. unfold SFltb. rewrite SFcompare_key, Ha, Hb.
  rewrite lex3_antisym. now destruct (lex3 ka kb).
Qed.

Lemma not_flt_fle a b :
  number a -> number b -> PrimFloat.ltb a b = false -> fle b a.
Proof.
  rewrite !number_key, fle_key. intros (ka & Ha) (kb & Hb) H.
  exists kb, ka. repeat split; try assumption.
  rewrite FloatAxioms.ltb_spec in H. unfold SFltb in H.
  rewrite SFcompare_key, Ha, Hb in H. rewrite lex3_antisym.
  now destruct (lex3 ka kb).
Qed.

Lemma flt_trans a b c : flt a b -> flt b c -> flt a c.
Proof.
  rewrite !flt_key. intros (ka & kb & Ha & Hb & H1) (kb' & kc & Hb' & Hc & H2).
  rewrite Hb in Hb'. injection Hb' as <-.
  exists ka, kc. repeat split; try assumption. eapply lex3_Lt_trans; eassumption.
Qed.

Lemma flt_fle_trans a b c : flt a b -> fle b c -> flt a c.
Proof.
  rewrite !flt_key, fle_key.
  intros (ka & kb & Ha & Hb & H1) (kb' & kc & Hb' & Hc & H2).
  rewrite Hb in Hb'. injection Hb' as <-.
  exists ka, kc. repeat split; try assumption.
  destruct (lex3 kb kc) eqn:E; try congruence.
  - apply lex3_Eq in E. now subst.
  - eapply lex3_Lt_trans; eassumption.
Qed.

Lemma fle_flt_trans a b c : fle a b -> flt b c -> flt a c.
Proof.
  rewrite !flt_key, fle_key.
  intros (ka & kb & Ha & Hb & H1) (kb' & kc & Hb' & Hc & H2).
  rewrite Hb in Hb'. injection Hb' as <-.
  exists ka, kc. repeat split; try assumption.
  destruct (lex3 ka kb) eqn:E; try congruence.
  - apply lex3_Eq in E. now subst.
  - eapply lex3_Lt_trans; eassumption.
Qed.

Lemma fle_trans a b c : fle a b -> fle b c -> fle a c.
Proof.
  intros H1 H2.
  destruct (PrimFloat.ltb a b) eqn:E.
  - apply flt_fle. eapply flt_fle_trans; eassumption.
  - pose proof (fle_number_l _ _ H1) as Na.
    pose proof (fle_number_r _ _ H2) as Nc.
    destruct (PrimFloat.leb a c) eqn:E'; [assumption|].
    apply not_fle_flt in E'; try assumption.
    pose proof (flt_fle_trans _ _ _ E' H1) as Hcb.
    apply flt_not_fle in Hcb. unfold fle in H2. congruence.
Qed.

End Float64Order.

(** ** Curves *)

Module CurveFacts.
Import interpolation Float64 Float64Order.

Section Chains.
Context {F : Type} `{Num F}.
Implicit Types (pts : list (Point F)) (R : Point F -> Point F -> Prop).

Lemma last_nonempty pts (d d' : Point F) :
  pts <> [] -> List.last pts d = List.last pts d'.
Proof.
  induction pts as [|p [|q pts] IH]; intros Hne; try congruence.
  - reflexivity.
  - change (List.last (q :: pts) d = List.last (q :: pts) d').
    apply IH. discriminate.
Qed.

Lemma chain_tail R p pts : chain R (p :: pts) -> chain R pts.
Proof. destruct pts as [|q pts]; simpl; tauto. Qed.

Lemma chain_consecutive R pts :
  chain R pts <-> forall p1 p2, consecutive pts p1 p2 -> R p1 p2.
Proof.
  split.
  - intros Hc p1 p2 (l1 & l2 & ->). induction l1 as [|a l1 IH].
    + exact (proj1 Hc).
    + apply IH. eapply chain_tail. exact Hc.
  - induction pts as [|p [|q pts] IH]; intros Hall; simpl; try exact I.
    split.
    + apply Hall. now exists [], pts.
    + apply IH. intros p1 p2 (l1 & l2 & E). apply Hall.
      exists (p :: l1), l2. now rewrite E.
Qed.

Lemma consecutive_rev pts p1 p2 :
  consecutive (rev pts) p1 p2 -> consecutive pts p2 p1.
Proof.
  intros (l1 & l2 & E). exists (rev l2), (rev l1).
  rewrite <- (rev_involutive pts), E, rev_app_distr. simpl.
  now rewrite <- !app_assoc.
Qed.

Lemma chain_rev R pts :
  chain R pts -> chain (fun p q => R q p) (rev pts).
Proof.
  rewrite !chain_consecutive. intros Hall p1 p2 Hc.
  apply Hall. now apply consecutive_rev.
Qed.

Lemma insert_back_head less (p d : Point F) pts :
  hd d (insert_back less p pts) = p \/
  (exists e rest, pts = e :: rest /\ less p e = true /\
                  hd d (insert_back less p pts) = e).
Proof.
  destruct pts as [|e rest]; simpl; [now left|].
  destruct (less p e) eqn:E; [right | now left].
  now exists e, rest.
Qed.

Lemma insert_back_Permutation less (p : Point F) pts :
  Permutation (insert_back less p pts) (p :: pts).
Proof.
  induction pts as [|e rest IH]; simpl; [reflexivity|].
  destruct (less p e); [|reflexivity].
  rewrite IH. apply perm_swap.
Qed.

Lemma sort_Slice_Permutation less pts :
  Permutation (sort_Slice pts less) pts.
Proof.
  unfold sort_Slice. rewrite <- Permutation_rev.
  assert (G : forall acc,
    Permutation (foldl (fun rprefix p => insert_back less p rprefix) acc pts)
                (rev pts ++ acc)).
  { induction pts as [|p pts IH]; intros acc; simpl; [reflexivity|].
    rewrite IH, insert_back_Permutation, <- app_assoc. simpl.
    apply Permutation_app_head. reflexivity. }
  rewrite (G []), app_nil_r. symmetry. apply Permutation_rev.
Qed.

(** *** Sorting, over an arithmetic whose order is total on numbers *)

Section Order.
Variable num : F -> Prop.
Hypothesis leb_num : forall a b, nleb a b = true -> num a /\ num b.
Hypothesis leb_total :
  forall a b, num a -> num b -> nleb a b = false -> nleb b a = true.
Hypothesis ltb_leb : forall a b, nltb a b = true -> nleb a b = true.
Hypothesis not_ltb_leb :
  forall a b, num a -> num b -> nltb a b = false -> nleb b a = true.

Lemma insert_back_descending (p : Point F) pts :
  num (X p) -> Forall (fun q => num (X q)) pts ->
  descending pts -> descending (insert_back less_by_X p pts).
Proof.
  intros Np. induction pts as [|e rest IH]; intros Nall Hd; simpl; [exact I|].
  inversion Nall as [|? ? Ne Nrest]; subst.
  destruct (less_by_X p e) eqn:E.
  - assert (Hrest : descending (insert_back less_by_X p rest))
      by (apply IH; [assumption | eapply chain_tail; exact Hd]).
    destruct (insert_back less_by_X p rest) as [|h t] eqn:Eh; [exact I|].
    split; [|exact Hrest].
    destruct (insert_back_head less_by_X p e rest) as [Hh | (e' & r' & -> & _ & Hh)];
      rewrite Eh in Hh; simpl in Hh; subst h.
    + now apply ltb_leb.
    + exact (proj1 Hd).
  - split; [|exact Hd]. now apply not_ltb_leb.
Qed.

Lemma sort_Slice_ascending pts :
  Forall (fun q => num (X q)) pts -> ascending (sort_Slice pts less_by_X).
Proof.
  intros Nall. unfold sort_Slice.
  assert (G : forall acc,
    Forall (fun q => num (X q)) acc -> descending acc ->
    descending (foldl (fun rprefix p => insert_back less_by_X p rprefix) acc pts)).
  { induction Nall as [|p pts Np Npts IH]; intros acc Nacc Hacc; simpl;
      [assumption|].
    apply IH.
    - rewrite (insert_back_Permutation less_by_X p acc). now constructor.
    - now apply insert_back_descending. }
  apply (chain_rev (fun p q => nleb (X q) (X p) = true)).
  apply G; [constructor | exact I].
Qed.

(** *** The search *)

Lemma find_segment_spec pts (p0 : Point F) (x : F) :
  (2 <= length pts)%nat ->
  ascending pts ->
  num x ->
  nleb x (X (hd p0 pts)) = false ->
  nleb (X (List.last pts p0)) x = false ->
  exists p1 p2,
    consecutive pts p1 p2 /\
    nleb (X p1) x = true /\ nleb x (X p1) = false /\ nleb x (X p2) = true /\
    find_segment pts x = segment_value p1 p2 x.
Proof.
  revert p0.
  induction pts as [|p1 [|p2 rest] IH]; intros p0 Hlen Hasc Hx Hlo Hhi;
    simpl in Hlen; try lia.
  destruct Hasc as [H12 Hasc]. simpl in Hlo.
  destruct (leb_num _ _ H12) as [N1 N2].
  assert (L1 : nleb (X p1) x = true) by (apply leb_total; assumption).
  destruct (nleb x (X p2)) eqn:E2.
  - exists p1, p2. split; [exists [], rest; reflexivity|].
    repeat split; try assumption.
    simpl. now rewrite L1, E2.
  - destruct rest as [|p3 rest].
    + simpl in Hhi. apply leb_total in E2; try assumption. congruence.
    + destruct (IH p0) as (q1 & q2 & (l1 & l2 & Hc) & Hq); try assumption.
      * simpl. lia.
      * exists q1, q2. split.
        -- exists (p1 :: l1), l2. now rewrite Hc.
        -- change (find_segment (p1 :: p2 :: p3 :: rest) x)
             with (if nleb (X p1) x && nleb x (X p2)
                   then segment_value p1 p2 x
                   else find_segment (p2 :: p3 :: rest) x).
           now rewrite L1, E2.
Qed.

Lemma Interpolate_inside (c : Curve F) (p0 : Point F) (x : F) :
  (2 <= length (Points c))%nat ->
  ascending (Points c) ->
  num x ->
  nleb x (X (hd p0 (Points c))) = false ->
  nleb (X (List.last (Points c) p0)) x = false ->
  exists p1 p2,
    consecutive (Points c) p1 p2 /\
    nleb (X p1) x = true /\ nleb x (X p1) = false /\ nleb x (X p2) = true /\
    Interpolate c x = segment_value p1 p2 x.
Proof.
  intros Hlen Hasc Hx Hlo Hhi.
  destruct (find_segment_spec _ p0 x Hlen Hasc Hx Hlo Hhi)
    as (p1 & p2 & Hc & H1 & H2 & H3 & Hf).
  exists p1, p2. repeat split; try assumption.
  unfold Interpolate. destruct (Points c) as [|q0 [|q1 rest]] eqn:E;
    simpl in Hlen; try lia.
  simpl in Hlo. rewrite Hlo.
  replace (List.last (q0 :: q1 :: rest) q0)
    with (List.last (q0 :: q1 :: rest) p0)
    by (apply last_nonempty; discriminate).
  cbv zeta. rewrite Hhi. exact Hf.
Qed.

End Order.
End Chains.

(** *** The two arithmetics *)

Lemma float_leb_num (a b : float) :
  PrimFloat.leb a b = true -> number a /\ number b.
Proof.
  intros Hab. split; [eapply fle_number_l | eapply fle_number_r]; exact Hab.
Qed.

Lemma float_leb_total (a b : float) :
  number a -> number b -> PrimFloat.leb a b = false -> PrimFloat.leb b a = true.
Proof. intros Na Nb Hab. apply flt_fle. now apply not_fle_flt. Qed.

Lemma Q_leb_total (a b : Q) :
  True -> True -> Qle_bool a b = false -> Qle_bool b a = true.
Proof.
  intros _ _ Hab. apply Qle_bool_iff.
  destruct (Qlt_le_dec b a) as [Hlt|Hle].
  - now apply Qlt_le_weak.
  - apply Qle_bool_iff in Hle. congruence.
Qed.

End CurveFacts.

(** ** Pipelines *)

Module PipelineFacts.
Import domain mongo.

Lemma traverse_Ok {A B : Type} (f : A -> outcome B) (g : A -> B) (l : list A) :
  (forall a, In a l -> f a = Ok (g a)) -> traverse f l = Ok (List.map g l).
Proof.
  induction l as [|a l IH]; intros Hf; simpl; [reflexivity|].
  rewrite (Hf a) by now left. simpl.
  rewrite IH by (intros b Hb; apply Hf; now right). reflexivity.
Qed.

Lemma traverse_fmap {A B C : Type} (f : B -> outcome C) (g : A -> B)
    (l : list A) :
  traverse f (g <$> l) = traverse (fun a => f (g a)) l.
Proof.
  induction l as [|a l IH]; [reflexivity|].
  rewrite fmap_cons. cbn [traverse]. now rewrite IH.
Qed.

Lemma run_app (p q : list stage) (db : Database) (docs : list Record) :
  run (p ++ q) db docs = docs' ← run p db docs; run q db docs'.
Proof.
  revert docs. induction p as [|s p IH]; intros docs; simpl; [reflexivity|].
  destruct (s db docs) as [docs'| |]; simpl; [apply IH | reflexivity ..].
Qed.

Lemma addFields_lit (name : string) (v : value) (db : Database)
    (docs : list Record) :
  addFields name (e_lit v) db docs = Ok (List.map (insert name v) docs).
Proof. unfold addFields. now apply traverse_Ok. Qed.

Lemma cursor_All_BsonA (docs : list Record) : cursor_All BsonA docs = docs.
Proof.
  unfold cursor_All. induction docs as [|d docs IH]; [reflexivity|].
  rewrite fmap_cons, IH. f_equal. exact (map_fmap_id d).
Qed.

Lemma omap_VDoc (l : list Record) :
  omap (fun item => if item is VDoc record then Some record else None)
       (VDoc <$> l) = l.
Proof.
  induction l as [|d l IH]; [reflexivity|].
  rewrite fmap_cons. cbn [omap list_omap]. f_equal. exact IH.
Qed.

(** *** The order of BSON values is total *)

Lemma numkey_compare_antisym (a b : numkey) :
  numkey_compare b a = CompOpp (numkey_compare a b).
Proof.
  destruct a, b; simpl; try reflexivity.
  symmetry. apply Qcompare_antisym.
Qed.

Lemma bool_compare_antisym (x y : bool) :
  Bool.compare y x = CompOpp (Bool.compare x y).
Proof. now destruct x, y. Qed.

#[local] Arguments numkey_compare : simpl never.

Lemma bson_compare_antisym (a b : value) :
  bson_compare b a = CompOpp (bson_compare a b).
Proof.
  destruct a, b; unfold bson_compare; simpl; try reflexivity;
    try apply numkey_compare_antisym;
    try apply Z.compare_antisym.
  - apply String.compare_antisym.
  - apply bool_compare_antisym.
  - apply N.compare_antisym.
Qed.

Lemma sort_le_total (name : string) (dir : Z) (a b : Record) :
  dir <> 0 -> sort_le name dir a b = false -> sort_le name dir b a = true.
Proof.
  unfold sort_le. rewrite (bson_compare_antisym (sort_key name a)).
  destruct (bson_compare (sort_key name a) (sort_key name b)),
    (Z.ltb_spec 0 dir), (Z.ltb_spec dir 0); simpl; try congruence; lia.
Qed.

(** *** Insertion sort *)

Section Sort.
Context {A : Type}.
Variable le : A -> A -> bool.
Hypothesis le_total : forall a b, le a b = false -> le b a = true.

Lemma insert_sorted_Permutation (d : A) (l : list A) :
  Permutation (insert_sorted le d l) (d :: l).
Proof.
  induction l as [|e l IH]; simpl; [reflexivity|].
  destruct (le d e); [reflexivity|].
  rewrite IH. apply perm_swap.
Qed.

Lemma sort_by_Permutation (l : list A) : Permutation (sort_by le l) l.
Proof.
  induction l as [|d l IH]; simpl; [reflexivity|].
  rewrite insert_sorted_Permutation. now constructor.
Qed.

Lemma insert_sorted_Sorted (d : A) (l : list A) :
  Sorted (fun a b => le a b = true) l ->
  Sorted (fun a b => le a b = true) (insert_sorted le d l).
Proof.
  induction l as [|e l IH]; intros Hs; simpl.
  - repeat constructor.
  - destruct (le d e) eqn:E.
    + constructor; [assumption | now constructor].
    + inversion Hs as [|? ? Hl Hhd]; subst.
      constructor; [now apply IH|].
      destruct l as [|e' l]; simpl.
      * constructor. now apply le_total.
      * destruct (le d e'); constructor.
        -- now apply le_total.
        -- now inversion Hhd.
Qed.

Lemma sort_by_Sorted (l : list A) :
  Sorted (fun a b => le a b = true) (sort_by le l).
Proof.
  induction l as [|d l IH]; simpl; [constructor|].
  now apply insert_sorted_Sorted.
Qed.

Lemma insert_sorted_map {B : Type} (f : A -> B) (le' : B -> B -> bool)
    (d : A) (l : list A) :
  (forall a b, le' (f a) (f b) = le a b) ->
  insert_sorted le' (f d) (List.map f l) = List.map f (insert_sorted le d l).
Proof.
  intros Hf. induction l as [|e l IH]; simpl; [reflexivity|].
  rewrite Hf. destruct (le d e); simpl; [reflexivity | now rewrite IH].
Qed.

Lemma sort_by_map {B : Type} (f : A -> B) (le' : B -> B -> bool) (l : list A) :
  (forall a b, le' (f a) (f b) = le a b) ->
  sort_by le' (List.map f l) = List.map f (sort_by le l).
Proof.
  intros Hf. induction l as [|d l IH]; simpl; [reflexivity|].
  rewrite IH. now apply insert_sorted_map.
Qed.

End Sort.

Lemma Sorted_impl {A : Type} (R S : A -> A -> Prop) (l : list A) :
  (forall a b, R a b -> S a b) -> Sorted R l -> Sorted S l.
Proof.
  intros HRS. induction 1 as [|a l Hl IH Hhd]; constructor; [assumption|].
  destruct Hhd; constructor. now apply HRS.
Qed.

End PipelineFacts.

(** ** Rollups *)

Module RollupFacts.
Import domain mongo mongodb rollup PipelineFacts Float64 Float64Order.

(** *** The statistics of one key *)

Lemma add_value_same (st : stats) (key : string) (f : float) :
  key_state (add_value st key f) key = step (key_state st key) f.
Proof.
  unfold key_state, add_value, step.
  destruct (metricMins st !! key) as [mn|] eqn:Emn; simpl.
  - rewrite !lookup_insert_eq.
    destruct (PrimFloat.ltb f mn), (PrimFloat.ltb _ f);
      rewrite ?lookup_insert_eq, ?Emn; reflexivity.
  - now rewrite !lookup_insert_eq.
Qed.

Lemma add_value_other (st : stats) (k key : string) (f : float) :
  k <> key -> key_state (add_value st k f) key = key_state st key.
Proof.
  intros Hne. unfold key_state, add_value.
  destruct (metricMins st !! k) as [mn|]; simpl.
  - destruct (PrimFloat.ltb f mn), (PrimFloat.ltb _ f);
      now rewrite ?lookup_insert_ne by assumption.
  - now rewrite !lookup_insert_ne by assumption.
Qed.

Lemma visit_record_key (st : stats) (r : Record) (key : string) :
  ~ reserved key ->
  key_state (visit_record st r) key
  = match r !! key with
    | Some (VFloat64 f) => step (key_state st key) f
    | _ => key_state st key
    end.
Proof.
  intros Hres. unfold visit_record.
  apply (map_fold_weak_ind
           (fun st' (m : Record) =>
              key_state st' key
              = match m !! key with
                | Some (VFloat64 f) => step (key_state st key) f
                | _ => key_state st key
                end)).
  - now rewrite lookup_empty.
  - intros i x m st' Hi IH. destruct (decide (i = key)) as [->|Hne].
    + rewrite lookup_insert_eq. rewrite Hi in IH.
      unfold visit_field. destruct (decide _) as [Hr|_]; [now destruct Hres|].
      destruct x; try exact IH. now rewrite add_value_same, IH.
    + rewrite lookup_insert_ne by assumption. rewrite <- IH.
      unfold visit_field. destruct (decide _); [reflexivity|].
      destruct x; try reflexivity. now apply add_value_other.
Qed.

Lemma visit_data_key (records : list Record) (key : string) (st : stats) :
  ~ reserved key ->
  key_state
    (foldl (fun st item =>
              if item is VDoc record then visit_record st record else st)
           st (VDoc <$> records)) key
  = foldl step (key_state st key) (field_values key records).
Proof.
  intros Hres. revert st.
  induction records as [|r records IH]; intros st; [reflexivity|].
  rewrite fmap_cons. cbn [foldl]. rewrite IH, visit_record_key by assumption.
  unfold field_values. cbn [omap list_omap].
  destruct (r !! key) as [[]|]; reflexivity.
Qed.

Lemma foldl_step_Some (s : float) (c : Z) (mn mx : float) (vs : list float) :
  foldl step (Some s, Some c, Some mn, Some mx) vs
  = (Some (foldl PrimFloat.add s vs),
     Some (c + Z.of_nat (length vs)),
     Some (foldl (fun m f => if PrimFloat.ltb f m then f else m) mn vs),
     Some (foldl (fun m f => if PrimFloat.ltb m f then f else m) mx vs)).
Proof.
  revert s c mn mx. induction vs as [|v vs IH]; intros s c mn mx.
  - simpl. now rewrite Z.add_0_r.
  - cbn [foldl step]. simpl default.
    replace (c + Z.of_nat (length (v :: vs)))
      with (c + 1 + Z.of_nat (length vs)) by (simpl length; lia).
    destruct (PrimFloat.ltb v mn), (PrimFloat.ltb mx v); now rewrite IH.
Qed.

Lemma foldl_step_values (vs : list float) :
  foldl step (None, None, None, None) vs
  = match vs with
    | [] => (None, None, None, None)
    | _ => (Some (fsum vs), Some (Z.of_nat (length vs)), fmin vs, fmax vs)
    end.
Proof.
  destruct vs as [|v vs]; [reflexivity|].
  cbn [foldl step]. simpl default. rewrite foldl_step_Some.
  unfold fsum, fmin, fmax. cbn [foldl].
  replace (0 + 1 + Z.of_nat (length vs)) with (Z.of_nat (length (v :: vs)))
    by (simpl length; lia).
  reflexivity.
Qed.

(** The minimum and the maximum the loops form are a least and a greatest
    element when all the values are numbers. *)
Lemma fmin_least (vs : list float) (m : float) :
  Forall number vs -> fmin vs = Some m -> In m vs /\ Forall (fle m) vs.
Proof.
  destruct vs as [|v vs]; [discriminate|].
  intros Hnum. inversion Hnum as [|? ? Nv Nvs]; subst.
  unfold fmin. intros [= <-].
  assert (G : forall m0 : float, number m0 ->
    let r := foldl (fun m f => if PrimFloat.ltb f m then f else m) m0 vs in
    (r = m0 \/ In r vs) /\ fle r m0 /\ Forall (fle r) vs).
  { clear Hnum Nv. induction Nvs as [|w vs Nw Nvs IH]; intros m0 Nm0; cbn [foldl].
    - cbv zeta. split; [now left|]. split; [now apply fle_refl | constructor].
    - cbv zeta. destruct (PrimFloat.ltb w m0) eqn:E.
      + destruct (IH w Nw) as (Hin & Hle & Hall).
        split; [right; destruct Hin as [->|Hin]; [now left | now right]|].
        split; [eapply fle_trans; [exact Hle | now apply flt_fle]|].
        constructor; assumption.
      + destruct (IH m0 Nm0) as (Hin & Hle & Hall).
        split; [destruct Hin as [->|Hin]; [now left | right; now right]|].
        split; [assumption|].
        constructor; [|assumption].
        eapply fle_trans; [exact Hle|]. now apply not_flt_fle. }
  destruct (G v Nv) as (Hin & Hle & Hall).
  split.
  - destruct Hin as [->|Hin]; [now left | now right].
  - constructor; assumption.
Qed.

Lemma fmax_greatest (vs : list float) (m : float) :
  Forall number vs -> fmax vs = Some m ->
  In m vs /\ Forall (fun v => fle v m) vs.
Proof.
  destruct vs as [|v vs]; [discriminate|].
  intros Hnum. inversion Hnum as [|? ? Nv Nvs]; subst.
  unfold fmax. intros [= <-].
  assert (G : forall m0 : float, number m0 ->
    let r := foldl (fun m f => if PrimFloat.ltb m f then f else m) m0 vs in
    (r = m0 \/ In r vs) /\ fle m0 r /\ Forall (fun v => fle v r) vs).
  { clear Hnum Nv. induction Nvs as [|w vs Nw Nvs IH]; intros m0 Nm0; cbn [foldl].
    - cbv zeta. split; [now left|]. split; [now apply fle_refl | constructor].
    - cbv zeta. destruct (PrimFloat.ltb m0 w) eqn:E.
      + destruct (IH w Nw) as (Hin & Hle & Hall).
        split; [right; destruct Hin as [->|Hin]; [now left | now right]|].
        split; [eapply fle_trans; [apply flt_fle; exact E | exact Hle]|].
        constructor; assumption.
      + destruct (IH m0 Nm0) as (Hin & Hle & Hall).
        split; [destruct Hin as [->|Hin]; [now left | right; now right]|].
        split; [assumption|].
        constructor; [|assumption].
        eapply fle_trans; [|exact Hle]. now apply not_flt_fle. }
  destruct (G v Nv) as (Hin & Hle & Hall).
  split.
  - destruct Hin as [->|Hin]; [now left | now right].
  - constructor; assumption.
Qed.

Lemma field_values_all (key : string) (l : list Record) :
  Forall (fun d : Record => exists f, d !! key = Some (VFloat64 f)) l ->
  length (field_values key l) = length l.
Proof.
  induction 1 as [|d l (f & Hf) _ IH]; [reflexivity|].
  unfold field_values. cbn [omap list_omap]. rewrite Hf. simpl.
  f_equal. exact IH.
Qed.

End RollupFacts.

(** ** Groups *)

Module GroupFacts.
Import domain mongo mongodb PipelineFacts.

Lemma omap_id_Some {A B : Type} (f : A -> B) (l : list A) :
  omap id (List.map (fun a => Some (f a)) l) = f <$> l.
Proof.
  induction l as [|a l IH]; [reflexivity|].
  simpl. f_equal. exact IH.
Qed.

Section Groups.
Context {K : Type}.
Variable keq : K -> K -> bool.

Lemma members_of_In (keyed : list (K * Record)) (k : K) (d : Record) :
  In d (members_of keq keyed k) -> In d keyed.*2.
Proof.
  unfold members_of. induction keyed as [|kd keyed IH]; simpl; [tauto|].
  destruct (keq k kd.1); simpl; tauto.
Qed.

Lemma group_run (kf : Record -> K) (render : K -> value)
    (ef : Record -> value) (e : expr) (db : Database) (docs : list Record) :
  (forall d, In d docs -> e d = Ok (Some (ef d))) ->
  group (fun d => Ok (kf d)) keq render
        [ ("count", acc_count); ("data", acc_push e) ] db docs
  = Ok (List.map
          (fun k =>
             let members :=
               members_of keq (List.map (fun d => (kf d, d)) docs) k in
             <["_id" := render k]>
               (<["count" := int_value (Z.of_nat (length members))]>
                  (<["data" := VArray (ef <$> members)]> ∅)))
          (group_keys keq (kf <$> docs))).
Proof.
  intros He. unfold group.
  rewrite (traverse_Ok _ (fun d => (kf d, d))) by reflexivity.
  simpl mbind.
  assert (H1 : (List.map (fun d => (kf d, d)) docs).*1 = kf <$> docs).
  { clear He. induction docs as [|d docs IH]; [reflexivity|].
    cbn [List.map]. rewrite !fmap_cons. simpl. f_equal. exact IH. }
  assert (H2 : (List.map (fun d => (kf d, d)) docs).*2 = docs).
  { clear He H1. induction docs as [|d docs IH]; [reflexivity|].
    cbn [List.map]. rewrite !fmap_cons. simpl. f_equal. exact IH. }
  rewrite H1.
  apply traverse_Ok. intros k _. cbn [traverse eval_acc fst snd]. simpl mbind.
  rewrite (traverse_Ok _ (fun d => Some (ef d))).
  - simpl mbind. rewrite omap_id_Some. reflexivity.
  - intros d Hin. apply He. apply members_of_In in Hin. now rewrite H2 in Hin.
Qed.

Lemma group_keys_In (ks : list K) (k : K) :
  In k (group_keys keq ks) -> In k ks.
Proof.
  revert k. induction ks as [|a ks IH]; intros k; simpl; [tauto|].
  intros [->|Hin]; [now left|]. right. apply IH.
  apply filter_In in Hin. tauto.
Qed.

End Groups.

Lemma group_keys_map {A K : Type} (f : A -> K) (keqA : A -> A -> bool)
    (keq : K -> K -> bool) (l : list A) :
  (forall a b, keq (f a) (f b) = keqA a b) ->
  group_keys keq (f <$> l) = f <$> group_keys keqA l.
Proof.
  intros Hf. induction l as [|a l IH]; [reflexivity|].
  rewrite fmap_cons. cbn [group_keys]. rewrite IH, fmap_cons. f_equal.
  change (f <$> group_keys keqA l) with (List.map f (group_keys keqA l)).
  rewrite filter_map_swap. f_equal.
  apply filter_ext. intros b. now rewrite Hf.
Qed.

Lemma members_of_map {A K : Type} (f : A -> K) (g : Record -> A)
    (h : Record -> Record) (keqA : A -> A -> bool) (keq : K -> K -> bool)
    (l : list Record) (a : A) :
  (forall a b, keq (f a) (f b) = keqA a b) ->
  members_of keq (List.map (fun d => (f (g d), h d)) l) (f a)
  = h <$> List.filter (fun d => keqA a (g d)) l.
Proof.
  intros Hf. unfold members_of.
  induction l as [|d l IH]; [reflexivity|].
  cbn [List.map List.filter fst]. rewrite Hf.
  destruct (keqA a (g d)); [|exact IH].
  rewrite !fmap_cons. simpl. f_equal. exact IH.
Qed.

(** With an equality test, the keys of the groups are the keys that occur,
    each once. *)
Section Leibniz.
Context {K : Type}.
Variable keq : K -> K -> bool.
Hypothesis keq_eq : forall a b, keq a b = true <-> a = b.

Lemma group_keys_In_iff (ks : list K) (k : K) :
  In k (group_keys keq ks) <-> In k ks.
Proof.
  split; [apply group_keys_In|].
  revert k. induction ks as [|a ks IH]; intros k; simpl; [tauto|].
  intros [->|Hin]; [now left|].
  destruct (keq a k) eqn:E.
  - apply keq_eq in E. now left.
  - right. apply filter_In. split; [now apply IH | now rewrite E].
Qed.

Lemma group_keys_NoDup (ks : list K) : List.NoDup (group_keys keq ks).
Proof.
  induction ks as [|a ks IH]; simpl; constructor.
  - intros Hin. apply filter_In in Hin. destruct Hin as [_ Hne].
    assert (keq a a = true) by now apply keq_eq.
    destruct (keq a a); discriminate.
  - now apply List.NoDup_filter.
Qed.

End Leibniz.

Lemma Sorted_NoDup_strict {A : Type} (R : A -> A -> Prop) (l : list A) :
  Sorted R l -> List.NoDup l -> Sorted (fun a b => R a b /\ a <> b) l.
Proof.
  induction 1 as [|a l Hl IH Hhd]; intros Hnd; constructor.
  - apply IH. now inversion Hnd.
  - destruct Hhd as [|b l Hab]; constructor. split; [assumption|].
    intros ->. inversion Hnd as [|? ? Hnin _]; subst. apply Hnin. now left.
Qed.

End GroupFacts.

(** ** The daily rollup *)

Module DailyFacts.
Import domain mongo mongodb rollup PipelineFacts RollupFacts GroupFacts.
Import Float64 Float64Order.

Lemma same_value_VString (a b : string) :
  same_value (VString a) (VString b) = String.eqb a b.
Proof.
  unfold same_value, bson_compare. simpl.
  destruct (String.eqb_spec a b) as [->|Hne].
  - assert (H : String.compare b b = Eq).
    { pose proof (String.compare_antisym b b) as Ha.
      destruct (String.compare b b); try reflexivity; discriminate. }
    now rewrite H.
  - destruct (String.compare a b) eqn:E; try reflexivity.
    apply String.compare_eq_iff in E. contradiction.
Qed.

Lemma date_le_total (a b : string) : date_le a b = false -> date_le b a = true.
Proof.
  unfold date_le. rewrite (String.compare_antisym a b).
  destruct (String.compare b a); simpl; congruence.
Qed.

Lemma record_date_expr (d : Record) (s : string) :
  record_date d = Some s -> date_expr d = Ok (Some (VString s)).
Proof.
  unfold record_date. destruct (date_expr d) as [[[]|]| |]; congruence.
Qed.

Lemma set_date (d : Record) :
  is_Some (record_date d) ->
  set_field "date" date_expr d = Ok (with_date d).
Proof.
  intros [s Hs]. unfold set_field, with_date, date_str.
  rewrite (record_date_expr d s Hs), Hs. reflexivity.
Qed.

Lemma daily_group_key (matched : list Record) (a b : string) :
  sort_le "_id" 1 (daily_group matched a) (daily_group matched b)
  = date_le a b.
Proof.
  unfold sort_le, sort_key, daily_group, date_le.
  rewrite !lookup_insert_eq. simpl.
  unfold bson_compare. simpl. now destruct (String.compare a b).
Qed.

(** What the pipeline of [ReportRecords] gives: the groups of the dates that
    occur, in ascending order of date. *)
Lemma daily_pipeline (db : Database) (boxID : string)
    (query : option QueryRecord) :
  let matched := daily_matches db query boxID in
  Forall (fun d => is_Some (record_date d)) matched ->
  run [ match_stage (time_filter {[ "_id" := [Exists true] ]} query);
        addFields "date" date_expr;
        group date_key same_value id [
          ("count", acc_count);
          ("data", acc_push e_root) ];
        sort_stage "_id" 1 ]
      db (collection db (getRecordCollection boxID))
  = Ok (daily_group matched <$> dates_of matched).
Proof.
  intros matched Hdated. cbn [run]. unfold match_stage at 1. simpl mbind.
  fold (daily_matches db query boxID). fold matched.
  unfold addFields.
  rewrite (traverse_Ok _ with_date).
  2:{ intros d Hin. apply set_date.
      exact (proj1 (List.Forall_forall _ _) Hdated d Hin). }
  simpl mbind. unfold date_key.
  rewrite (group_run same_value (fun d => default VNull (d !! "date")) id
             VDoc e_root) by reflexivity.
  simpl mbind. unfold sort_stage. f_equal.
  assert (Hk : (fun d : Record => default VNull (d !! "date"))
                 <$> List.map with_date matched
               = VString <$> (date_str <$> matched)).
  { clear Hdated. induction matched as [|d l IH]; [reflexivity|].
    cbn [List.map]. rewrite !fmap_cons. f_equal; [|exact IH].
    unfold with_date. now rewrite lookup_insert_eq. }
  rewrite Hk.
  rewrite (group_keys_map VString String.eqb same_value)
    by apply same_value_VString.
  assert (Hm : forall s : string,
    members_of same_value
      (List.map (fun d : Record => (default VNull (d !! "date"), d))
                (List.map with_date matched)) (VString s)
    = with_date <$> bucket s matched).
  { intros s. rewrite List.map_map.
    rewrite (List.map_ext _ (fun d => (VString (date_str d), with_date d))).
    - apply (members_of_map VString date_str with_date String.eqb same_value).
      apply same_value_VString.
    - intros d. unfold with_date at 1. now rewrite lookup_insert_eq. }
  unfold dates_of.
  change (daily_group matched <$> sort_by date_le
            (group_keys String.eqb (date_str <$> matched)))
    with (List.map (daily_group matched)
            (sort_by date_le (group_keys String.eqb (date_str <$> matched)))).
  rewrite <- (sort_by_map date_le (daily_group matched) (sort_le "_id" 1))
    by apply daily_group_key.
  f_equal.
  change (VString <$> group_keys String.eqb (date_str <$> matched))
    with (List.map VString (group_keys String.eqb (date_str <$> matched))).
  rewrite List.map_map. apply List.map_ext. intros s.
  cbv zeta. rewrite Hm, length_fmap. reflexivity.
Qed.

End DailyFacts.

Module DailyReportFacts.
Import domain mongo mongodb rollup PipelineFacts RollupFacts GroupFacts.
Import DailyFacts Float64 Float64Order.

Lemma int_value_int32 (n : Z) :
  0 <= n <= Conv.max_int32 -> int_value n = VInt32 n.
Proof.
  intros Hn. unfold int_value.
  destruct (Z.leb_spec Conv.min_int32 n); [|unfold Conv.min_int32 in *; lia].
  destruct (Z.leb_spec n Conv.max_int32); [reflexivity | lia].
Qed.

Lemma int_value_int32_range (n : Z) :
  Conv.min_int32 <= n <= Conv.max_int32 -> int_value n = VInt32 n.
Proof.
  intros Hn. unfold int_value.
  destruct (Z.leb_spec Conv.min_int32 n); [|lia].
  destruct (Z.leb_spec n Conv.max_int32); [reflexivity | lia].
Qed.

Lemma as_slices_docs (l : list Record) :
  List.map as_slices (VDoc <$> l)
  = VDoc <$> ((fun d : Record => as_slices <$> d) <$> l).
Proof.
  induction l as [|d l IH]; [reflexivity|].
  rewrite !fmap_cons.
  change (List.map as_slices (VDoc d :: (VDoc <$> l)))
    with (as_slices (VDoc d) :: List.map as_slices (VDoc <$> l)).
  f_equal. exact IH.
Qed.

Lemma as_slices_float (x : option value) :
  (if as_slices <$> x is Some (VFloat64 f) then Some f else None)
  = (if x is Some (VFloat64 f) then Some f else None).
Proof. now destruct x as [[]|]. Qed.

Lemma field_values_as_slices (key : string) (l : list Record) :
  field_values key ((fun d : Record => as_slices <$> d) <$> l)
  = field_values key l.
Proof.
  unfold field_values.
  induction l as [|d l IH]; [reflexivity|].
  rewrite fmap_cons. cbn [omap list_omap].
  rewrite lookup_fmap, as_slices_float, IH. reflexivity.
Qed.

Lemma field_values_same (key : string) (h : Record -> Record)
    (l : list Record) :
  (forall d, h d !! key = d !! key) ->
  field_values key (h <$> l) = field_values key l.
Proof.
  intros Hh. unfold field_values.
  induction l as [|d l IH]; [reflexivity|].
  rewrite fmap_cons. cbn [omap list_omap].
  rewrite Hh, IH. reflexivity.
Qed.

Lemma bucket_length (s : string) (l : list Record) :
  (length (bucket s l) <= length l)%nat.
Proof.
  unfold bucket. induction l as [|d l IH]; simpl; [lia|].
  destruct (String.eqb s (date_str d)); simpl; lia.
Qed.

(** The statistics [ReportRecords] has gathered for a key that is not
    reserved, after the records of a group. *)
Lemma visit_data_values (h : Record -> Record) (l : list Record)
    (key : string) :
  ~ reserved key ->
  (forall d, h d !! key = d !! key) ->
  key_state
    (visit_data (List.map as_slices (VDoc <$> (h <$> l)))) key
  = match field_values key l with
    | [] => (None, None, None, None)
    | vs => (Some (fsum vs), Some (Z.of_nat (length vs)), fmin vs, fmax vs)
    end.
Proof.
  intros Hres Hh. unfold visit_data.
  rewrite as_slices_docs, visit_data_key by assumption.
  rewrite field_values_as_slices, (field_values_same key h l Hh).
  change (key_state no_stats key) with
    ((∅ : gmap string float) !! key, (∅ : gmap string Z) !! key,
     (∅ : gmap string float) !! key, (∅ : gmap string float) !! key).
  rewrite !lookup_empty. rewrite foldl_step_values.
  now destruct (field_values key l).
Qed.

(** The row [ReportRecords] makes of the group of a date, when the array of
    the group is decoded as a slice. *)
Lemma daily_report_group (matched : list Record) (s : string) :
  Z.of_nat (length matched) <= Conv.max_int32 ->
  exists r : DailyReport,
    daily_report (decode InterfaceSlice <$> daily_group matched s) = Ok r /\
    Date r = s /\
    Count r = Z.of_nat (length (bucket s matched)) /\
    forall key : string,
      ~ reserved key ->
      Avg r !! key
      = match field_values key (bucket s matched) with
        | [] => None
        | vs => Some (RoundValue
                        (fsum vs / Conv.float64_of_int (Z.of_nat (length vs))))
        end /\
      Min r !! key = RoundValue <$> fmin (field_values key (bucket s matched)) /\
      Max r !! key = RoundValue <$> fmax (field_values key (bucket s matched)).
Proof.
  intros Hfit. unfold daily_group.
  rewrite int_value_int32 by (pose proof (bucket_length s matched); lia).
  rewrite !fmap_insert, fmap_empty. cbn [decode as_slices].
  unfold daily_report.
  rewrite lookup_insert_eq.
  rewrite (lookup_insert_ne _ "_id" "count") by discriminate.
  rewrite lookup_insert_eq.
  rewrite (lookup_insert_ne _ "_id" "data") by discriminate.
  rewrite (lookup_insert_ne _ "count" "data") by discriminate.
  rewrite lookup_insert_eq.
  cbn [assert_string assert_int32 assert_slice]. simpl mbind.
  eexists. split; [reflexivity|]. cbn [Date Count Avg Min Max].
  split; [reflexivity|]. split; [reflexivity|].
  intros key Hres.
  assert (Hh : forall d : Record, with_date d !! key = d !! key).
  { intros d. unfold with_date. apply lookup_insert_ne.
    intros <-. apply Hres. right. now right. }
  pose proof (visit_data_values with_date (bucket s matched) key Hres Hh)
    as Hst.
  unfold key_state in Hst.
  rewrite map_lookup_imap, !lookup_fmap.
  destruct (field_values key (bucket s matched)) as [|v vs] eqn:Ev;
    injection Hst as Hs Hc Hmn Hmx; rewrite Hs, Hc, Hmn, Hmx.
  - repeat split; reflexivity.
  - cbn [mbind option_bind default fmap option_fmap option_map].
    replace (0 <? Z.of_nat (length (v :: vs))) with true
      by (symmetry; apply Z.ltb_lt; simpl length; lia).
    repeat split; reflexivity.
Qed.

Lemma traverse_exists {A B : Type} (f : A -> outcome B) (P : A -> B -> Prop)
    (l : list A) :
  (forall a, In a l -> exists b, f a = Ok b /\ P a b) ->
  exists bs, traverse f l = Ok bs /\ Forall2 P l bs.
Proof.
  induction l as [|a l IH]; intros Hf.
  - exists []. split; [reflexivity | constructor].
  - destruct (Hf a (or_introl eq_refl)) as (b & Hb & Pb).
    destruct IH as (bs & Hbs & Pbs); [intros x Hx; apply Hf; now right|].
    exists (b :: bs). split; [|now constructor].
    cbn [traverse]. rewrite Hb. simpl mbind. rewrite Hbs. reflexivity.
Qed.

(** The dates of a list of records are in strictly ascending order, and they
    are the dates that occur. *)
Lemma dates_of_ascending (matched : list Record) :
  Sorted (fun a b => String.compare a b = Lt) (dates_of matched).
Proof.
  unfold dates_of.
  eapply Sorted_impl;
    [|apply Sorted_NoDup_strict;
       [apply (sort_by_Sorted date_le date_le_total)|]].
  - intros a b [Hle Hne]. cbv beta in Hle. unfold date_le in Hle.
    destruct (String.compare a b) eqn:E; try reflexivity; try discriminate.
    apply String.compare_eq_iff in E. contradiction.
  - eapply Permutation_NoDup;
      [symmetry; apply sort_by_Permutation|].
    apply group_keys_NoDup. intros a b. apply String.eqb_eq.
Qed.

Lemma dates_of_In (matched : list Record) (s : string) :
  Forall (fun d => is_Some (record_date d)) matched ->
  In s (dates_of matched)
  <-> exists d, In d matched /\ record_date d = Some s.
Proof.
  intros Hdated. unfold dates_of.
  assert (Hp : forall x, In x (sort_by date_le
                 (group_keys String.eqb (date_str <$> matched)))
               <-> In x (date_str <$> matched)).
  { intros x. split; intros Hx.
    - apply (group_keys_In_iff String.eqb String.eqb_eq).
      eapply Permutation_in; [apply sort_by_Permutation | exact Hx].
    - eapply Permutation_in; [symmetry; apply sort_by_Permutation|].
      now apply (group_keys_In_iff String.eqb String.eqb_eq). }
  rewrite Hp.
  change (date_str <$> matched) with (List.map date_str matched).
  rewrite in_map_iff. split.
  - intros (d & Hs & Hin). exists d. split; [assumption|].
    destruct (proj1 (List.Forall_forall _ _) Hdated d Hin) as [s' Hs'].
    unfold date_str in Hs. rewrite Hs' in Hs. simpl in Hs. now subst.
  - intros (d & Hin & Hs). exists d. split; [|assumption].
    unfold date_str. now rewrite Hs.
Qed.

End DailyReportFacts.

(** ** The monthly rollup *)

Module MonthlyFacts.
Import domain mongo mongodb rollup PipelineFacts RollupFacts GroupFacts.
Import DailyReportFacts.

Lemma same_value_VInt32 (a b : Z) :
  same_value (VInt32 a) (VInt32 b) = (a =? b).
Proof.
  unfold same_value, bson_compare. simpl.
  unfold numkey_compare, Qcompare. simpl. rewrite !Z.mul_1_r.
  destruct (Z.compare_spec a b), (Z.eqb_spec a b); try reflexivity; lia.
Qed.

Lemma month_keq_values (a b : Z * Z) :
  month_keq (month_values a) (month_values b) = month_eqb a b.
Proof.
  unfold month_keq, month_values, month_eqb. simpl.
  now rewrite !same_value_VInt32.
Qed.

Lemma month_eqb_eq (a b : Z * Z) : month_eqb a b = true <-> a = b.
Proof.
  destruct a as [a1 a2], b as [b1 b2]. unfold month_eqb. simpl.
  rewrite andb_true_iff, !Z.eqb_eq. split; [intros [-> ->] | intros [= -> ->]];
    auto.
Qed.

Lemma record_month_exprs (d : Record) (y m : Z) :
  record_month d = Some (y, m) ->
  e_year time_expr d = Ok (Some (VInt32 y)) /\
  e_month time_expr d = Ok (Some (VInt32 m)).
Proof.
  unfold record_month.
  destruct (e_year time_expr d) as [[[]|]| |]; try discriminate.
  destruct (e_month time_expr d) as [[[]|]| |]; try discriminate.
  now intros [= -> ->].
Qed.

Lemma project_one (d : Record) :
  is_Some (record_month d) ->
  (fs ← traverse
         (fun f : string * expr => v ← f.2 d; Ok (f.1, v))
         [ ("year", e_year time_expr); ("month", e_month time_expr);
           ("metrics", e_root) ];
   let computed : Record :=
     list_to_map (omap (fun f : string * option value =>
                          v ← f.2; Some (f.1, v)) fs) in
   Ok (match d !! "_id" with
       | Some i => <["_id" := i]> computed
       | None => computed
       end))
  = Ok (projected d).
Proof.
  intros [[y m] Hym]. destruct (record_month_exprs d y m Hym) as [Hy Hm].
  cbn [traverse fst snd]. rewrite Hy, Hm. unfold e_root. simpl mbind.
  unfold projected, month_of. rewrite Hym. reflexivity.
Qed.

Lemma projected_key (d : Record) :
  (default VNull (projected d !! "year"),
   default VNull (projected d !! "month")) = month_values (month_of d).
Proof.
  unfold projected, month_values.
  destruct (d !! "_id");
    rewrite ?(lookup_insert_ne _ "_id") by discriminate;
    rewrite lookup_insert_eq, (lookup_insert_ne _ "year" "month")
      by discriminate;
    now rewrite lookup_insert_eq.
Qed.

Lemma projected_metrics (d : Record) :
  default VNull (projected d !! "metrics") = VDoc d.
Proof.
  unfold projected.
  destruct (d !! "_id");
    rewrite ?(lookup_insert_ne _ "_id") by discriminate;
    rewrite (lookup_insert_ne _ "year" "metrics") by discriminate;
    rewrite (lookup_insert_ne _ "month" "metrics") by discriminate;
    now rewrite lookup_insert_eq.
Qed.

Lemma projected_metrics_Some (d : Record) :
  projected d !! "metrics" = Some (VDoc d).
Proof.
  unfold projected.
  destruct (d !! "_id");
    rewrite ?(lookup_insert_ne _ "_id") by discriminate;
    rewrite (lookup_insert_ne _ "year" "metrics") by discriminate;
    rewrite (lookup_insert_ne _ "month" "metrics") by discriminate;
    now rewrite lookup_insert_eq.
Qed.

(** What the pipeline of [ReportByMetric] gives on a partition: the groups
    of the months that occur, in the order of their first record. *)
Lemma monthly_pipeline_run (db : Database) (source : string) :
  let matched := monthly_matches db source in
  Forall (fun d => is_Some (record_month d)) matched ->
  run monthly_pipeline db (collection db ("sensor_data_" +:+ source))
  = Ok (monthly_group matched <$> months_of matched).
Proof.
  intros matched Hdated. unfold monthly_pipeline. cbn [run].
  unfold match_stage at 1. simpl mbind.
  fold (monthly_matches db source). fold matched.
  unfold project.
  rewrite (traverse_Ok _ projected).
  2:{ intros d Hin. apply project_one.
      exact (proj1 (List.Forall_forall _ _) Hdated d Hin). }
  simpl mbind. unfold month_key.
  rewrite (group_run month_keq
             (fun d => (default VNull (d !! "year"),
                        default VNull (d !! "month")))
             month_render
             (fun d => default VNull (d !! "metrics"))
             (e_field "metrics")).
  2:{ intros d Hin. apply in_map_iff in Hin. destruct Hin as (d0 & <- & _).
      unfold e_field. now rewrite projected_metrics_Some. }
  simpl mbind. f_equal.
  assert (Hk : (fun d : Record => (default VNull (d !! "year"),
                                   default VNull (d !! "month")))
                 <$> List.map projected matched
               = month_values <$> (month_of <$> matched)).
  { clear Hdated. induction matched as [|d l IH]; [reflexivity|].
    cbn [List.map]. rewrite !fmap_cons. f_equal; [|exact IH].
    apply projected_key. }
  rewrite Hk.
  rewrite (group_keys_map month_values month_eqb month_keq)
    by apply month_keq_values.
  fold (months_of matched).
  change (month_values <$> months_of matched)
    with (List.map month_values (months_of matched)).
  rewrite List.map_map. apply List.map_ext. intros ym. cbv zeta.
  rewrite List.map_map.
  rewrite (List.map_ext _ (fun d => (month_values (month_of d), projected d)))
    by (intros d; now rewrite projected_key).
  rewrite (members_of_map month_values month_of projected month_eqb month_keq)
    by apply month_keq_values.
  fold (month_bucket ym matched).
  unfold monthly_group. rewrite length_fmap. do 4 f_equal.
  induction (month_bucket ym matched) as [|d l IH]; [reflexivity|].
  rewrite !fmap_cons, projected_metrics. f_equal. exact IH.
Qed.

Lemma metric_total_values (records : list Record) (metric : string) :
  metric_total (VDoc <$> records) metric
  = (fsum (field_values metric records),
     Z.of_nat (length (field_values metric records))).
Proof.
  unfold metric_total, fsum.
  assert (G : forall acc : float * Z,
    foldl (fun acc item =>
             match item with
             | VDoc record =>
                 match record !! metric with
                 | Some (VFloat64 floatVal) =>
                     ((acc.1 + floatVal)%float, acc.2 + 1)
                 | _ => acc
                 end
             | _ => acc
             end) acc (VDoc <$> records)
    = (foldl PrimFloat.add acc.1 (field_values metric records),
       acc.2 + Z.of_nat (length (field_values metric records)))).
  { induction records as [|r records IH]; intros acc.
    - simpl. rewrite Z.add_0_r. now destruct acc.
    - rewrite fmap_cons. cbn [foldl]. rewrite IH.
      unfold field_values. cbn [omap list_omap].
      destruct (r !! metric) as [[]|]; try reflexivity.
      cbn [foldl length fst snd]. f_equal. lia. }
  rewrite (G (0%float, 0)). reflexivity.
Qed.

Lemma month_bucket_length (ym : Z * Z) (l : list Record) :
  (length (month_bucket ym l) <= length l)%nat.
Proof.
  unfold month_bucket. induction l as [|d l IH]; simpl; [lia|].
  destruct (month_eqb ym (month_of d)); simpl; lia.
Qed.

(** The rows [ReportByMetric] makes of the group of a month, when the array
    of the group is decoded as a slice. *)
Lemma monthly_reports_group (metrics : list string) (matched : list Record)
    (ym : Z * Z) :
  Z.of_nat (length matched) <= Conv.max_int32 ->
  monthly_reports metrics (decode InterfaceSlice <$> monthly_group matched ym)
  = Ok (month_rows metrics matched ym).
Proof.
  intros Hfit. unfold monthly_group.
  rewrite int_value_int32 by (pose proof (month_bucket_length ym matched); lia).
  rewrite !fmap_insert, fmap_empty. cbn [decode as_slices month_render].
  unfold monthly_reports.
  rewrite lookup_insert_eq.
  rewrite fmap_insert, map_fmap_singleton. cbn [as_slices month_values fst snd].
  rewrite lookup_insert_eq.
  rewrite (lookup_insert_ne _ "year" "month") by discriminate.
  rewrite lookup_singleton_eq.
  rewrite (lookup_insert_ne _ "_id" "count") by discriminate.
  rewrite lookup_insert_eq.
  rewrite (lookup_insert_ne _ "_id" "data") by discriminate.
  rewrite (lookup_insert_ne _ "count" "data") by discriminate.
  rewrite lookup_insert_eq.
  cbn [assert_int32 assert_slice]. simpl mbind. f_equal.
  rewrite as_slices_docs. unfold month_rows.
  induction metrics as [|metric metrics IH]; [reflexivity|].
  cbn [omap list_omap]. rewrite IH. f_equal.
  rewrite metric_total_values, field_values_as_slices.
  destruct (field_values metric (month_bucket ym matched)) as [|v vs];
    [reflexivity|].
  replace (0 <? Z.of_nat (length (v :: vs))) with true
    by (symmetry; apply Z.ltb_lt; simpl length; lia).
  reflexivity.
Qed.

(** What [ReportByMetric] makes of one partition. *)
Lemma source_reports_rows (db : Database) (metrics : list string)
    (source : string) :
  let matched := monthly_matches db source in
  Forall (fun d => is_Some (record_month d)) matched ->
  Z.of_nat (length matched) <= Conv.max_int32 ->
  source_reports InterfaceSlice db metrics source
  = Ok (flat_map (month_rows metrics matched) (months_of matched)).
Proof.
  intros matched Hdated Hfit. unfold source_reports, Aggregate.
  rewrite (monthly_pipeline_run db source Hdated). fold matched.
  unfold cursor_All. rewrite !traverse_fmap.
  rewrite (traverse_Ok _ (month_rows metrics matched))
    by (intros ym _; now apply monthly_reports_group).
  simpl mbind. now rewrite flat_map_concat_map.
Qed.

End MonthlyFacts.

(** ** The claims about curves *)

Section CurveClaims.
Import interpolation Float64 Float64Order CurveFacts.

(** The value on a segment, computed exactly, lies between the Y values of
    its ends. *)
Lemma segment_value_between (p1 p2 : Point Q) (x : Q) :
  (X p1 < x)%Q -> (x <= X p2)%Q ->
  (Y p1 <= segment_value p1 p2 x /\ segment_value p1 p2 x <= Y p2)%Q \/
  (Y p2 <= segment_value p1 p2 x /\ segment_value p1 p2 x <= Y p1)%Q.
Proof.
  destruct p1 as [x1 y1], p2 as [x2 y2]. unfold segment_value. simpl.
  intros H1 H2.
  assert (Hb : (0 < x2 - x1)%Q) by lra.
  set (t := ((x - x1) / (x2 - x1))%Q).
  assert (Ht0 : (0 <= t)%Q).
  { unfold t. apply Qle_shift_div_l; [exact Hb | lra]. }
  assert (Ht1 : (t <= 1)%Q).
  { unfold t. apply Qle_shift_div_r; [exact Hb | lra]. }
  assert (Hv : (y1 + (x - x1) * (y2 - y1) / (x2 - x1) == y1 + t * (y2 - y1))%Q).
  { unfold t. field. lra. }
  destruct (Qlt_le_dec y2 y1) as [Hd|Hd].
  - right. rewrite Hv. split; nra.
  - left. rewrite Hv. split; nra.
Qed.

(** The search of [Interpolate] on float64. *)
Lemma Interpolate_float64_inside (c : Curve float) (p0 : Point float)
    (x : float) :
  (2 <= length (Points c))%nat ->
  ascending (Points c) ->
  flt (X (hd p0 (Points c))) x ->
  flt x (X (List.last (Points c) p0)) ->
  exists p1 p2,
    consecutive (Points c) p1 p2 /\ flt (X p1) x /\ fle x (X p2) /\
    Interpolate c x
    = (Y p1 + (x - X p1) * (Y p2 - Y p1) / (X p2 - X p1))%float.
Proof.
  intros Hlen Hasc Hlo Hhi.
  destruct (@Interpolate_inside float float64_Num number float_leb_num
              float_leb_total c p0 x Hlen Hasc)
    as (p1 & p2 & Hc & H1 & H2 & H3 & Hv).
  - eapply flt_number_r; exact Hlo.
  - now apply flt_not_fle.
  - now apply flt_not_fle.
  - exists p1, p2. repeat split; try assumption.
    apply not_fle_flt; try assumption.
    + eapply flt_number_r; exact Hlo.
    + eapply fle_number_l; exact H1.
Qed.

(** C6, as amended.  For every curve with at least two points in ascending
    order of X and every x strictly between the first and the last X,
    [Interpolate] returns [y1 + (x - x1) * (y2 - y1) / (x2 - x1)] for the
    consecutive points (x1,y1), (x2,y2) with x1 < x <= x2.  Computed without
    rounding (over the rationals) this value lies between y1 and y2; the
    statement makes no such promise for the rounded float64 result.  On the
    curve (0,0), (1,0.5), (2,1.2), [Interpolate(1.5) == 0.85] in float64. *)
Theorem C6_Interpolate_between_knots :
  (forall (c : Curve float) (p0 : Point float) (x : float),
      (2 <= length (Points c))%nat ->
      ascending (Points c) ->
      flt (X (hd p0 (Points c))) x ->
      flt x (X (List.last (Points c) p0)) ->
      exists p1 p2,
        consecutive (Points c) p1 p2 /\ flt (X p1) x /\ fle x (X p2) /\
        Interpolate c x
        = (Y p1 + (x - X p1) * (Y p2 - Y p1) / (X p2 - X p1))%float) /\
  (forall (c : Curve Q) (p0 : Point Q) (x : Q),
      (2 <= length (Points c))%nat ->
      ascending (Points c) ->
      (X (hd p0 (Points c)) < x)%Q ->
      (x < X (List.last (Points c) p0))%Q ->
      exists p1 p2,
        consecutive (Points c) p1 p2 /\ (X p1 < x)%Q /\ (x <= X p2)%Q /\
        Interpolate c x
        = (Y p1 + (x - X p1) * (Y p2 - Y p1) / (X p2 - X p1))%Q /\
        ((Y p1 <= Interpolate c x /\ Interpolate c x <= Y p2)%Q \/
         (Y p2 <= Interpolate c x /\ Interpolate c x <= Y p1)%Q)) /\
  Interpolate (mkCurve [mkPoint 0 0; mkPoint 1 0.5; mkPoint 2 1.2]%float)
              1.5%float = 0.85%float.
Proof.
  split; [|split].
  - apply Interpolate_float64_inside.
  - intros c p0 x Hlen Hasc Hlo Hhi.
    assert (Qnot : forall a b : Q, (a < b)%Q -> Qle_bool b a = false).
    { intros a b Hab. destruct (Qle_bool b a) eqn:E; [|reflexivity].
      apply Qle_bool_iff in E. lra. }
    destruct (@Interpolate_inside Q exact_Num (fun _ => True)
                (fun _ _ _ => conj I I) Q_leb_total c p0 x Hlen Hasc I)
      as (p1 & p2 & Hc & H1 & H2 & H3 & Hv).
    + now apply Qnot.
    + now apply Qnot.
    + simpl in H1, H2, H3. apply Qle_bool_iff in H1, H3.
      assert (Hlt : (X p1 < x)%Q).
      { destruct (Qlt_le_dec (X p1) x) as [Hl|Hl]; [exact Hl|].
        apply Qle_bool_iff in Hl. congruence. }
      exists p1, p2. repeat split; try assumption.
      rewrite Hv. now apply segment_value_between.
  - reflexivity.
Qed.

(** The two universal parts of C6 used on the curve (0,0), (1,0.5), (2,1.2)
    at x = 1.5. *)
Lemma C6_Interpolate_between_knots_witness :
  (exists p1 p2 : Point float,
      consecutive [mkPoint 0 0; mkPoint 1 0.5; mkPoint 2 1.2]%float p1 p2 /\
      flt (X p1) 1.5 /\ fle 1.5 (X p2) /\
      Interpolate (mkCurve [mkPoint 0 0; mkPoint 1 0.5; mkPoint 2 1.2]%float)
                  1.5%float
      = (Y p1 + (1.5 - X p1) * (Y p2 - Y p1) / (X p2 - X p1))%float) /\
  (exists p1 p2 : Point Q,
      consecutive [mkPoint 0 0; mkPoint 1 (1#2); mkPoint 2 (6#5)]%Q p1 p2 /\
      (X p1 < 3#2)%Q /\ (3#2 <= X p2)%Q /\
      Interpolate (mkCurve [mkPoint 0 0; mkPoint 1 (1#2); mkPoint 2 (6#5)]%Q)
                  (3#2)%Q
      = (Y p1 + ((3#2) - X p1) * (Y p2 - Y p1) / (X p2 - X p1))%Q /\
      ((Y p1 <= Interpolate (mkCurve [mkPoint 0 0; mkPoint 1 (1#2);
                                        mkPoint 2 (6#5)]%Q) (3#2)
        /\ Interpolate (mkCurve [mkPoint 0 0; mkPoint 1 (1#2);
                                  mkPoint 2 (6#5)]%Q) (3#2) <= Y p2)%Q \/
       (Y p2 <= Interpolate (mkCurve [mkPoint 0 0; mkPoint 1 (1#2);
                                        mkPoint 2 (6#5)]%Q) (3#2)
        /\ Interpolate (mkCurve [mkPoint 0 0; mkPoint 1 (1#2);
                                  mkPoint 2 (6#5)]%Q) (3#2) <= Y p1)%Q)).
Proof.
  split.
  - apply (proj1 C6_Interpolate_between_knots
             (mkCurve [mkPoint 0 0; mkPoint 1 0.5; mkPoint 2 1.2]%float)
             (mkPoint 0 0)%float 1.5%float).
    + simpl. lia.
    + simpl. repeat split; reflexivity.
    + reflexivity.
    + reflexivity.
  - apply (proj1 (proj2 C6_Interpolate_between_knots)
             (mkCurve [mkPoint 0 0; mkPoint 1 (1#2); mkPoint 2 (6#5)]%Q)
             (mkPoint 0 0)%Q (3#2)%Q).
    + simpl. lia.
    + simpl. repeat split; reflexivity.
    + reflexivity.
    + reflexivity.
Defined.

(** C6 as stated fails in float64: on the ascending curve (0,0), (3,0.1),
    (4,0), at x = 3, which is strictly between 0 and 4, [Interpolate]
    returns 0.10000000000000002, which is above the Y of every point of the
    curve and so between the Y values of no two of them. *)
Lemma C6_float64_value_leaves_the_bracket :
  let c := mkCurve [mkPoint 0 0; mkPoint 3 0.1; mkPoint 4 0]%float in
  ascending (Points c) /\
  flt 0 3 /\ flt 3 4 /\
  Interpolate c 3%float = 0.10000000000000002%float /\
  Forall (fun p => flt (Y p) (Interpolate c 3%float)) (Points c).
Proof.
  cbv zeta. split; [|split; [|split; [|split]]].
  - simpl. repeat split; reflexivity.
  - reflexivity.
  - reflexivity.
  - reflexivity.
  - repeat constructor.
Qed.

(** C7, as amended.  [Interpolate] clamps at the ends and handles
    degenerate curves: no point gives 0; one point gives its Y for every x;
    with at least two points, in whatever order, every x at or below the
    first X gives the first Y, and every x above the first X that is at or
    above the last X gives the last Y.  So when the first X is below the
    last X, as on ascending points that do not all have the same X, every x
    at or above the last X gives the last Y.  The test against the first X
    comes first: when the first X is not below the last X, an x between the
    two gives the first Y. *)
Theorem C7_Interpolate_clamps (c : Curve float) (x : float) :
  (Points c = [] -> Interpolate c x = 0%float) /\
  (forall p, Points c = [p] -> Interpolate c x = Y p) /\
  (forall p0,
      (2 <= length (Points c))%nat ->
      (fle x (X (hd p0 (Points c))) ->
       Interpolate c x = Y (hd p0 (Points c))) /\
      (flt (X (hd p0 (Points c))) x ->
       fle (X (List.last (Points c) p0)) x ->
       Interpolate c x = Y (List.last (Points c) p0)) /\
      (flt (X (hd p0 (Points c))) (X (List.last (Points c) p0)) ->
       fle (X (List.last (Points c) p0)) x ->
       Interpolate c x = Y (List.last (Points c) p0)) /\
      (fle (X (List.last (Points c) p0)) x ->
       fle x (X (hd p0 (Points c))) ->
       Interpolate c x = Y (hd p0 (Points c)))).
Proof.
  unfold Interpolate. split; [|split].
  - now intros ->.
  - now intros p ->.
  - intros p0 Hlen.
    destruct (Points c) as [|q0 [|q1 rest]] eqn:E; simpl in Hlen; try lia.
    assert (Hlow : fle x (X q0) ->
                   (if nleb x (X q0) then Y q0
                    else let last := List.last (q0 :: q1 :: rest) q0 in
                         if nleb (X last) x then Y last
                         else find_segment (q0 :: q1 :: rest) x) = Y q0).
    { intros Hx. unfold fle in Hx.
      change (nleb x (X q0)) with (PrimFloat.leb x (X q0)). now rewrite Hx. }
    assert (Hhigh : flt (X q0) x ->
                    fle (X (List.last (q0 :: q1 :: rest) p0)) x ->
                    (if nleb x (X q0) then Y q0
                     else let last := List.last (q0 :: q1 :: rest) q0 in
                          if nleb (X last) x then Y last
                          else find_segment (q0 :: q1 :: rest) x)
                    = Y (List.last (q0 :: q1 :: rest) p0)).
    { intros Hlo Hx.
      assert (Hlo' : nleb x (X q0) = false) by now apply flt_not_fle.
      rewrite Hlo'. cbv zeta.
      rewrite (last_nonempty (q0 :: q1 :: rest) q0 p0) by discriminate.
      change (nleb (X (List.last (q0 :: q1 :: rest) p0)) x = true) in Hx.
      now rewrite Hx. }
    cbn [hd]. split; [exact Hlow|]. split; [exact Hhigh|].
    split; [|intros _; exact Hlow].
    intros Hends Hx. apply Hhigh; [|exact Hx].
    eapply flt_fle_trans; [exact Hends | exact Hx].
Qed.

(** C7 on the curve (0,0), (1,0.5), (2,1.2): below at x = -1, above at
    x = 7. *)
Lemma C7_Interpolate_clamps_witness :
  Interpolate (mkCurve [mkPoint 0 0; mkPoint 1 0.5; mkPoint 2 1.2]%float)
              (-1)%float = 0%float /\
  Interpolate (mkCurve [mkPoint 0 0; mkPoint 1 0.5; mkPoint 2 1.2]%float)
              7%float = 1.2%float.
Proof.
  pose proof (proj2 (proj2 (C7_Interpolate_clamps
    (mkCurve [mkPoint 0 0; mkPoint 1 0.5; mkPoint 2 1.2]%float) (-1)%float))
    (mkPoint 0 0)%float) as Hlo.
  pose proof (proj2 (proj2 (C7_Interpolate_clamps
    (mkCurve [mkPoint 0 0; mkPoint 1 0.5; mkPoint 2 1.2]%float) 7%float))
    (mkPoint 0 0)%float) as Hhi.
  destruct (Hlo ltac:(simpl; lia)) as (Hbelow & _).
  destruct (Hhi ltac:(simpl; lia)) as (_ & _ & Habove & _).
  split.
  - apply Hbelow. reflexivity.
  - apply Habove; reflexivity.
Defined.

(** C7 as stated fails: the points (1,10), (1,20) are ascending, and x = 1
    is at or above the last X, but [Interpolate] returns the first Y, 10,
    not the last Y, 20. *)
Lemma C7_repeated_X_gives_the_first_Y :
  let c := mkCurve [mkPoint 1 10; mkPoint 1 20]%float in
  ascending (Points c) /\
  fle (X (List.last (Points c) (mkPoint 0 0)%float)) 1 /\
  Interpolate c 1%float = 10%float /\
  Y (List.last (Points c) (mkPoint 0 0)%float) = 20%float /\
  PrimFloat.eqb 10 20 = false.
Proof.
  cbv zeta. split; [|split; [|split; [|split]]].
  - simpl. repeat split; reflexivity.
  - reflexivity.
  - reflexivity.
  - reflexivity.
  - reflexivity.
Qed.

(** C10.  Whatever the order of the points given, [NewCurve] stores the same
    points in ascending order of X (the X being numbers), which is the order
    the search of [Interpolate] relies on: on the curve it builds, every x
    strictly between the first and the last X is given the value of the
    segment that brackets it. *)
Theorem C10_NewCurve_sorts (points : list (Point float)) :
  Forall (fun p => number (X p)) points ->
  ascending (Points (NewCurve points)) /\
  Permutation (Points (NewCurve points)) points /\
  (forall (p0 : Point float) (x : float),
      (2 <= length points)%nat ->
      flt (X (hd p0 (Points (NewCurve points)))) x ->
      flt x (X (List.last (Points (NewCurve points)) p0)) ->
      exists p1 p2,
        consecutive (Points (NewCurve points)) p1 p2 /\
        flt (X p1) x /\ fle x (X p2) /\
        Interpolate (NewCurve points) x
        = (Y p1 + (x - X p1) * (Y p2 - Y p1) / (X p2 - X p1))%float).
Proof.
  intros Hnum.
  assert (Hasc : ascending (Points (NewCurve points))).
  { apply (@sort_Slice_ascending float float64_Num number flt_fle not_flt_fle).
    exact Hnum. }
  assert (Hperm : Permutation (Points (NewCurve points)) points)
    by apply sort_Slice_Permutation.
  split; [exact Hasc | split; [exact Hperm|]].
  intros p0 x Hlen Hlo Hhi.
  apply (Interpolate_float64_inside (NewCurve points) p0 x); try assumption.
  now rewrite (Permutation_length Hperm).
Qed.

(** C10 on the points (2,1.2), (0,0), (1,0.5), given out of order. *)
Lemma C10_NewCurve_sorts_witness :
  ascending (Points (NewCurve [mkPoint 2 1.2; mkPoint 0 0; mkPoint 1 0.5]%float))
  /\ Points (NewCurve [mkPoint 2 1.2; mkPoint 0 0; mkPoint 1 0.5]%float)
     = [mkPoint 0 0; mkPoint 1 0.5; mkPoint 2 1.2]%float.
Proof.
  split.
  - apply (C10_NewCurve_sorts [mkPoint 2 1.2; mkPoint 0 0; mkPoint 1 0.5]%float).
    repeat constructor.
  - reflexivity.
Defined.

End CurveClaims.

(** ** The claims about rounding and the calculator *)

Section CalculatorClaims.
Import domain interpolation service Float64 Float64Order.

(** On a scaled value that is not negative, truncation and rounding down
    agree. *)
Lemma trunc_floor_nonneg (f : float) :
  fle 0 f -> Conv.trunc f = Conv.floor f.
Proof.
  unfold fle. rewrite FloatAxioms.leb_spec.
  unfold Conv.trunc, Conv.floor.
  change (Prim2SF 0) with (S754_zero false).
  destruct (Prim2SF f) as [s|s| |s m e]; try reflexivity.
  destruct s; [discriminate|].
  intros _. now destruct (0 <=? e).
Qed.

(** C9.  [RoundValue] is [floor(v*100 + 0.5) / 100] whenever [v*100 + 0.5]
    is not negative, but not for negative inputs: [int(...)] truncates
    towards zero, so [RoundValue(-1)] is -0.99 where rounding half up gives
    -1. *)
Theorem C9_RoundValue_truncates_towards_zero :
  RoundValue (-1) = (-0.99)%float /\
  round_half_up (-1) = (-1)%float /\
  (forall v : float,
      fle 0 (v * 100 + 0.5) -> RoundValue v = round_half_up v).
Proof.
  split; [reflexivity | split; [reflexivity|]].
  intros v Hv. unfold RoundValue, round_half_up, Conv.int_of_float64.
  rewrite (trunc_floor_nonneg _ Hv).
  now destruct (Conv.floor (v * 100 + 0.5)).
Qed.

(** C9 used at 1.234, which rounds to 1.23 either way. *)
Lemma C9_RoundValue_truncates_towards_zero_witness :
  RoundValue 1.234 = round_half_up 1.234 /\ RoundValue 1.234 = 1.23%float.
Proof.
  split.
  - apply (proj2 (proj2 C9_RoundValue_truncates_towards_zero) 1.234%float).
    reflexivity.
  - reflexivity.
Defined.

(** C5, as amended.  The overflow output is 0 when the level is at or below
    0 and [m * B * sqrt(2*g) * L^1.5] rounded to 2 decimals when it is above
    0 ([applyInterpolation] writes it to [Q_of] for every level it accepts);
    with m=0.49, B=10, g=9.81 and L=2 the rounded overflow is 61.39, for
    every power function that gives 2^1.5 within 4 units in the last place. *)
Theorem C5_overflow (Pow : float -> float -> float)
    (h : HydraulicCalculator) (wau : float) :
  (fle wau 0 -> RoundValue (CalculateWaterOverFlow Pow h wau) = 0%float) /\
  (flt 0 wau ->
   RoundValue (CalculateWaterOverFlow Pow h wau)
   = RoundValue (OverflowM h * OverflowB h * PrimFloat.sqrt (2 * OverflowG h)
                 * Pow wau 1.5%float)%float) /\
  (forall record : Record,
      GetFloat record "WAU" = wau ->
      PrimFloat.eqb wau 0 = false ->
      applyInterpolation Pow h record !! "Q_of"
      = Some (VFloat64 (RoundValue (CalculateWaterOverFlow Pow h wau)))) /\
  (within_ulps 4 (2 * PrimFloat.sqrt 2) (Pow 2 1.5)%float ->
   RoundValue (CalculateWaterOverFlow Pow NewHydraulicCalculator 2)
   = 61.39%float).
Proof.
  split; [|split; [|split]].
  - intros Hle. unfold CalculateWaterOverFlow. unfold fle in Hle.
    now rewrite Hle.
  - intros Hlt. unfold CalculateWaterOverFlow.
    now rewrite (flt_not_fle _ _ Hlt).
  - intros record Hw Hnz. unfold applyInterpolation.
    rewrite Hw, Hnz. now rewrite lookup_insert_eq.
  - unfold CalculateWaterOverFlow, within_ulps.
    change (PrimFloat.leb 2 0) with false. cbv iota.
    intros Hin. vm_compute in Hin.
    repeat (destruct Hin as [<- | Hin]; [vm_compute; reflexivity|]).
    destruct Hin.
Qed.

(** C5 used at level 2 with the power computed as [x * sqrt x]. *)
Lemma C5_overflow_witness :
  RoundValue (CalculateWaterOverFlow (fun x _ => x * PrimFloat.sqrt x)%float
                NewHydraulicCalculator 2)
  = RoundValue (0.49 * 10 * PrimFloat.sqrt (2 * 9.81)
                * (2 * PrimFloat.sqrt 2))%float /\
  RoundValue (CalculateWaterOverFlow (fun x _ => x * PrimFloat.sqrt x)%float
                NewHydraulicCalculator 2) = 61.39%float.
Proof.
  split.
  - apply (proj1 (proj2 (C5_overflow (fun x _ => x * PrimFloat.sqrt x)%float
                           NewHydraulicCalculator 2))).
    reflexivity.
  - apply (proj2 (proj2 (proj2 (C5_overflow
             (fun x _ => x * PrimFloat.sqrt x)%float
             NewHydraulicCalculator 2)))).
    left. reflexivity.
Defined.

(** C5 as stated fails: with m=0.49, B=10, g=9.81 and L=2 the rounded
    overflow is not 61.30 (it is 61.39, which is 0.09 away), already for the
    power function that gives 2^1.5 correctly rounded. *)
Lemma C5_overflow_example_is_not_61_30 :
  ~ (forall Pow : float -> float -> float,
        within_ulps 4 (2 * PrimFloat.sqrt 2) (Pow 2 1.5)%float ->
        RoundValue (CalculateWaterOverFlow Pow NewHydraulicCalculator 2)
        = 61.30%float).
Proof.
  intros Hall.
  specialize (Hall (fun x _ => x * PrimFloat.sqrt x)%float
                (or_introl eq_refl)).
  assert (E : PrimFloat.eqb
                (RoundValue (CalculateWaterOverFlow
                               (fun x _ => x * PrimFloat.sqrt x)%float
                               NewHydraulicCalculator 2)) 61.30 = true)
    by (rewrite Hall; reflexivity).
  vm_compute in E. discriminate E.
Qed.

(** C8.  [applyInterpolation] is a total function from records to records:
    it has no error to return and no panic to reach.  When the level [WAU]
    is absent or exactly zero the record is returned unchanged; in every
    case the fields other than [V], [Q] and [Q_of] are left as they were;
    when the level is accepted, [V] and [Q_of] are written, and [Q] is
    written when the discharge [DR] is above 0. *)
Theorem C8_applyInterpolation (Pow : float -> float -> float)
    (calculator : HydraulicCalculator) (record : Record) :
  (record !! "WAU" = None ->
   applyInterpolation Pow calculator record = record) /\
  (forall z : float,
      record !! "WAU" = Some (VFloat64 z) -> PrimFloat.eqb z 0 = true ->
      applyInterpolation Pow calculator record = record) /\
  (forall key : string,
      key <> "V" -> key <> "Q" -> key <> "Q_of" ->
      applyInterpolation Pow calculator record !! key = record !! key) /\
  (PrimFloat.eqb (GetFloat record "WAU") 0 = false ->
   let wau := GetFloat record "WAU" in
   let dr := GetFloat record "DR" in
   applyInterpolation Pow calculator record !! "V"
   = Some (VFloat64 (RoundValue (CalculateWaterIndex calculator wau))) /\
   applyInterpolation Pow calculator record !! "Q_of"
   = Some (VFloat64 (RoundValue (CalculateWaterOverFlow Pow calculator wau))) /\
   applyInterpolation Pow calculator record !! "Q"
   = if PrimFloat.ltb 0 dr
     then Some (VFloat64 (RoundValue (CalculateWaterFlow calculator wau dr)))
     else record !! "Q").
Proof.
  assert (Hdr : forall v, GetFloat (<["V" := v]> record) "DR"
                          = GetFloat record "DR").
  { intros v. unfold GetFloat. now rewrite lookup_insert_ne. }
  split; [|split; [|split]].
  - intros Habs. unfold applyInterpolation, GetFloat. now rewrite Habs.
  - intros z Hz Hzero. unfold applyInterpolation, GetFloat.
    now rewrite Hz, Hzero.
  - intros key HV HQ HQof. unfold applyInterpolation.
    destruct (PrimFloat.eqb (GetFloat record "WAU") 0); [reflexivity|].
    rewrite lookup_insert_ne by congruence.
    destruct (PrimFloat.ltb 0 _).
    + rewrite lookup_insert_ne by congruence.
      now rewrite lookup_insert_ne by congruence.
    + now rewrite lookup_insert_ne by congruence.
  - intros Hnz. cbv zeta. unfold applyInterpolation. rewrite Hnz, Hdr.
    split; [|split].
    + rewrite lookup_insert_ne by discriminate.
      destruct (PrimFloat.ltb 0 _).
      * rewrite lookup_insert_ne by discriminate.
        now rewrite lookup_insert_eq.
      * now rewrite lookup_insert_eq.
    + now rewrite lookup_insert_eq.
    + rewrite lookup_insert_ne by discriminate.
      destruct (PrimFloat.ltb 0 _).
      * now rewrite lookup_insert_eq.
      * now rewrite lookup_insert_ne by discriminate.
Qed.

(** C8 used on a record without level, on one with level 0, and on one with
    level 2. *)
Lemma C8_applyInterpolation_witness :
  let Pow := (fun x _ => x * PrimFloat.sqrt x)%float in
  let r0 : Record := {[ "T" := VFloat64 21.5 ]} in
  let r1 : Record := <[ "WAU" := VFloat64 0 ]> {[ "T" := VFloat64 21.5 ]} in
  let r2 : Record := <[ "WAU" := VFloat64 2 ]> {[ "T" := VFloat64 21.5 ]} in
  applyInterpolation Pow NewHydraulicCalculator r0 = r0 /\
  applyInterpolation Pow NewHydraulicCalculator r1 = r1 /\
  applyInterpolation Pow NewHydraulicCalculator r2 !! "T"
  = Some (VFloat64 21.5) /\
  applyInterpolation Pow NewHydraulicCalculator r2 !! "V"
  = Some (VFloat64 1.2).
Proof.
  intros Pow r0 r1 r2. split; [|split; [|split]].
  - apply (proj1 (C8_applyInterpolation Pow NewHydraulicCalculator r0)).
    reflexivity.
  - apply (proj1 (proj2 (C8_applyInterpolation Pow NewHydraulicCalculator r1))
             0%float); reflexivity.
  - rewrite (proj1 (proj2 (proj2
               (C8_applyInterpolation Pow NewHydraulicCalculator r2))) "T");
      [reflexivity | discriminate ..].
  - destruct (proj2 (proj2 (proj2
               (C8_applyInterpolation Pow NewHydraulicCalculator r2)))
               eq_refl) as [HV _].
    rewrite HV. reflexivity.
Defined.

End CalculatorClaims.
(** ** The claim about insertion *)

Section StoreClaims.
Import domain mongo mongodb.

Lemma has_key_true (coll : Collection) (k : value) :
  has_key coll k = true <->
  exists old k', In old coll /\ old !! "_id" = Some k' /\ same_key k k' = true.
Proof.
  unfold has_key. rewrite existsb_exists. split.
  - intros (old & Hin & Hk). destruct (old !! "_id") as [k'|] eqn:E;
      [|discriminate]. now exists old, k'.
  - intros (old & k' & Hin & E & Hk). exists old. now rewrite E.
Qed.

Lemma has_key_false (coll : Collection) (k : value) :
  has_key coll k = false <->
  forall old k', In old coll -> old !! "_id" = Some k' -> same_key k k' = false.
Proof.
  split.
  - intros Hf old k' Hin E. destruct (same_key k k') eqn:Hs; [|reflexivity].
    assert (has_key coll k = true) by (apply has_key_true; eauto).
    congruence.
  - intros Hall. destruct (has_key coll k) eqn:Hk; [|reflexivity].
    apply has_key_true in Hk. destruct Hk as (old & k' & Hin & E & Hs).
    rewrite (Hall old k' Hin E) in Hs. discriminate.
Qed.

(** The partitions have collections of their own. *)
Lemma getRecordCollection_inj (a b : string) :
  getRecordCollection a = getRecordCollection b -> a = b.
Proof. unfold getRecordCollection. apply String.app_inj. Qed.

Lemma collection_insert_eq (db : Database) (name : string) (coll : Collection) :
  collection (<[name := coll]> db) name = coll.
Proof. unfold collection. now rewrite lookup_insert_eq. Qed.

Lemma collection_insert_ne (db : Database) (name name' : string)
    (coll : Collection) :
  name <> name' -> collection (<[name := coll]> db) name' = collection db name'.
Proof. intros Hne. unfold collection. now rewrite lookup_insert_ne. Qed.

(** The three outcomes of [InsertOne] on a document that has a key. *)
Lemma InsertOne_keyed (db : Database) (name : string) (oid : N)
    (doc : Record) (k : value) :
  doc !! "_id" = Some k ->
  InsertOne db name oid doc
  = if is_array k then (db, Some (WriteException 2))
    else if has_key (collection db name) k
         then (db, Some (WriteException 11000))
         else (<[name := collection db name ++ [doc]]> db, None).
Proof. intros Hk. unfold InsertOne. rewrite Hk. cbn. now rewrite Hk. Qed.

(** C4, as amended.  For a record that has a key, [AddRecord] assigns the
    ingest time [c] exactly when it is absent.  If a record of the partition
    already has the key of the new record, the insert fails with the
    duplicate-key write error of the store (code 11000) and the database, so
    also the record stored before, is unchanged.  A key that is an array is
    refused by the store, with another write error.  Otherwise the record is added to the partition,
    unchanged but for that assignment, and every other partition is left as
    it is, whatever keys it holds.  Whenever the insert fails the database
    is unchanged, and the error is never [ErrRecordIDExisted]. *)
Theorem C4_AddRecord (db : Database) (now : Z) (oid : N) (boxID : string)
    (record : Record) (k : value) :
  record !! "_id" = Some k ->
  let partition := collection db (getRecordCollection boxID) in
  let stored :=
    if record !! "c" is Some _ then record
    else <["c" := VInt64 now]> record in
  let result := AddRecord db now oid boxID record in
  (stored !! "c" = Some (default (VInt64 now) (record !! "c")) /\
   forall key : string, key <> "c" -> stored !! key = record !! key) /\
  (is_array k = false ->
   (exists old k' : _,
       In old partition /\ old !! "_id" = Some k' /\ same_key k k' = true) ->
   result = (db, Some (WriteException 11000))) /\
  (is_array k = true ->
   exists code : Z,
     result = (db, Some (WriteException code)) /\ code <> 11000) /\
  (is_array k = false ->
   (forall old k' : _,
       In old partition -> old !! "_id" = Some k' -> same_key k k' = false) ->
   result = (<[getRecordCollection boxID := partition ++ [stored]]> db, None) /\
   collection result.1 (getRecordCollection boxID) = partition ++ [stored] /\
   forall boxID' : string,
     boxID' <> boxID ->
     collection result.1 (getRecordCollection boxID')
     = collection db (getRecordCollection boxID')) /\
  (forall e : error,
      result.2 = Some e -> result.1 = db /\ e <> ErrRecordIDExisted).
Proof.
  intros Hid partition stored result.
  assert (Hsid : stored !! "_id" = Some k).
  { unfold stored. destruct (record !! "c"); [exact Hid|].
    now rewrite lookup_insert_ne. }
  assert (Hres : result
                 = if is_array k then (db, Some (WriteException 2))
                   else if has_key partition k
                        then (db, Some (WriteException 11000))
                        else (<[getRecordCollection boxID
                                  := partition ++ [stored]]> db, None)).
  { unfold result, AddRecord. fold stored.
    now rewrite (InsertOne_keyed _ _ _ _ k Hsid). }
  split; [split|split; [|split; [|split]]].
  - unfold stored. destruct (record !! "c") as [v|] eqn:E; [exact E|].
    now rewrite lookup_insert_eq.
  - intros key Hkey. unfold stored. destruct (record !! "c"); [reflexivity|].
    now rewrite lookup_insert_ne.
  - intros Harr Hdup. rewrite Hres, Harr.
    now rewrite (proj2 (has_key_true partition k) Hdup).
  - intros Harr. rewrite Hres, Harr. exists 2. split; [reflexivity | lia].
  - intros Harr Hfresh. rewrite Hres, Harr.
    rewrite (proj2 (has_key_false partition k) Hfresh).
    split; [reflexivity|]. cbn [fst]. split.
    + apply collection_insert_eq.
    + intros boxID' Hne. apply collection_insert_ne.
      intros Heq. apply Hne. symmetry. now apply getRecordCollection_inj.
  - intros e. rewrite Hres.
    destruct (is_array k); [|destruct (has_key partition k)]; cbn [fst snd];
      intros [= <-]; now split.
Qed.

(** C4 used on the partition [box]: the first record at key 1700000000 is
    stored with the ingest time; a second record at the same key is refused
    and the database stays as it was; the same key is accepted in the
    partition [other], which leaves [box] as it was. *)
Lemma C4_AddRecord_witness :
  let r1 : Record := <["_id" := VInt64 1700000000]> {[ "WAU" := VFloat64 2 ]} in
  let r2 : Record := <["_id" := VInt64 1700000000]> {[ "WAU" := VFloat64 3 ]} in
  let db1 : Database :=
    {[ "sensor_data_box" := [ <["c" := VInt64 5]> r1 ] ]} in
  AddRecord ∅ 5 0 "box" r1 = (db1, None) /\
  AddRecord db1 6 0 "box" r2 = (db1, Some (WriteException 11000)) /\
  (AddRecord db1 6 0 "other" r2).2 = None /\
  collection (AddRecord db1 6 0 "other" r2).1 (getRecordCollection "box")
  = [ <["c" := VInt64 5]> r1 ].
Proof.
  intros r1 r2 db1.
  pose proof (C4_AddRecord ∅ 5 0 "box" r1 (VInt64 1700000000) eq_refl) as H1.
  pose proof (C4_AddRecord db1 6 0 "box" r2 (VInt64 1700000000) eq_refl) as H2.
  pose proof (C4_AddRecord db1 6 0 "other" r2 (VInt64 1700000000) eq_refl)
    as H3.
  cbv zeta in H1, H2, H3.
  destruct H1 as (_ & _ & _ & H1 & _).
  destruct H2 as (_ & H2 & _).
  destruct H3 as (_ & _ & _ & H3 & _).
  split; [|split].
  - rewrite (proj1 (H1 eq_refl ltac:(intros old k' [])) ). reflexivity.
  - apply (H2 eq_refl). exists (<["c" := VInt64 5]> r1), (VInt64 1700000000).
    split; [now left|]. split; reflexivity.
  - destruct (H3 eq_refl ltac:(intros old k' [])) as (Hres & _ & Hother).
    split.
    + now rewrite Hres.
    + rewrite (Hother "box" ltac:(discriminate)). reflexivity.
Defined.

(** C4 as stated fails: the error of an insert at a key that the partition
    has is the write error of the driver, not the [ErrRecordIDExisted] that
    package domain declares. *)
Lemma C4_error_is_not_ErrRecordIDExisted :
  let r1 : Record := <["_id" := VInt64 1700000000]> {[ "WAU" := VFloat64 2 ]} in
  let r2 : Record := <["_id" := VInt64 1700000000]> {[ "WAU" := VFloat64 3 ]} in
  let db1 : Database :=
    {[ "sensor_data_box" := [ <["c" := VInt64 5]> r1 ] ]} in
  In (<["c" := VInt64 5]> r1) (collection db1 (getRecordCollection "box")) /\
  (<["c" := VInt64 5]> r1) !! "_id" = r2 !! "_id" /\
  exists e : error,
    AddRecord db1 6 0 "box" r2 = (db1, Some e) /\
    e = WriteException 11000 /\
    e <> ErrRecordIDExisted.
Proof.
  cbv zeta. split; [now left|]. split; [reflexivity|].
  eexists. split; [vm_compute; reflexivity|]. split; [reflexivity|discriminate].
Qed.

(** Two records whose keys are documents are duplicates of each other only
    when the documents hold the same. *)
Lemma same_key_documents :
  same_key (VDoc {[ "box" := VInt32 1 ]}) (VDoc {[ "box" := VInt32 2 ]}) = false /\
  same_key (VDoc {[ "box" := VInt32 1 ]}) (VDoc {[ "box" := VInt64 1 ]}) = true /\
  same_key (VDoc {[ "box" := VInt32 1 ]}) (VDoc {[ "id" := VInt32 1 ]}) = false /\
  same_key (VInt64 1700000000) (VFloat64 1700000000) = true.
Proof. repeat split; vm_compute; reflexivity. Qed.

End StoreClaims.

(** ** The claim about the multi-partition query *)

Section MergeClaims.
Import domain mongo mongodb merge PipelineFacts.

Lemma union_pipeline (filter : Filter) (p0 : list stage) (rest : list string) :
  foldl (fun pipeline boxID =>
           pipeline ++ [
             unionWith ("sensor_data_" +:+ boxID) [
               match_stage filter;
               addFields "box_id" (e_lit (VString boxID)) ] ])
        p0 rest
  = p0 ++ List.map (union_of filter) rest.
Proof.
  revert p0. induction rest as [|b rest IH]; intros p0; simpl.
  - now rewrite app_nil_r.
  - rewrite IH, <- app_assoc. reflexivity.
Qed.

Lemma run_partition (filter : Filter) (boxID : string) (db : Database)
    (docs : list Record) :
  run [ match_stage filter; addFields "box_id" (e_lit (VString boxID)) ]
      db docs
  = Ok (tagged boxID <$> List.filter (matches filter) docs).
Proof. simpl. rewrite addFields_lit. reflexivity. Qed.

Lemma union_of_run (filter : Filter) (boxID : string) (db : Database)
    (docs : list Record) :
  union_of filter boxID db docs
  = Ok (docs ++ (tagged boxID <$>
                   List.filter (matches filter)
                     (collection db (getRecordCollection boxID)))).
Proof. unfold union_of, unionWith. now rewrite run_partition. Qed.

Lemma run_unions (query : option QueryRecord) (db : Database)
    (rest : list string) (docs : list Record) :
  run (List.map (union_of (time_filter ∅ query)) rest) db docs
  = Ok (docs ++ merged db query rest).
Proof.
  revert docs. induction rest as [|b rest IH]; intros docs.
  - simpl. now rewrite app_nil_r.
  - cbn [List.map run]. rewrite union_of_run. simpl mbind.
    rewrite IH, <- app_assoc. reflexivity.
Qed.

Lemma run_records_facet (skip limit : Z) (db : Database) (docs : list Record) :
  0 <= skip -> 0 < limit ->
  run [ sort_stage "_id" (-1); skip_stage skip; limit_stage limit;
        addFields "id" (e_field "_id"); unset "_id" ] db docs
  = Ok (presented <$> take (Z.to_nat limit)
                        (drop (Z.to_nat skip)
                           (sort_by (sort_le "_id" (-1)) docs))).
Proof.
  intros Hskip Hlimit. simpl. unfold skip_stage, limit_stage.
  destruct (Z.ltb_spec skip 0); [lia|]. simpl.
  destruct (Z.leb_spec limit 0); [lia|]. simpl.
  unfold addFields.
  rewrite (traverse_Ok _
    (fun d : Record => if d !! "_id" is Some v then <["id" := v]> d else d)).
  - simpl. unfold unset. f_equal.
    rewrite <- list_fmap_compose. reflexivity.
  - intros d _. unfold set_field, e_field. simpl. reflexivity.
Qed.

Lemma facet_total_count (records : value) (n : nat) :
  Z.of_nat n <= Conv.max_int32 ->
  facet_total
    [ <["records" := records]>
        (<["total" := VArray (VDoc <$> match n with
                                        | O => []
                                        | S _ => [ {[ "count" := int_value (Z.of_nat n) ]} ]
                                        end)]> ∅) ]
  = Z.of_nat n.
Proof.
  intros Hn. unfold facet_total.
  rewrite lookup_insert_ne by discriminate. rewrite lookup_insert_eq.
  destruct n as [|n]; [reflexivity|].
  simpl fmap. cbv iota. rewrite lookup_singleton_eq. unfold int_value.
  destruct (Z.leb_spec Conv.min_int32 (Z.of_nat (S n)));
    [|unfold Conv.min_int32 in *; lia].
  destruct (Z.leb_spec (Z.of_nat (S n)) Conv.max_int32); [|lia].
  reflexivity.
Qed.

Lemma count_stage_length (db : Database) (docs : list Record) :
  count_stage "count" db docs
  = Ok match length docs with
       | O => []
       | S _ => [ {[ "count" := int_value (Z.of_nat (length docs)) ]} ]
       end.
Proof. now destruct docs. Qed.

Lemma merged_length (db : Database) (query : option QueryRecord)
    (boxIDs : list string) :
  length (merged db query boxIDs)
  = sum_list (List.map (fun boxID => length (partition_matches db query boxID))
                       boxIDs).
Proof.
  unfold merged. induction boxIDs as [|b boxIDs IH]; [reflexivity|].
  simpl. rewrite length_app, length_fmap, IH. reflexivity.
Qed.

Lemma time_filter_inclusive (t0 t1 : Z) (limit skip : option Z)
    (d : Record) (n : Z) :
  d !! "_id" = Some (VInt64 n) ->
  matches (time_filter ∅ (Some {| Time := [t0; t1]; Limit := limit;
                                  Skip := skip |})) d = true
  <-> t0 <= n <= t1.
Proof.
  intros Hid. unfold matches, time_filter. simpl Time. cbv iota.
  rewrite insert_empty, map_to_list_singleton. simpl.
  rewrite Hid. unfold cond_holds, bson_compare. simpl.
  unfold numkey_compare, Qcompare. simpl. rewrite !Z.mul_1_r.
  destruct (Z.compare_spec n t0), (Z.compare_spec n t1); simpl; split;
    intros; try discriminate; try reflexivity; lia.
Qed.

(** What [ListRecordsByGroup] returns for a skip and a limit. *)
Lemma ListRecordsByGroup_page (db : Database) (boxIDs : list string)
    (query : option QueryRecord) (skip limit : Z) :
  query_skip query = skip -> query_limit query = limit ->
  boxIDs <> [] ->
  0 <= skip -> 0 < limit ->
  Z.of_nat (length (merged db query boxIDs)) <= Conv.max_int32 ->
  exists sorted : list Record,
    Permutation sorted (merged db query boxIDs) /\
    key_descending sorted /\
    ListRecordsByGroup BsonA db boxIDs query
    = Ok {| Records :=
              presented <$> take (Z.to_nat limit) (drop (Z.to_nat skip) sorted);
            Total := Z.of_nat (length (merged db query boxIDs)) |} /\
    length (merged db query boxIDs)
    = sum_list (List.map
                  (fun boxID => length (partition_matches db query boxID))
                  boxIDs).
Proof.
  intros Hs Hl Hne Hskip Hlimit Hfit.
  destruct boxIDs as [|firstBoxID rest]; [congruence|].
  exists (sort_by (sort_le "_id" (-1)) (merged db query (firstBoxID :: rest))).
  split; [apply sort_by_Permutation|].
  split.
  { unfold key_descending.
    eapply Sorted_impl;
      [|apply sort_by_Sorted; intros a b; apply sort_le_total; lia].
    intros a b. unfold sort_le.
    destruct (bson_compare (sort_key "_id" a) (sort_key "_id" b));
      intros Hle; try discriminate; vm_compute in Hle; discriminate. }
  split; [|apply merged_length].
  unfold ListRecordsByGroup, Aggregate. rewrite Hs, Hl.
  rewrite union_pipeline, !run_app.
  rewrite run_partition. simpl mbind.
  rewrite run_unions. simpl mbind.
  change (tagged firstBoxID <$>
            List.filter (matches (time_filter ∅ query))
              (collection db (getRecordCollection firstBoxID)))
    with (tagged firstBoxID <$> partition_matches db query firstBoxID).
  change ((tagged firstBoxID <$> partition_matches db query firstBoxID)
          ++ merged db query rest)
    with (merged db query (firstBoxID :: rest)).
  set (all := merged db query (firstBoxID :: rest)) in *.
  unfold facet. cbn [traverse fst snd].
  rewrite run_records_facet by assumption. simpl mbind.
  cbn [run]. rewrite count_stage_length. simpl mbind.
  cbv beta iota. rewrite cursor_All_BsonA. f_equal. f_equal.
  - unfold facet_records. rewrite lookup_insert_eq.
    apply omap_VDoc.
  - now apply facet_total_count.
Qed.

(** C1.  For every non-empty list of partition keys, every time range,
    every skip that is not negative and every positive limit,
    [ListRecordsByGroup] (with arrays decoded as [bson.A], the default of
    the driver and the type it asserts) applies the filter of the query to
    each partition, tags each match with its partition key, puts the matches
    of all partitions together, sorts them by key in descending order, and
    applies the skip and the limit of the caller once to the sorted whole:
    the page is the [limit] records after the first [skip] of them.  The
    total is the number of all matches, the sum over the partitions (as long
    as it fits the int32 the function reads).  A query that gives no skip is
    answered with skip 0 and one that gives no limit with limit 20, and so
    is the nil query.  A time range [t0, t1] accepts exactly the keys with
    t0 <= key <= t1.  With partitions of 5, 0 and 3 matching records and
    limit 4 it returns the 4 most recent of the 8 and total 8, and with
    skip 2 besides the 4 that follow the 2 most recent. *)
Theorem C1_ListRecordsByGroup :
  (forall (db : Database) (boxIDs : list string) (time : list Z)
          (skip limit : Z),
      let query := Some {| Time := time; Limit := Some limit;
                           Skip := Some skip |} in
      boxIDs <> [] ->
      0 <= skip ->
      0 < limit ->
      Z.of_nat (length (merged db query boxIDs)) <= Conv.max_int32 ->
      exists sorted : list Record,
        Permutation sorted (merged db query boxIDs) /\
        key_descending sorted /\
        ListRecordsByGroup BsonA db boxIDs query
        = Ok {| Records :=
                  presented <$> take (Z.to_nat limit)
                                  (drop (Z.to_nat skip) sorted);
                Total := Z.of_nat (length (merged db query boxIDs)) |} /\
        length (merged db query boxIDs)
        = sum_list (List.map
                      (fun boxID => length (partition_matches db query boxID))
                      boxIDs)) /\
  (forall (db : Database) (boxIDs : list string) (query : option QueryRecord),
      let skip := default 0 (q ← query; Skip q) in
      let limit := default 20 (q ← query; Limit q) in
      boxIDs <> [] ->
      0 <= skip ->
      0 < limit ->
      Z.of_nat (length (merged db query boxIDs)) <= Conv.max_int32 ->
      exists sorted : list Record,
        Permutation sorted (merged db query boxIDs) /\
        key_descending sorted /\
        ListRecordsByGroup BsonA db boxIDs query
        = Ok {| Records :=
                  presented <$> take (Z.to_nat limit)
                                  (drop (Z.to_nat skip) sorted);
                Total := Z.of_nat (length (merged db query boxIDs)) |} /\
        length (merged db query boxIDs)
        = sum_list (List.map
                      (fun boxID => length (partition_matches db query boxID))
                      boxIDs)) /\
  (forall (reg : ArrayType) (db : Database) (query : option QueryRecord),
      ListRecordsByGroup reg db [] query = Ok {| Records := []; Total := 0 |}) /\
  (forall (t0 t1 : Z) (limit skip : option Z) (d : Record) (n : Z),
      d !! "_id" = Some (VInt64 n) ->
      matches (time_filter ∅ (Some {| Time := [t0; t1]; Limit := limit;
                                      Skip := skip |})) d = true
      <-> t0 <= n <= t1) /\
  ListRecordsByGroup BsonA scenario_db ["a"; "b"; "c"] scenario_query
  = Ok {| Records := scenario_page; Total := 8 |} /\
  ListRecordsByGroup BsonA scenario_db ["a"; "b"; "c"]
    (Some {| Time := [1700000000; 1700003000]; Limit := Some 4;
             Skip := Some 2 |})
  = Ok {| Records := [ returned "c" 1700002100 7; returned "a" 1700001800 4;
                       returned "a" 1700001200 3; returned "a" 1700000600 2 ];
          Total := 8 |}.
Proof.
  split; [|split; [|split; [|split; [|split]]]].
  - intros db boxIDs time skip limit query.
    now apply ListRecordsByGroup_page.
  - intros db boxIDs query skip limit.
    apply ListRecordsByGroup_page.
    + unfold skip, query_skip. now destruct query.
    + unfold limit, query_limit. now destruct query.
  - reflexivity.
  - exact time_filter_inclusive.
  - vm_compute. reflexivity.
  - vm_compute. reflexivity.
Qed.

(** C1 used on the scenario of partitions with 5, 0 and 3 records, with
    skip 2 and limit 4. *)
Lemma C1_ListRecordsByGroup_witness :
  let query := Some {| Time := [1700000000; 1700003000]; Limit := Some 4;
                       Skip := Some 2 |} in
  exists sorted : list Record,
    Permutation sorted (merged scenario_db query ["a"; "b"; "c"]) /\
    key_descending sorted /\
    ListRecordsByGroup BsonA scenario_db ["a"; "b"; "c"] query
    = Ok {| Records := presented <$> take 4 (drop 2 sorted); Total := 8 |} /\
    length (merged scenario_db query ["a"; "b"; "c"])
    = sum_list [5; 0; 3]%nat.
Proof.
  apply (proj1 C1_ListRecordsByGroup scenario_db ["a"; "b"; "c"]
           [1700000000; 1700003000] 2 4).
  - discriminate.
  - lia.
  - lia.
  - vm_compute. discriminate.
Defined.

End MergeClaims.

(** ** The daily rollup with arrays decoded as slices *)

Section DailyRows.
Import domain mongo mongodb rollup PipelineFacts RollupFacts GroupFacts.
Import DailyFacts DailyReportFacts Float64 Float64Order.

Lemma Forall2_dated (Q : string -> DailyReport -> Prop) (l : list string)
    (rs : list DailyReport) :
  Forall2 (fun s r => Date r = s /\ Q s r) l rs ->
  Date <$> rs = l /\ Forall (fun r => Q (Date r) r) rs.
Proof.
  induction 1 as [|s r l rs [Hd Hq] _ [IHd IHq]].
  - split; [reflexivity | constructor].
  - split.
    + rewrite fmap_cons. now f_equal.
    + constructor; [now rewrite Hd | assumption].
Qed.

Lemma record_date_of_key (d : Record) (n : Z) :
  d !! "_id" = Some (VInt64 n) ->
  Conv.fits (n * 1000) = true ->
  0 <= (date_of_millis (n * 1000)).1.1 <= 9999 ->
  record_date d = Some (format_date (date_of_millis (n * 1000))).
Proof.
  intros Hid Hfit Hy. unfold record_date, date_expr, e_dateToString.
  unfold e_toDate, e_multiply, e_field, e_lit. rewrite Hid.
  cbn [mbind outcome_bind]. unfold mul_values.
  cbn [is_null orb int_of_value is_int32 andb]. rewrite Hfit.
  cbn [mbind outcome_bind].
  destruct (Z.leb_spec 0 (date_of_millis (n * 1000)).1.1); [|lia].
  destruct (Z.leb_spec (date_of_millis (n * 1000)).1.1 9999); [|lia].
  reflexivity.
Qed.

(** What [ReportRecords] computes when the registry of the client decodes
    arrays as [[]interface{}], the type it asserts (the default of the driver
    is [bson.A], see [ReportRecords_BsonA_panics]).  For a partition whose
    matching records all have a key from which a date can be derived, it
    gives one row per calendar date (UTC) that occurs, in ascending order of
    date; the row's count is the number of records of the date; for every
    field other than [_id], [c] and [date], over the records of the date
    where the field is a float64, avg is [round2(sum/count)] with that
    field's own count, and min and max are the least and the greatest value,
    each rounded to 2 decimals (not the raw values).  For a date of N
    records that all carry the field, that count is N.  The date of a
    record with the integer key n is the UTC day of the second n. *)
Lemma ReportRecords_rows_as_slices :
  (forall (db : Database) (boxID : string) (query : option QueryRecord),
      let matched := daily_matches db query boxID in
      Forall (fun d => is_Some (record_date d)) matched ->
      Z.of_nat (length matched) <= Conv.max_int32 ->
      exists reports : list DailyReport,
        ReportRecords InterfaceSlice db boxID query = Ok reports /\
        Date <$> reports = dates_of matched /\
        Sorted (fun a b => String.compare a b = Lt) (dates_of matched) /\
        (forall s : string,
            In s (dates_of matched)
            <-> exists d, In d matched /\ record_date d = Some s) /\
        Forall
          (fun r =>
             Count r = Z.of_nat (length (bucket (Date r) matched)) /\
             forall key : string,
               ~ reserved key ->
               Avg r !! key
               = match field_values key (bucket (Date r) matched) with
                 | [] => None
                 | vs =>
                     Some (RoundValue
                             (fsum vs
                              / Conv.float64_of_int (Z.of_nat (length vs))))
                 end /\
               Min r !! key
               = RoundValue <$> fmin (field_values key (bucket (Date r) matched)) /\
               Max r !! key
               = RoundValue <$> fmax (field_values key (bucket (Date r) matched)))
          reports) /\
  (forall (vs : list float) (m : float),
      Forall number vs -> fmin vs = Some m ->
      In m vs /\ Forall (fle m) vs) /\
  (forall (vs : list float) (m : float),
      Forall number vs -> fmax vs = Some m ->
      In m vs /\ Forall (fun v => fle v m) vs) /\
  (forall (key : string) (l : list Record),
      Forall (fun d : Record => exists f, d !! key = Some (VFloat64 f)) l ->
      length (field_values key l) = length l) /\
  (forall (d : Record) (n : Z),
      d !! "_id" = Some (VInt64 n) ->
      Conv.fits (n * 1000) = true ->
      0 <= (date_of_millis (n * 1000)).1.1 <= 9999 ->
      record_date d = Some (format_date (date_of_millis (n * 1000)))).
Proof.
  split; [|split; [exact fmin_least | split;
                     [exact fmax_greatest | split;
                        [exact field_values_all | exact record_date_of_key]]]].
  intros db boxID query matched Hdated Hfit.
  unfold ReportRecords, Aggregate.
  rewrite (daily_pipeline db boxID query Hdated). fold matched. simpl mbind.
  unfold cursor_All. rewrite traverse_fmap, traverse_fmap.
  destruct (traverse_exists
              (fun s => daily_report (decode InterfaceSlice
                                        <$> daily_group matched s))
              (fun s r =>
                 Date r = s /\
                 (Count r = Z.of_nat (length (bucket s matched)) /\
                  forall key : string,
                    ~ reserved key ->
                    Avg r !! key
                    = match field_values key (bucket s matched) with
                      | [] => None
                      | vs =>
                          Some (RoundValue
                                  (fsum vs
                                   / Conv.float64_of_int
                                       (Z.of_nat (length vs))))
                      end /\
                    Min r !! key
                    = RoundValue <$> fmin (field_values key (bucket s matched)) /\
                    Max r !! key
                    = RoundValue <$> fmax (field_values key (bucket s matched))))
              (dates_of matched))
    as (reports & Hrun & Hrows).
  { intros s _.
    destruct (daily_report_group matched s Hfit) as (r & Hr & Hd & Hc & Hk).
    exists r. repeat split; try assumption; now apply Hk. }
  exists reports. split; [exact Hrun|].
  apply Forall2_dated in Hrows. destruct Hrows as [Hdates Hall].
  split; [exact Hdates|]. split; [apply dates_of_ascending|].
  split; [intros s; now apply dates_of_In | exact Hall].
Qed.

(** The rows of the partition with the one record of value 1.234. *)
Lemma ReportRecords_rows_as_slices_example :
  exists reports : list DailyReport,
    ReportRecords InterfaceSlice one_reading_db "a" None = Ok reports /\
    Date <$> reports = ["2023-11-14"] /\
    Forall (fun r => Count r = 1 /\
                     Avg r !! "T" = Some 1.23%float /\
                     Min r !! "T" = Some 1.23%float /\
                     Max r !! "T" = Some 1.23%float) reports.
Proof.
  assert (Em : daily_matches one_reading_db None "a"
               = [ <["_id" := VInt64 1700000000]> {[ "T" := VFloat64 1.234 ]} ])
    by (vm_compute; reflexivity).
  destruct (proj1 ReportRecords_rows_as_slices one_reading_db "a" None)
    as (reports & Hrun & Hdates & _ & _ & Hall).
  - rewrite Em. repeat constructor. vm_compute. eexists. reflexivity.
  - rewrite Em. vm_compute. discriminate.
  - rewrite Em in Hdates, Hall.
    assert (Ed : dates_of [ <["_id" := VInt64 1700000000]>
                              ({[ "T" := VFloat64 1.234 ]} : Record) ]
                 = ["2023-11-14"]) by (vm_compute; reflexivity).
    rewrite Ed in Hdates.
    exists reports. split; [exact Hrun|]. split; [exact Hdates|].
    assert (Hd : Forall (fun r => Date r = "2023-11-14") reports).
    { clear Hall Hrun. apply List.Forall_forall. intros r Hin.
      apply (in_map Date) in Hin.
      change (List.map Date reports) with (Date <$> reports) in Hin.
      rewrite Hdates in Hin. destruct Hin as [<-|[]]. reflexivity. }
    rewrite List.Forall_forall in Hall, Hd |- *. intros r Hin.
    destruct (Hall r Hin) as [Hc Hk]. rewrite (Hd r Hin) in Hc, Hk.
    split; [exact Hc|].
    destruct (Hk "T") as (Ha & Hmn & Hmx).
    + intros [H|[H|H]]; discriminate H.
    + rewrite Ha, Hmn, Hmx. repeat split; vm_compute; reflexivity.
Qed.

(** For the date of the one record with the value 1.234 the reported min
    and max are 1.23, not the least and greatest value 1.234. *)
Lemma ReportRecords_min_and_max_are_rounded :
  exists r : DailyReport,
    ReportRecords InterfaceSlice one_reading_db "a" None = Ok [r] /\
    fmin [1.234%float] = Some 1.234%float /\
    fmax [1.234%float] = Some 1.234%float /\
    Min r !! "T" = Some 1.23%float /\
    Max r !! "T" = Some 1.23%float /\
    PrimFloat.eqb 1.23 1.234 = false.
Proof.
  eexists. split; [vm_compute; reflexivity|].
  repeat split; vm_compute; reflexivity.
Qed.

(** With arrays decoded as [bson.A], the default of the driver and the type
    [ListRecordsByGroup] asserts, the unchecked assertion
    [result["data"].([]interface{})] of [ReportRecords] panics as soon as
    there is a group. *)
Lemma ReportRecords_BsonA_panics :
  ReportRecords BsonA one_reading_db "a" None
  = Panic "interface conversion: interface {} is not []interface {}".
Proof. vm_compute. reflexivity. Qed.

End DailyRows.

(** ** The monthly rollup with arrays decoded as slices *)

Section MonthlyRows.
Import domain mongo mongodb rollup PipelineFacts RollupFacts GroupFacts.
Import DailyReportFacts MonthlyFacts.

(** What [ReportByMetric] computes when the registry of the client decodes
    arrays as [[]interface{}], the type it asserts (the default of the driver
    is [bson.A], see [ReportByMetric_BsonA_panics]).  It handles each
    partition on its own: it groups the records that have the time field [t]
    by the (year, month) derived in UTC from [t], and for each requested
    metric gives one row per partition, month and metric when the metric has
    at least one float64 value in the month; the row's total is the sum of
    those values, rounded to 2 decimals, and the row's count is the number
    of records of the month, whether or not they carry the metric.
    Combinations with no value give no row, and the rows of the partitions
    follow each other unmerged.  The months of a partition come in the order
    of their first record, which is the order [group] gives them; the
    server promises no order. *)
Lemma ReportByMetric_rows_as_slices :
  (forall (db : Database) (sources metrics : list string),
      (forall source : string,
          In source sources ->
          Forall (fun d => is_Some (record_month d)) (monthly_matches db source) /\
          Z.of_nat (length (monthly_matches db source)) <= Conv.max_int32) ->
      ReportByMetric InterfaceSlice db sources metrics
      = Ok (flat_map
              (fun source =>
                 flat_map (month_rows metrics (monthly_matches db source))
                          (months_of (monthly_matches db source)))
              sources)) /\
  (forall (matched : list Record),
      List.NoDup (months_of matched) /\
      forall ym : Z * Z,
        In ym (months_of matched) <-> In ym (month_of <$> matched)) /\
  (forall (metrics : list string) (matched : list Record) (ym : Z * Z)
          (row : Report),
      In row (month_rows metrics matched ym)
      <-> exists (metric : string) (v : float) (vs : list float),
            In metric metrics /\
            field_values metric (month_bucket ym matched) = v :: vs /\
            row = {| InfoMonth := ym.2;
                     InfoYear := ym.1;
                     InfoMetric := metric;
                     ReportCount := Z.of_nat (length (month_bucket ym matched));
                     ReportTotal := RoundValue (fsum (v :: vs)) |}) /\
  (forall (d : Record) (t : Z),
      d !! "t" = Some (VInt64 t) ->
      Conv.fits (t * 1000) = true ->
      let ymd := date_of_millis (t * 1000) in
      Conv.min_int32 <= ymd.1.1 <= Conv.max_int32 ->
      Conv.min_int32 <= ymd.1.2 <= Conv.max_int32 ->
      record_month d = Some (ymd.1.1, ymd.1.2)).
Proof.
  split; [|split; [|split]].
  - intros db sources metrics Hsrc. unfold ReportByMetric.
    rewrite (traverse_Ok _
      (fun source =>
         flat_map (month_rows metrics (monthly_matches db source))
                  (months_of (monthly_matches db source)))).
    + simpl mbind. now rewrite flat_map_concat_map.
    + intros source Hin. destruct (Hsrc source Hin) as [Hdated Hfit].
      now apply source_reports_rows.
  - intros matched. split.
    + apply group_keys_NoDup. apply month_eqb_eq.
    + intros ym. apply (group_keys_In_iff month_eqb month_eqb_eq).
  - intros metrics matched ym row. unfold month_rows.
    rewrite <- list_elem_of_In, list_elem_of_omap. split.
    + intros (metric & Hin & Hrow). apply list_elem_of_In in Hin.
      destruct (field_values metric (month_bucket ym matched)) as [|v vs] eqn:E;
        [discriminate|].
      injection Hrow as <-. now exists metric, v, vs.
    + intros (metric & v & vs & Hin & E & ->). exists metric.
      split; [now apply list_elem_of_In|]. now rewrite E.
  - intros d t Ht Hfit ymd Hy Hm. unfold record_month, e_year, e_month.
    unfold time_expr, e_toDate, e_multiply, e_field, e_lit. rewrite Ht.
    cbn [mbind outcome_bind]. unfold mul_values.
    cbn [is_null orb int_of_value is_int32 andb].
    rewrite Hfit. cbn [mbind outcome_bind]. fold ymd.
    rewrite !int_value_int32_range by assumption. reflexivity.
Qed.

(** The rows of the partition of one month with two records. *)
Lemma ReportByMetric_rows_as_slices_example :
  ReportByMetric InterfaceSlice two_readings_db ["a"] ["x"; "y"]
  = Ok [ {| InfoMonth := 11; InfoYear := 2023; InfoMetric := "x";
            ReportCount := 2; ReportTotal := 4 |};
         {| InfoMonth := 11; InfoYear := 2023; InfoMetric := "y";
            ReportCount := 2; ReportTotal := 2 |} ].
Proof.
  rewrite (proj1 ReportByMetric_rows_as_slices two_readings_db ["a"] ["x"; "y"]).
  - vm_compute. reflexivity.
  - intros source [<-|[]]. split.
    + apply List.Forall_forall. intros d Hin. vm_compute in Hin.
      destruct Hin as [<-|[<-|[]]]; vm_compute; eexists; reflexivity.
    + vm_compute. discriminate.
Qed.

(** In the month that has two records, of which one carries "y", the row
    of "y" has count 2, not the 1 occurrence of "y". *)
Lemma ReportByMetric_count_is_the_bucket_count :
  exists row : Report,
    ReportByMetric InterfaceSlice two_readings_db ["a"] ["y"] = Ok [row] /\
    InfoMetric row = "y" /\
    ReportCount row = 2 /\
    length (field_values "y" (monthly_matches two_readings_db "a")) = 1%nat.
Proof.
  eexists. split; [vm_compute; reflexivity|].
  repeat split; vm_compute; reflexivity.
Qed.

(** With arrays decoded as [bson.A], the default of the driver, the
    unchecked assertion [result["data"].([]interface{})] of
    [ReportByMetric] panics as soon as there is a group. *)
Lemma ReportByMetric_BsonA_panics :
  ReportByMetric BsonA two_readings_db ["a"] ["y"]
  = Panic "interface conversion: interface {} is not []interface {}".
Proof. vm_compute. reflexivity. Qed.

End MonthlyRows.

(** ** Further properties of the curves and of the calculator *)

Section CurveProperties.
Import domain interpolation service Float64 Float64Order CurveFacts.

(** The loop of [Interpolate] on points in any order: it stops at the first
    segment that brackets [x]. *)
Lemma find_segment_numbers (pts : list (Point float)) (p0 : Point float)
    (x : float) :
  (2 <= length pts)%nat ->
  Forall (fun p => number (X p)) pts ->
  flt (X (hd p0 pts)) x ->
  flt x (X (List.last pts p0)) ->
  exists p1 p2,
    consecutive pts p1 p2 /\ flt (X p1) x /\ fle x (X p2) /\
    find_segment pts x = segment_value p1 p2 x.
Proof.
  revert p0.
  induction pts as [|p1 [|p2 rest] IH]; intros p0 Hlen Hnum Hlo Hhi;
    simpl in Hlen; try lia.
  simpl in Hlo.
  assert (L1 : PrimFloat.leb (X p1) x = true) by now apply flt_fle.
  destruct (PrimFloat.leb x (X p2)) eqn:E2.
  - exists p1, p2. split; [exists [], rest; reflexivity|].
    repeat split; try assumption.
    simpl. now rewrite L1, E2.
  - destruct rest as [|p3 rest].
    + simpl in Hhi. apply flt_fle in Hhi. unfold fle in Hhi. congruence.
    + inversion Hnum as [|? ? _ Hnum']; subst.
      assert (N2 : number (X p2)) by now inversion Hnum'.
      destruct (IH p0) as (q1 & q2 & (l1 & l2 & Hc) & Hq); try assumption.
      * simpl. lia.
      * simpl. apply not_fle_flt; try assumption.
        eapply flt_number_r; exact Hlo.
      * exists q1, q2. split.
        -- exists (p1 :: l1), l2. now rewrite Hc.
        -- change (find_segment (p1 :: p2 :: p3 :: rest) x)
             with (if nleb (X p1) x && nleb x (X p2)
                   then segment_value p1 p2 x
                   else find_segment (p2 :: p3 :: rest) x).
           simpl nleb. now rewrite L1, E2.
Qed.

(** X1.  On every curve of at least two points whose X are numbers, in
    whatever order the points are (the field [Points] can be set without
    [NewCurve]), and for every number [x], [Interpolate] returns the first Y
    (when x is at or below the first X), the last Y (when x is at or above
    the last X), or the value on a segment of two consecutive points with
    x1 < x <= x2: the final [return 0] is not reached. *)
Theorem X1_Interpolate_on_numbers (c : Curve float) (p0 : Point float)
    (x : float) :
  (2 <= length (Points c))%nat ->
  Forall (fun p => number (X p)) (Points c) ->
  number x ->
  (fle x (X (hd p0 (Points c))) /\ Interpolate c x = Y (hd p0 (Points c))) \/
  (flt (X (hd p0 (Points c))) x /\ fle (X (List.last (Points c) p0)) x /\
   Interpolate c x = Y (List.last (Points c) p0)) \/
  (flt (X (hd p0 (Points c))) x /\ flt x (X (List.last (Points c) p0)) /\
   exists p1 p2,
     consecutive (Points c) p1 p2 /\ flt (X p1) x /\ fle x (X p2) /\
     Interpolate c x
     = (Y p1 + (x - X p1) * (Y p2 - Y p1) / (X p2 - X p1))%float).
Proof.
  intros Hlen Hnum Nx. unfold Interpolate.
  destruct (Points c) as [|q0 [|q1 rest]] eqn:E; simpl in Hlen; try lia.
  assert (N0 : number (X q0)) by now inversion Hnum.
  assert (Nl : number (X (List.last (q0 :: q1 :: rest) p0))).
  { rewrite List.Forall_forall in Hnum. apply Hnum.
    destruct (@List.exists_last _ (q0 :: q1 :: rest) ltac:(discriminate))
      as (l' & a & Hl).
    rewrite Hl, List.last_last. apply List.in_or_app. right. now left. }
  cbn [hd nleb float64_Num].
  destruct (PrimFloat.leb x (X q0)) eqn:E0; [left; now split|].
  assert (Hlo : flt (X q0) x) by now apply not_fle_flt.
  right.
  replace (List.last (q0 :: q1 :: rest) q0)
    with (List.last (q0 :: q1 :: rest) p0)
    by (apply last_nonempty; discriminate).
  cbv zeta.
  destruct (PrimFloat.leb (X (List.last (q0 :: q1 :: rest) p0)) x) eqn:E1;
    [left; now repeat split|].
  assert (Hhi : flt x (X (List.last (q0 :: q1 :: rest) p0)))
    by now apply not_fle_flt.
  right. repeat split; try assumption.
  destruct (find_segment_numbers (q0 :: q1 :: rest) p0 x)
    as (p1 & p2 & Hc & H1 & H2 & Hv); try assumption.
  exists p1, p2. repeat split; assumption.
Qed.

(** X1 on the points (0,0), (8,1), (2,5), (10,3), which are not in order,
    at x = 9: the segment from (2,5) to (10,3) is the first that brackets
    it. *)
Lemma X1_Interpolate_on_numbers_witness :
  let c := mkCurve [mkPoint 0 0; mkPoint 8 1; mkPoint 2 5; mkPoint 10 3]%float in
  ((fle 9 0 /\ Interpolate c 9%float = 0%float) \/
   (flt 0 9 /\ fle 10 9 /\ Interpolate c 9%float = 3%float) \/
   (flt 0 9 /\ flt 9 10 /\
    exists p1 p2,
      consecutive (Points c) p1 p2 /\ flt (X p1) 9 /\ fle 9 (X p2) /\
      Interpolate c 9%float
      = (Y p1 + (9 - X p1) * (Y p2 - Y p1) / (X p2 - X p1))%float)) /\
  Interpolate c 9%float = 3.25%float.
Proof.
  intros c. split.
  - apply (X1_Interpolate_on_numbers c (mkPoint 0 0)%float 9%float).
    + unfold c. simpl. lia.
    + unfold c. repeat constructor.
    + reflexivity.
  - reflexivity.
Defined.

Lemma find_segment_NaN (pts : list (Point float)) (x : float) :
  ~ number x -> find_segment pts x = 0%float.
Proof.
  intros Nx. induction pts as [|p1 [|p2 rest] IH]; try reflexivity.
  change (find_segment (p1 :: p2 :: rest) x)
    with (if nleb (X p1) x && nleb x (X p2)
          then segment_value p1 p2 x
          else find_segment (p2 :: rest) x).
  simpl nleb. destruct (PrimFloat.leb (X p1) x) eqn:E; [|exact IH].
  exfalso. apply Nx. eapply fle_number_r. exact E.
Qed.

(** X2.  On a curve of at least two points [Interpolate] returns 0 for an
    [x] that is not a number (NaN): no comparison with NaN holds, so neither
    clamp applies and no segment brackets it. *)
Theorem X2_Interpolate_NaN (c : Curve float) (x : float) :
  (2 <= length (Points c))%nat -> ~ number x -> Interpolate c x = 0%float.
Proof.
  intros Hlen Nx. unfold Interpolate.
  destruct (Points c) as [|q0 [|q1 rest]] eqn:E; simpl in Hlen; try lia.
  cbn [nleb float64_Num].
  destruct (PrimFloat.leb x (X q0)) eqn:E0.
  { exfalso. apply Nx. eapply fle_number_l. exact E0. }
  cbv zeta.
  destruct (PrimFloat.leb (X (List.last (q0 :: q1 :: rest) q0)) x) eqn:E1.
  { exfalso. apply Nx. eapply fle_number_r. exact E1. }
  now apply find_segment_NaN.
Qed.

(** X2 on the default volume curve. *)
Lemma X2_Interpolate_NaN_witness :
  Interpolate (VolumeCurve NewHydraulicCalculator) PrimFloat.nan = 0%float.
Proof.
  apply X2_Interpolate_NaN.
  - vm_compute. lia.
  - vm_compute. discriminate.
Defined.

(** Sorting points that are in increasing order of X moves none. *)
Lemma insert_back_sorted (acc pts : list (Point float)) :
  strictly_ascending (rev acc ++ pts) ->
  foldl (fun rprefix p => insert_back less_by_X p rprefix) acc pts
  = rev pts ++ acc.
Proof.
  revert acc. induction pts as [|p pts IH]; intros acc Hs; [reflexivity|].
  cbn [foldl].
  assert (Hins : insert_back less_by_X p acc = p :: acc).
  { destruct acc as [|e acc]; [reflexivity|]. simpl.
    assert (Hep : flt (X e) (X p)).
    { revert Hs. simpl. rewrite <- app_assoc. simpl.
      generalize (rev acc). intros l Hs.
      induction l as [|a [|b l] IHl]; simpl in Hs.
      - exact (proj1 Hs).
      - exact (proj1 (proj2 Hs)).
      - apply IHl. exact (proj2 Hs). }
    unfold less_by_X. simpl nltb.
    rewrite (fle_not_flt _ _ (flt_fle _ _ Hep)). reflexivity. }
  rewrite Hins, IH.
  - simpl. now rewrite <- app_assoc.
  - simpl. now rewrite <- app_assoc.
Qed.

(** X3.  [NewCurve] leaves points that are given in increasing order of X as
    they are. *)
Theorem X3_NewCurve_keeps_sorted_points (points : list (Point float)) :
  strictly_ascending points -> NewCurve points = mkCurve points.
Proof.
  intros Hs. unfold NewCurve, sort_Slice.
  rewrite insert_back_sorted by exact Hs.
  now rewrite app_nil_r, rev_involutive.
Qed.

(** X3 on the points of the default volume curve. *)
Lemma X3_NewCurve_keeps_sorted_points_witness :
  VolumeCurve NewHydraulicCalculator
  = mkCurve [ mkPoint 0 0; mkPoint 1 0.5; mkPoint 2 1.2;
              mkPoint 3 2.1; mkPoint 4 3.2; mkPoint 5 4.5 ]%float.
Proof.
  apply (X3_NewCurve_keeps_sorted_points
           [ mkPoint 0 0; mkPoint 1 0.5; mkPoint 2 1.2;
             mkPoint 3 2.1; mkPoint 4 3.2; mkPoint 5 4.5 ]%float).
  simpl. repeat split; reflexivity.
Defined.

Lemma GetFloat_lookup (r r' : Record) (key : string) :
  r' !! key = r !! key -> GetFloat r' key = GetFloat r key.
Proof. unfold GetFloat. now intros ->. Qed.

(** X4.  [applyInterpolation] is idempotent: the derived fields are
    computed from [WAU] and [DR] alone, which it does not write, so applying
    it to its own result changes nothing. *)
Theorem X4_applyInterpolation_idempotent (Pow : float -> float -> float)
    (calculator : HydraulicCalculator) (record : Record) :
  applyInterpolation Pow calculator
    (applyInterpolation Pow calculator record)
  = applyInterpolation Pow calculator record.
Proof.
  destruct (GetFloat record "WAU" =? 0)%float eqn:Ew.
  { assert (E : applyInterpolation Pow calculator record = record)
      by (unfold applyInterpolation; now rewrite Ew).
    now rewrite !E. }
  set (wau := GetFloat record "WAU") in *.
  set (v := VFloat64 (RoundValue (CalculateWaterIndex calculator wau))).
  set (qof := VFloat64 (RoundValue (CalculateWaterOverFlow Pow calculator wau))).
  assert (Hdr : forall v', GetFloat (<["V" := v']> record) "DR"
                           = GetFloat record "DR")
    by (intros v'; apply GetFloat_lookup; now rewrite lookup_insert_ne).
  set (dr := GetFloat record "DR") in *.
  set (q := VFloat64 (RoundValue (CalculateWaterFlow calculator wau dr))).
  set (r1 := <["Q_of" := qof]>
               (if (0 <? dr)%float then <["Q" := q]> (<["V" := v]> record)
                else <["V" := v]> record)).
  assert (E1 : applyInterpolation Pow calculator record = r1).
  { unfold applyInterpolation. fold wau. rewrite Ew. cbv zeta.
    rewrite Hdr. reflexivity. }
  rewrite E1.
  assert (Hwau : GetFloat r1 "WAU" = wau).
  { apply GetFloat_lookup. unfold r1.
    rewrite lookup_insert_ne by discriminate.
    destruct (0 <? dr)%float;
      repeat (rewrite lookup_insert_ne by discriminate); reflexivity. }
  assert (Hdr1 : forall v', GetFloat (<["V" := v']> r1) "DR" = dr).
  { intros v'. apply GetFloat_lookup. unfold r1.
    rewrite !lookup_insert_ne by discriminate.
    destruct (0 <? dr)%float;
      repeat (rewrite lookup_insert_ne by discriminate); reflexivity. }
  unfold applyInterpolation. rewrite Hwau, Ew. cbv zeta. rewrite Hdr1.
  fold v qof q.
  apply map_eq. intros k. unfold r1.
  destruct (decide (k = "Q_of")) as [->|Hqof].
  { now rewrite !lookup_insert_eq. }
  rewrite (lookup_insert_ne _ "Q_of" k) by congruence.
  destruct (0 <? dr)%float.
  - destruct (decide (k = "Q")) as [->|Hq].
    { rewrite lookup_insert_eq.
      rewrite (lookup_insert_ne _ "Q_of" "Q") by discriminate.
      now rewrite lookup_insert_eq. }
    rewrite (lookup_insert_ne _ "Q" k) by congruence.
    destruct (decide (k = "V")) as [->|Hv].
    { rewrite lookup_insert_eq.
      rewrite (lookup_insert_ne _ "Q_of" "V") by discriminate.
      rewrite (lookup_insert_ne _ "Q" "V") by discriminate.
      now rewrite lookup_insert_eq. }
    rewrite (lookup_insert_ne _ "V" k) by congruence.
    rewrite (lookup_insert_ne _ "Q_of" k) by congruence.
    rewrite (lookup_insert_ne _ "Q" k) by congruence.
    reflexivity.
  - destruct (decide (k = "V")) as [->|Hv].
    { rewrite lookup_insert_eq.
      rewrite (lookup_insert_ne _ "Q_of" "V") by discriminate.
      now rewrite lookup_insert_eq. }
    rewrite (lookup_insert_ne _ "V" k) by congruence.
    rewrite (lookup_insert_ne _ "Q_of" k) by congruence.
    reflexivity.
Qed.

End CurveProperties.

(** ** Properties of the pagination *)

Section PaginationProperties.
Import domain.

Lemma wrap64_fits (z : Z) :
  Conv.min_int64 <= z <= Conv.max_int64 -> Conv.wrap64 z = z.
Proof.
  unfold Conv.wrap64, Conv.min_int64, Conv.max_int64. intros Hz.
  rewrite Z.mod_small; lia.
Qed.

Lemma NewPagination_Page (page pageSize : Z) :
  Page (NewPagination page pageSize) = Z.max 1 page.
Proof. unfold NewPagination. cbn [Page]. destruct (Z.ltb_spec page 1); lia. Qed.

Lemma NewPagination_PageSize (page pageSize : Z) :
  PageSize (NewPagination page pageSize) = PageSize (NewPagination 1 pageSize)
  /\ 1 <= PageSize (NewPagination page pageSize) <= 100
  /\ (1 <= pageSize <= 100 -> PageSize (NewPagination page pageSize) = pageSize).
Proof.
  unfold NewPagination. cbn [PageSize].
  destruct (Z.ltb_spec pageSize 1); [simpl; lia|].
  destruct (Z.ltb_spec 100 pageSize); lia.
Qed.

Lemma GetSkip_exact (page pageSize : Z) :
  page <= 92233720368547758 ->
  GetSkip (NewPagination page pageSize)
  = (Z.max 1 page - 1) * PageSize (NewPagination page pageSize).
Proof.
  intros Hp. unfold GetSkip. rewrite NewPagination_Page.
  destruct (NewPagination_PageSize page pageSize) as (_ & Hs & _).
  set (S := PageSize (NewPagination page pageSize)) in *.
  rewrite (wrap64_fits (Z.max 1 page - 1))
    by (unfold Conv.min_int64, Conv.max_int64; lia).
  apply wrap64_fits. unfold Conv.min_int64, Conv.max_int64. nia.
Qed.

(** The number of pages [NewPaginatedResponse] computes. *)
Lemma NewPaginatedResponse_Ok {D F : Type} (data : D) (filter : F)
    (page pageSize totalItems : Z) :
  1 <= pageSize ->
  0 <= totalItems <= Conv.max_int64 - pageSize ->
  NewPaginatedResponse data page pageSize totalItems filter
  = Ok {| Data := data;
          Meta := {| MetaPage := page;
                     MetaPageSize := pageSize;
                     TotalItems := totalItems;
                     TotalPages :=
                       Z.max 1 ((totalItems + pageSize - 1) / pageSize);
                     MetaFilter := filter |} |}.
Proof.
  intros Hps Htotal. unfold NewPaginatedResponse.
  destruct (Z.eqb_spec pageSize 0) as [|Hnz]; [lia|].
  assert (Hmax : Conv.max_int64 = 9223372036854775807) by reflexivity.
  rewrite (wrap64_fits (totalItems + pageSize))
    by (unfold Conv.min_int64; lia).
  rewrite (wrap64_fits (totalItems + pageSize - 1))
    by (unfold Conv.min_int64; lia).
  rewrite Z.quot_div_nonneg by lia.
  assert (Hq : 0 <= (totalItems + pageSize - 1) / pageSize <= totalItems
                    + pageSize - 1).
  { split; [apply Z.div_pos; lia|].
    apply Z.div_le_upper_bound; nia. }
  rewrite wrap64_fits by (unfold Conv.min_int64; lia).
  destruct (Z.ltb_spec ((totalItems + pageSize - 1) / pageSize) 1);
    do 3 f_equal; lia.
Qed.

Lemma total_pages_spec (pageSize totalItems : Z) :
  1 <= pageSize -> 0 <= totalItems ->
  let totalPages := Z.max 1 ((totalItems + pageSize - 1) / pageSize) in
  1 <= totalPages /\
  (totalPages - 1) * pageSize < Z.max 1 totalItems <= totalPages * pageSize.
Proof.
  intros Hps Htotal.
  pose proof (Z.div_mod (totalItems + pageSize - 1) pageSize ltac:(lia)) as Hdm.
  pose proof (Z.mod_pos_bound (totalItems + pageSize - 1) pageSize ltac:(lia))
    as Hmod.
  assert (Hq : 0 <= (totalItems + pageSize - 1) / pageSize)
    by (apply Z.div_pos; lia).
  cbv zeta. set (pages := (totalItems + pageSize - 1) / pageSize) in *.
  split; [lia|]. destruct (Z.max_spec 1 pages) as [[? ->]|[? ->]]; nia.
Qed.

(** X5.  Whatever page and page size a request asks for, the pagination
    [NewPagination] makes has a page of at least 1 (the page asked for, when
    that is at least 1) and a limit between 1 and 100 (the size asked for,
    when it is in that range); up to page 92233720368547758 the skip is
    [(page - 1) * size], which is not negative.  Beyond, the product wraps
    around: page 2^57 + 1 of size 100 has a negative skip. *)
Theorem X5_NewPagination_bounds (page pageSize : Z) :
  let p := NewPagination page pageSize in
  (1 <= Page p /\ (1 <= page -> Page p = page)) /\
  (1 <= GetLimit p <= 100 /\ (1 <= pageSize <= 100 -> GetLimit p = pageSize)) /\
  (page <= 92233720368547758 ->
   GetSkip p = (Page p - 1) * GetLimit p /\ 0 <= GetSkip p) /\
  GetSkip (NewPagination (2 ^ 57 + 1) 100) < 0.
Proof.
  cbv zeta. unfold GetLimit.
  destruct (NewPagination_PageSize page pageSize) as (_ & Hs & Hs').
  rewrite NewPagination_Page.
  split; [lia|]. split; [tauto|]. split; [|vm_compute; reflexivity].
  intros Hp. rewrite GetSkip_exact by assumption. split; [reflexivity | nia].
Qed.

(** X5 at page 3 of size 25: skip 50, limit 25. *)
Lemma X5_NewPagination_bounds_witness :
  GetSkip (NewPagination 3 25) = 50 /\ GetLimit (NewPagination 3 25) = 25.
Proof.
  pose proof (X5_NewPagination_bounds 3 25) as H. cbv zeta in H.
  destruct H as (_ & (_ & Hl) & Hs & _).
  split.
  - rewrite (proj1 (Hs ltac:(lia))). vm_compute. reflexivity.
  - apply Hl. lia.
Defined.

(** X6.  For a page size of at least 1 and a number of items that is not
    negative, [NewPaginatedResponse] answers with a number of pages that is
    at least 1 and is the least number of pages of that size that hold all
    the items; with page size 0 it panics on the division. *)
Theorem X6_NewPaginatedResponse_pages {D F : Type} (data : D) (filter : F)
    (page pageSize totalItems : Z) :
  (1 <= pageSize ->
   0 <= totalItems <= Conv.max_int64 - pageSize ->
   exists totalPages : Z,
     NewPaginatedResponse data page pageSize totalItems filter
     = Ok {| Data := data;
             Meta := {| MetaPage := page;
                        MetaPageSize := pageSize;
                        TotalItems := totalItems;
                        TotalPages := totalPages;
                        MetaFilter := filter |} |} /\
     1 <= totalPages /\
     (totalPages - 1) * pageSize < Z.max 1 totalItems <= totalPages * pageSize) /\
  NewPaginatedResponse data page 0 totalItems filter
  = Panic "runtime error: integer divide by zero".
Proof.
  split; [|reflexivity].
  intros Hps Htotal.
  exists (Z.max 1 ((totalItems + pageSize - 1) / pageSize)).
  split; [now apply NewPaginatedResponse_Ok|].
  apply total_pages_spec; lia.
Qed.

(** X6 on 95 items in pages of 10: 10 pages. *)
Lemma X6_NewPaginatedResponse_pages_witness :
  exists totalPages : Z,
    NewPaginatedResponse tt 1 10 95 tt
    = Ok {| Data := tt;
            Meta := {| MetaPage := 1;
                       MetaPageSize := 10;
                       TotalItems := 95;
                       TotalPages := totalPages;
                       MetaFilter := tt |} |} /\
    1 <= totalPages /\
    (totalPages - 1) * 10 < Z.max 1 95 <= totalPages * 10.
Proof.
  apply (proj1 (X6_NewPaginatedResponse_pages tt tt 1 10 95)).
  - lia.
  - vm_compute. split; discriminate.
Defined.

End PaginationProperties.

(** ** The order of BSON values is transitive *)

Module BsonOrder.
Import domain mongo PipelineFacts.

Lemma string_compare_trans (a b c : string) :
  String.compare a b <> Gt -> String.compare b c <> Gt ->
  String.compare a c <> Gt.
Proof.
  revert b c. induction a as [|x a IH]; intros [|y b] [|z c]; simpl;
    try congruence.
  unfold Ascii.compare.
  destruct (N.compare_spec (N_of_ascii x) (N_of_ascii y)) as [Exy|Hxy|Hxy];
    destruct (N.compare_spec (N_of_ascii y) (N_of_ascii z)) as [Eyz|Hyz|Hyz];
    destruct (N.compare_spec (N_of_ascii x) (N_of_ascii z)) as [Exz|Hxz|Hxz];
    try congruence; try lia.
  apply IH.
Qed.

Lemma numkey_compare_trans (a b c : numkey) :
  numkey_compare a b <> Gt -> numkey_compare b c <> Gt ->
  numkey_compare a c <> Gt.
Proof.
  destruct a as [| |p|], b as [| |q|], c as [| |r|];
    cbv [numkey_compare numkey_rank]; try (cbv; congruence).
  rewrite <- !Qle_alt. apply Qle_trans.
Qed.

Lemma type_rank_le (a b : value) :
  bson_compare a b <> Gt -> type_rank a <= type_rank b.
Proof.
  unfold bson_compare.
  destruct (Z.compare_spec (type_rank a) (type_rank b)); try lia. congruence.
Qed.

Lemma type_rank_lt (a b : value) :
  type_rank a < type_rank b -> bson_compare a b = Lt.
Proof.
  unfold bson_compare. intros H. now apply Z.compare_lt_iff in H as ->.
Qed.

Lemma numkey_of_rank (v : value) :
  type_rank v = 2 <-> exists k, numkey_of v = Some k.
Proof.
  destruct v; simpl; split; try discriminate; eauto;
    intros [k Hk]; discriminate.
Qed.

Lemma bson_compare_numbers (a b : value) (x y : numkey) :
  numkey_of a = Some x -> numkey_of b = Some y ->
  bson_compare a b = numkey_compare x y.
Proof.
  destruct a; try discriminate; destruct b; try discriminate;
    intros [= <-] [= <-]; reflexivity.
Qed.

Lemma bson_compare_trans (a b c : value) :
  bson_compare a b <> Gt -> bson_compare b c <> Gt -> bson_compare a c <> Gt.
Proof.
  intros Hab Hbc.
  pose proof (type_rank_le a b Hab) as Rab.
  pose proof (type_rank_le b c Hbc) as Rbc.
  destruct (Z.eq_dec (type_rank a) (type_rank c)) as [Eac|Nac];
    [|rewrite type_rank_lt by lia; discriminate].
  assert (Eab : type_rank a = type_rank b) by lia.
  clear Rab Rbc.
  destruct (Z.eq_dec (type_rank a) 2) as [E2|N2].
  - destruct (proj1 (numkey_of_rank a) E2) as [x Hx].
    destruct (proj1 (numkey_of_rank b) ltac:(lia)) as [y Hy].
    destruct (proj1 (numkey_of_rank c) ltac:(lia)) as [z Hz].
    rewrite (bson_compare_numbers _ _ _ _ Hx Hy) in Hab.
    rewrite (bson_compare_numbers _ _ _ _ Hy Hz) in Hbc.
    rewrite (bson_compare_numbers _ _ _ _ Hx Hz).
    eapply numkey_compare_trans; eassumption.
  - revert Hab Hbc.
    destruct a; simpl in N2; try lia;
      destruct b; simpl in Eab; try discriminate;
      destruct c; simpl in Eac; try discriminate;
      unfold bson_compare; simpl;
      try congruence;
      try apply string_compare_trans.
    + match goal with
      | |- Bool.compare ?x ?y <> Gt -> Bool.compare _ ?z <> Gt -> _ =>
          destruct x, y, z; simpl; congruence
      end.
    + rewrite !Z.compare_le_iff. lia.
    + rewrite !N.compare_le_iff. lia.
Qed.

Lemma bson_compare_refl (a : value) : bson_compare a a = Eq.
Proof.
  pose proof (bson_compare_antisym a a) as H.
  destruct (bson_compare a a); simpl in H; congruence.
Qed.

(** The comparison [$sort] uses is a total preorder. *)
Lemma sort_le_trans (name : string) (dir : Z) (a b c : Record) :
  dir <> 0 ->
  sort_le name dir a b = true -> sort_le name dir b c = true ->
  sort_le name dir a c = true.
Proof.
  intros Hdir. unfold sort_le.
  set (x := sort_key name a). set (y := sort_key name b).
  set (z := sort_key name c).
  pose proof (bson_compare_trans x y z) as Hup.
  pose proof (bson_compare_trans z y x) as Hdown.
  rewrite (bson_compare_antisym y z), (bson_compare_antisym x y),
    (bson_compare_antisym x z) in Hdown.
  destruct (bson_compare x y), (bson_compare y z), (bson_compare x z),
    (Z.ltb_spec 0 dir), (Z.ltb_spec dir 0); simpl in *;
    try reflexivity; try congruence; try lia;
    try (exfalso; apply Hup; congruence);
    try (exfalso; apply Hdown; congruence).
Qed.

Lemma sort_le_refl (name : string) (dir : Z) (a : Record) :
  sort_le name dir a a = true.
Proof. unfold sort_le. now rewrite bson_compare_refl. Qed.

(** The first element of a sorted list comes before every other. *)
Lemma sort_by_head {A : Type} (le : A -> A -> bool) (l : list A) (h : A)
    (t : list A) :
  (forall a b, le a b = false -> le b a = true) ->
  (forall a b c, le a b = true -> le b c = true -> le a c = true) ->
  sort_by le l = h :: t ->
  In h l /\ forall d, In d l -> le h d = true.
Proof.
  intros Htotal Htrans Hs.
  pose proof (sort_by_Permutation le l) as Hp. rewrite Hs in Hp.
  pose proof (sort_by_Sorted le Htotal l) as Hsorted. rewrite Hs in Hsorted.
  apply Sorted_StronglySorted in Hsorted;
    [|intros a b c; apply Htrans].
  inversion Hsorted as [|? ? _ Hall]; subst.
  split.
  - eapply Permutation_in; [exact Hp | now left].
  - intros d Hd.
    apply (Permutation_in _ (Permutation_sym Hp)) in Hd as [<-|Hd].
    + destruct (le h h) eqn:E; [reflexivity|].
      rewrite (Htotal _ _ E) in E. discriminate.
    + rewrite List.Forall_forall in Hall. now apply Hall.
Qed.

End BsonOrder.

(** ** Properties of the single-partition queries *)

Section ListProperties.
Import domain mongo mongodb merge listing PipelineFacts BsonOrder.

(** The pipeline of the facet [records], whatever skip and limit are. *)
Lemma run_records_pipeline (skip limit : Z) (db : Database)
    (docs : list Record) :
  run [ sort_stage "_id" (-1); skip_stage skip; limit_stage limit;
        addFields "id" (e_field "_id"); unset "_id" ] db docs
  = if skip <? 0 then Err (CommandError "Argument to $skip cannot be negative")
    else if limit <=? 0 then Err (CommandError "the limit must be positive")
    else Ok (presented <$> take (Z.to_nat limit)
                             (drop (Z.to_nat skip)
                                (sort_by (sort_le "_id" (-1)) docs))).
Proof.
  destruct (Z.ltb_spec skip 0) as [Hs|Hs].
  { simpl. unfold skip_stage. destruct (Z.ltb_spec skip 0); [reflexivity|lia]. }
  destruct (Z.leb_spec limit 0) as [Hl|Hl].
  { simpl. unfold skip_stage, limit_stage.
    destruct (Z.ltb_spec skip 0); [lia|]. simpl.
    destruct (Z.leb_spec limit 0); [reflexivity|lia]. }
  now apply run_records_facet.
Qed.

Lemma run_facet (pipeline : list stage) (db : Database) (docs : list Record) :
  run [ facet [ ("records", pipeline); ("total", [ count_stage "count" ]) ] ]
      db docs
  = out ← run pipeline db docs; Ok [ facet_doc out (length docs) ].
Proof.
  cbn [run]. unfold facet. cbn [traverse fst snd].
  destruct (run pipeline db docs) as [out| |]; try reflexivity.
  cbn [mbind outcome_bind run]. rewrite count_stage_length.
  reflexivity.
Qed.

Lemma facet_doc_records (reg : ArrayType) (out : list Record) (n : nat) :
  facet_records (cursor_All reg [ facet_doc out n ])
  = match reg with BsonA => out | InterfaceSlice => [] end.
Proof.
  destruct reg.
  - rewrite cursor_All_BsonA. unfold facet_records, facet_doc.
    rewrite lookup_insert_eq. apply omap_VDoc.
  - unfold cursor_All, facet_records, facet_doc. cbn [fmap list_fmap].
    rewrite lookup_fmap, lookup_insert_eq. reflexivity.
Qed.

Lemma facet_doc_total (reg : ArrayType) (out : list Record) (n : nat) :
  facet_total (cursor_All reg [ facet_doc out n ])
  = match reg with
    | BsonA => if Z.of_nat n <=? Conv.max_int32 then Z.of_nat n else 0
    | InterfaceSlice => 0
    end.
Proof.
  destruct reg.
  - rewrite cursor_All_BsonA. unfold facet_total, facet_doc.
    rewrite lookup_insert_ne by discriminate. rewrite lookup_insert_eq.
    destruct n as [|n]; [reflexivity|].
    simpl fmap. cbv iota. rewrite lookup_singleton_eq. unfold int_value.
    destruct (Z.leb_spec Conv.min_int32 (Z.of_nat (S n)));
      [|unfold Conv.min_int32 in *; lia].
    now destruct (Z.leb_spec (Z.of_nat (S n)) Conv.max_int32).
  - unfold cursor_All, facet_total, facet_doc. cbn [fmap list_fmap].
    rewrite lookup_fmap, lookup_insert_ne by discriminate.
    rewrite lookup_insert_eq. reflexivity.
Qed.

(** What [ListRecords] comes to. *)
Lemma ListRecords_run (reg : ArrayType) (db : Database) (boxID : string)
    (query : option QueryRecord) :
  ListRecords reg db boxID query
  = if query_skip query <? 0
    then Err (CommandError "Argument to $skip cannot be negative")
    else if query_limit query <=? 0
    then Err (CommandError "the limit must be positive")
    else
      let matched := partition_matches db query boxID in
      let result :=
        cursor_All reg [
          facet_doc
            (presented <$> take (Z.to_nat (query_limit query))
                             (drop (Z.to_nat (query_skip query))
                                (sort_by (sort_le "_id" (-1)) matched)))
            (length matched) ] in
      Ok (mkRecordsResult (facet_records result) (facet_total result)).
Proof.
  unfold ListRecords, Aggregate.
  change (run (match_stage (time_filter ∅ query) :: ?p) db ?docs)
    with (docs' ← match_stage (time_filter ∅ query) db docs; run p db docs').
  unfold match_stage at 1. cbn [mbind outcome_bind].
  rewrite run_facet, run_records_pipeline.
  fold (partition_matches db query boxID).
  destruct (query_skip query <? 0); [reflexivity|].
  destruct (query_limit query <=? 0); reflexivity.
Qed.

Lemma key_descending_sort (docs : list Record) :
  key_descending (sort_by (sort_le "_id" (-1)) docs).
Proof.
  unfold key_descending.
  eapply Sorted_impl;
    [|apply sort_by_Sorted; intros a b; apply sort_le_total; lia].
  intros a b. unfold sort_le.
  destruct (bson_compare (sort_key "_id" a) (sort_key "_id" b));
    intros Hle; try discriminate; vm_compute in Hle; discriminate.
Qed.



Lemma sort_tagged (boxID : string) (docs : list Record) :
  sort_by (sort_le "_id" (-1)) (tagged boxID <$> docs)
  = tagged boxID <$> sort_by (sort_le "_id" (-1)) docs.
Proof.
  apply (sort_by_map (sort_le "_id" (-1)) (tagged boxID)).
  intros a b. unfold sort_le, sort_key, tagged.
  now rewrite !lookup_insert_ne by discriminate.
Qed.

Lemma presented_tagged (boxID : string) (d : Record) :
  presented (tagged boxID d) = tagged boxID (presented d).
Proof.
  unfold presented, tagged. rewrite lookup_insert_ne by discriminate.
  destruct (d !! "_id") as [v|].
  - rewrite (insert_insert_ne _ "id" "box_id") by discriminate.
    now rewrite delete_insert_ne by discriminate.
  - now rewrite delete_insert_ne by discriminate.
Qed.

(** X8.  [ListRecordsByGroup] on a single partition answers as [ListRecords]
    does on that partition, but for the tag [box_id] on every record and the
    prefix on the error. *)
Theorem X8_ListRecordsByGroup_single (reg : ArrayType) (db : Database)
    (boxID : string) (query : option QueryRecord) :
  ListRecordsByGroup reg db [boxID] query
  = match ListRecords reg db boxID query with
    | Ok result =>
        Ok {| Records := tagged boxID <$> Records result;
              Total := Total result |}
    | Err e => Err (Wrapped "aggregation failed" e)
    | Panic msg => Panic msg
    end.
Proof.
  rewrite ListRecords_run.
  unfold ListRecordsByGroup, Aggregate. cbn [foldl app].
  match goal with
  | |- context [run [?a; ?b; ?c] db ?docs] =>
      change (run [a; b; c] db docs) with (run ([a; b] ++ [c]) db docs)
  end.
  rewrite run_app, run_partition. cbn [mbind outcome_bind].
  rewrite run_facet, run_records_pipeline.
  fold (partition_matches db query boxID).
  destruct (query_skip query <? 0); [reflexivity|].
  destruct (query_limit query <=? 0); [reflexivity|].
  cbv zeta. cbn [mbind outcome_bind].
  rewrite !facet_doc_records, !facet_doc_total, length_fmap, sort_tagged.
  rewrite <- fmap_drop, <- fmap_take, <- !list_fmap_compose.
  cbn [Records Total]. f_equal. f_equal.
  destruct reg; [|reflexivity].
  rewrite <- list_fmap_compose.
  apply list_fmap_ext. intros i d _. apply presented_tagged.
Qed.

Lemma reversed_range_rejects (t0 t1 : Z) (limit skip : option Z) (d : Record) :
  t1 < t0 ->
  matches (time_filter ∅ (Some {| Time := [t0; t1]; Limit := limit;
                                  Skip := skip |})) d = false.
Proof.
  intros Hlt. unfold matches, time_filter. simpl Time. cbv iota.
  rewrite insert_empty, map_to_list_singleton. simpl.
  destruct (d !! "_id") as [v|]; [|reflexivity].
  unfold cond_holds.
  pose proof (bson_compare_trans (VInt64 t0) v (VInt64 t1)) as Htrans.
  rewrite (bson_compare_antisym v (VInt64 t0)) in Htrans.
  assert (Hgt : bson_compare (VInt64 t0) (VInt64 t1) = Gt).
  { unfold bson_compare. simpl. unfold numkey_compare, Qcompare. simpl.
    rewrite !Z.mul_1_r. now apply Z.compare_gt_iff. }
  destruct (type_rank v =? 2); [|reflexivity].
  destruct (bson_compare v (VInt64 t0)), (bson_compare v (VInt64 t1));
    simpl in *; try reflexivity;
    exfalso; apply Htrans; congruence.
Qed.

(** X9.  A time range whose lower bound is above its upper bound matches no
    record: [CountRecords] answers 0 and [ListRecords] answers with no
    record and total 0, neither with an error. *)
Theorem X9_reversed_time_range (reg : ArrayType) (db : Database)
    (boxID : string) (t0 t1 : Z) (limit skip : option Z) :
  t1 < t0 ->
  let query := Some {| Time := [t0; t1]; Limit := limit; Skip := skip |} in
  CountRecords db boxID query = Ok 0 /\
  (0 <= query_skip query -> 0 < query_limit query ->
   ListRecords reg db boxID query = Ok {| Records := []; Total := 0 |}).
Proof.
  intros Hlt query.
  assert (Hnone : partition_matches db query boxID = []).
  { unfold partition_matches, query.
    induction (collection db (getRecordCollection boxID)) as [|d l IH];
      [reflexivity|].
    cbn [List.filter]. now rewrite reversed_range_rejects. }
  split.
  - unfold CountRecords, CountDocuments.
    fold (partition_matches db query boxID). now rewrite Hnone.
  - intros Hskip Hlimit. rewrite ListRecords_run.
    destruct (Z.ltb_spec (query_skip query) 0); [lia|].
    destruct (Z.leb_spec (query_limit query) 0); [lia|].
    cbv zeta. rewrite Hnone, facet_doc_records, facet_doc_total.
    simpl sort_by. rewrite drop_nil, take_nil.
    now destruct reg.
Qed.

(** X9 on the first partition of the scenario, which holds 5 records. *)
Lemma X9_reversed_time_range_witness :
  CountRecords scenario_db "a"
    (Some {| Time := [1700003000; 1700000000]; Limit := None; Skip := None |})
  = Ok 0 /\
  ListRecords BsonA scenario_db "a"
    (Some {| Time := [1700003000; 1700000000]; Limit := None; Skip := None |})
  = Ok {| Records := []; Total := 0 |}.
Proof.
  destruct (X9_reversed_time_range BsonA scenario_db "a"
              1700003000 1700000000 None None ltac:(lia)) as [Hc Hl].
  split; [exact Hc|]. apply Hl; simpl; lia.
Defined.

(** Cutting a list into pages and putting the pages together again. *)
Lemma chunks_cover {A : Type} (n m : nat) (l : list A) :
  (length l <= m * n)%nat ->
  concat ((fun k => take n (drop (k * n) l)) <$> seq 0 m) = l.
Proof.
  revert l. induction m as [|m IH]; intros l Hlen.
  - destruct l; [reflexivity | simpl in Hlen; lia].
  - cbn [seq fmap list_fmap concat]. rewrite <- fmap_S_seq.
    rewrite <- list_fmap_compose.
    rewrite (list_fmap_ext _ (fun k => take n (drop (k * n) (drop n l)))).
    + rewrite IH by (rewrite length_drop; lia).
      simpl. apply take_drop.
    + intros i k _. simpl. rewrite drop_drop. repeat f_equal; lia.
Qed.

Lemma concat_fmap_pages {A B C : Type} (f : B -> C) (g : A -> list B)
    (l : list A) :
  concat ((fun k => f <$> g k) <$> l) = f <$> concat (g <$> l).
Proof.
  induction l as [|a l IH]; [reflexivity|].
  cbn [fmap list_fmap concat]. rewrite fmap_app. f_equal. exact IH.
Qed.

Lemma time_filter_range (time : option (Z * Z)) (limit skip : option Z) :
  time_filter ∅
    (Some {| Time := match time with
                     | Some (min, max) => [min; max]
                     | None => []
                     end;
             Limit := limit; Skip := skip |})
  = time_filter ∅ (range_query time).
Proof. reflexivity. Qed.

(** The answer of the handler to the request for one page. *)
Lemma handler_ListRecords_page (db : Database) (boxID : string)
    (page pageSize : Z) (time : option (Z * Z)) :
  boxID <> "" ->
  1 <= page <= 92233720368547758 ->
  let size := PageSize (NewPagination 1 pageSize) in
  let matched := partition_matches db (range_query time) boxID in
  Z.of_nat (length matched) <= Conv.max_int32 ->
  handler.ListRecords BsonA db boxID page pageSize time
  = Ok (handler.StatusOK
          {| Data := presented <$>
                       take (Z.to_nat size)
                         (drop (Z.to_nat ((page - 1) * size))
                            (sort_by (sort_le "_id" (-1)) matched));
             Meta := {| MetaPage := page;
                        MetaPageSize := size;
                        TotalItems := Z.of_nat (length matched);
                        TotalPages :=
                          Z.max 1 ((Z.of_nat (length matched) + size - 1) / size);
                        MetaFilter :=
                          match time with
                          | Some (min, max) =>
                              <["time_max" := max]> {[ "time_min" := min ]}
                          | None => ∅
                          end |} |}).
Proof.
  intros Hbox Hpage size matched Hfit.
  destruct (NewPagination_PageSize page pageSize) as (Hsame & Hsize & _).
  fold size in Hsame. rewrite Hsame in Hsize.
  unfold handler.ListRecords.
  destruct (decide (boxID = "")) as [|_]; [contradiction|].
  cbv zeta. unfold SensorService.ListRecords. rewrite ListRecords_run.
  unfold query_skip, query_limit. cbn [Skip Limit default from_option id].
  unfold GetLimit. rewrite GetSkip_exact by lia. rewrite Hsame.
  replace (Z.max 1 page) with page by lia.
  destruct (Z.ltb_spec ((page - 1) * size) 0); [nia|].
  destruct (Z.leb_spec size 0); [lia|].
  cbv zeta. rewrite facet_doc_records, facet_doc_total.
  unfold partition_matches. rewrite time_filter_range.
  fold (partition_matches db (range_query time) boxID). fold matched.
  destruct (Z.leb_spec (Z.of_nat (length matched)) Conv.max_int32); [|lia].
  cbn [Records Total]. rewrite NewPagination_Page.
  replace (Z.max 1 page) with page by lia.
  rewrite NewPaginatedResponse_Ok;
    [|lia | unfold Conv.max_int64, Conv.max_int32 in *; lia].
  cbn [mbind outcome_bind]. do 4 f_equal.
  destruct time as [[min max]|]; reflexivity.
Qed.

(** X10.  Paging through a partition with the handler [ListRecords]: for a
    partition whose matching records fit an int32, there are a sorting of
    the matching records by key in descending order and a number of pages
    such that every page up to page 92233720368547758 is answered with its
    slice of that sorting, the number of the matching records and that
    number of pages; the records of the pages from 1 to the number of pages
    are, put together, all the matching records, each exactly once; and
    every page after has no record. *)
Theorem X10_paging_covers (db : Database) (boxID : string) (pageSize : Z)
    (time : option (Z * Z)) :
  boxID <> "" ->
  let size := PageSize (NewPagination 1 pageSize) in
  let matched := partition_matches db (range_query time) boxID in
  Z.of_nat (length matched) <= Conv.max_int32 ->
  exists (sorted : list Record) (pages : Z),
    Permutation sorted matched /\ key_descending sorted /\ 1 <= pages /\
    (forall page : Z,
        1 <= page <= 92233720368547758 ->
        exists filterInfo : gmap string Z,
          handler.ListRecords BsonA db boxID page pageSize time
          = Ok (handler.StatusOK
                  {| Data := presented <$>
                               take (Z.to_nat size)
                                 (drop (Z.to_nat ((page - 1) * size)) sorted);
                     Meta := {| MetaPage := page;
                                MetaPageSize := size;
                                TotalItems := Z.of_nat (length matched);
                                TotalPages := pages;
                                MetaFilter := filterInfo |} |})) /\
    concat (page_records BsonA db boxID pageSize time <$> seqZ 1 pages)
    = presented <$> sorted /\
    (forall page : Z,
        pages < page <= 92233720368547758 ->
        page_records BsonA db boxID pageSize time page = []).
Proof.
  intros Hbox size matched Hfit.
  destruct (NewPagination_PageSize 1 pageSize) as (_ & Hsize & _).
  fold size in Hsize.
  set (sorted := sort_by (sort_le "_id" (-1)) matched).
  set (total := Z.of_nat (length matched)) in *.
  set (pages := Z.max 1 ((total + size - 1) / size)).
  destruct (total_pages_spec size total ltac:(lia) ltac:(lia))
    as (Hpages1 & Hlow & Hhigh). fold pages in Hpages1, Hlow, Hhigh.
  assert (Hlen : length sorted = length matched)
    by (apply Permutation_length, sort_by_Permutation).
  assert (Hrec : forall page, 1 <= page <= 92233720368547758 ->
            page_records BsonA db boxID pageSize time page
            = presented <$> take (Z.to_nat size)
                              (drop (Z.to_nat ((page - 1) * size)) sorted)).
  { intros page Hpage. unfold page_records.
    now rewrite (handler_ListRecords_page db boxID page pageSize time Hbox
                   Hpage Hfit). }
  exists sorted, pages.
  split; [apply sort_by_Permutation|].
  split; [apply key_descending_sort|].
  split; [exact Hpages1|].
  split; [|split].
  - intros page Hpage. eexists.
    apply (handler_ListRecords_page db boxID page pageSize time Hbox Hpage
             Hfit).
  - unfold seqZ. rewrite <- list_fmap_compose.
    rewrite (list_fmap_ext _
      (fun k => presented <$> take (Z.to_nat size)
                                (drop (k * Z.to_nat size) sorted))).
    + rewrite (concat_fmap_pages presented
                 (fun k => take (Z.to_nat size)
                             (drop (k * Z.to_nat size) sorted))).
      f_equal. apply chunks_cover. nia.
    + intros i k Hk. apply lookup_seq in Hk as [-> Hk]. simpl.
      rewrite Hrec by (unfold Conv.max_int32 in *; nia).
      do 3 f_equal. nia.
  - intros page Hpage. rewrite Hrec by lia.
    rewrite drop_ge by nia. now rewrite take_nil.
Qed.

(** X10 on the first partition of the scenario in pages of 2: its 5 records
    come in 3 pages. *)
Lemma X10_paging_covers_witness :
  exists (sorted : list Record) (pages : Z),
    Permutation sorted (partition_matches scenario_db (range_query None) "a")
    /\ key_descending sorted /\ 1 <= pages /\
    (forall page : Z,
        1 <= page <= 92233720368547758 ->
        exists filterInfo : gmap string Z,
          handler.ListRecords BsonA scenario_db "a" page 2 None
          = Ok (handler.StatusOK
                  {| Data := presented <$>
                               take 2 (drop (Z.to_nat ((page - 1) * 2)) sorted);
                     Meta := {| MetaPage := page;
                                MetaPageSize := 2;
                                TotalItems := 5;
                                TotalPages := pages;
                                MetaFilter := filterInfo |} |})) /\
    concat (page_records BsonA scenario_db "a" 2 None <$> seqZ 1 pages)
    = presented <$> sorted /\
    (forall page : Z,
        pages < page <= 92233720368547758 ->
        page_records BsonA scenario_db "a" 2 None page = []).
Proof.
  apply (X10_paging_covers scenario_db "a" 2 None).
  - discriminate.
  - vm_compute. discriminate.
Defined.

(** What [ListRecordsByGroup] comes to. *)
Lemma ListRecordsByGroup_run (reg : ArrayType) (db : Database)
    (firstBoxID : string) (rest : list string) (query : option QueryRecord) :
  ListRecordsByGroup reg db (firstBoxID :: rest) query
  = if query_skip query <? 0
    then Err (Wrapped "aggregation failed"
                (CommandError "Argument to $skip cannot be negative"))
    else if query_limit query <=? 0
    then Err (Wrapped "aggregation failed"
                (CommandError "the limit must be positive"))
    else
      let all := merged db query (firstBoxID :: rest) in
      let result :=
        cursor_All reg [
          facet_doc
            (presented <$> take (Z.to_nat (query_limit query))
                             (drop (Z.to_nat (query_skip query))
                                (sort_by (sort_le "_id" (-1)) all)))
            (length all) ] in
      Ok (mkRecordsResult (facet_records result) (facet_total result)).
Proof.
  unfold ListRecordsByGroup, Aggregate.
  rewrite union_pipeline, !run_app, run_partition.
  cbn [mbind outcome_bind]. rewrite run_unions. cbn [mbind outcome_bind].
  change (tagged firstBoxID <$>
            List.filter (matches (time_filter ∅ query))
              (collection db (getRecordCollection firstBoxID)))
    with (tagged firstBoxID <$> partition_matches db query firstBoxID).
  change ((tagged firstBoxID <$> partition_matches db query firstBoxID)
          ++ merged db query rest)
    with (merged db query (firstBoxID :: rest)).
  rewrite run_facet, run_records_pipeline.
  destruct (query_skip query <? 0); [reflexivity|].
  destruct (query_limit query <=? 0); reflexivity.
Qed.

(** X11.  The queries for records assert that the arrays of the facets are
    [bson.A], in the [ok] form.  With arrays decoded as [[]interface{}], the
    type the two reports assert, [ListRecords] and [ListRecordsByGroup]
    return no record and total 0, without an error, whatever the partitions
    hold. *)
Theorem X11_slice_decoding_lists_nothing (db : Database)
    (query : option QueryRecord) :
  0 <= query_skip query -> 0 < query_limit query ->
  (forall boxID : string,
      ListRecords InterfaceSlice db boxID query
      = Ok {| Records := []; Total := 0 |}) /\
  (forall boxIDs : list string,
      ListRecordsByGroup InterfaceSlice db boxIDs query
      = Ok {| Records := []; Total := 0 |}).
Proof.
  intros Hskip Hlimit. split.
  - intros boxID. rewrite ListRecords_run.
    destruct (Z.ltb_spec (query_skip query) 0); [lia|].
    destruct (Z.leb_spec (query_limit query) 0); [lia|].
    cbv zeta. now rewrite facet_doc_records, facet_doc_total.
  - intros [|firstBoxID rest]; [reflexivity|].
    rewrite ListRecordsByGroup_run.
    destruct (Z.ltb_spec (query_skip query) 0); [lia|].
    destruct (Z.leb_spec (query_limit query) 0); [lia|].
    cbv zeta. now rewrite facet_doc_records, facet_doc_total.
Qed.

(** X11 on the scenario of partitions with 5, 0 and 3 records. *)
Lemma X11_slice_decoding_lists_nothing_witness :
  ListRecords InterfaceSlice scenario_db "a" scenario_query
  = Ok {| Records := []; Total := 0 |} /\
  ListRecordsByGroup InterfaceSlice scenario_db ["a"; "b"; "c"] scenario_query
  = Ok {| Records := []; Total := 0 |}.
Proof.
  destruct (X11_slice_decoding_lists_nothing scenario_db scenario_query
              ltac:(simpl; lia) ltac:(simpl; lia)) as [H1 H2].
  split; [apply H1 | apply H2].
Defined.

End ListProperties.

(** ** Properties of the query for the latest records *)

Section LatestProperties.
Import domain mongo mongodb merge listing PipelineFacts BsonOrder.

Lemma foldl_snoc {A B : Type} (f : B -> A) (p0 : list A) (l : list B) :
  foldl (fun p b => p ++ [f b]) p0 l = p0 ++ List.map f l.
Proof.
  revert p0. induction l as [|b l IH]; intros p0; simpl.
  - now rewrite app_nil_r.
  - rewrite IH, <- app_assoc. reflexivity.
Qed.

Lemma run_latest (db : Database) (boxID : string) (docs : list Record) :
  run [ sort_stage "_id" (-1); limit_stage 1;
        addFields "box_id" (e_lit (VString boxID)) ] db docs
  = Ok (tagged boxID <$> take 1 (sort_by (sort_le "_id" (-1)) docs)).
Proof. simpl. rewrite addFields_lit. reflexivity. Qed.

Lemma union_latest_run (db : Database) (boxID : string) (docs : list Record) :
  unionWith ("sensor_data_" +:+ boxID)
    [ sort_stage "_id" (-1); limit_stage 1;
      addFields "box_id" (e_lit (VString boxID)) ] db docs
  = Ok (docs ++ latest db boxID).
Proof. unfold unionWith. now rewrite run_latest. Qed.

Lemma run_latest_unions (db : Database) (rest : list string)
    (docs : list Record) :
  run (List.map
         (fun boxID =>
            unionWith ("sensor_data_" +:+ boxID)
              [ sort_stage "_id" (-1); limit_stage 1;
                addFields "box_id" (e_lit (VString boxID)) ])
         rest) db docs
  = Ok (docs ++ flat_map (latest db) rest).
Proof.
  revert docs. induction rest as [|b rest IH]; intros docs.
  - simpl. now rewrite app_nil_r.
  - cbn [List.map run]. rewrite union_latest_run.
    cbn [mbind outcome_bind]. rewrite IH, <- app_assoc. reflexivity.
Qed.

Lemma run_present (db : Database) (docs : list Record) :
  run [ addFields "id" (e_field "_id"); unset "_id" ] db docs
  = Ok (presented <$> docs).
Proof.
  simpl. unfold addFields.
  rewrite (traverse_Ok _
    (fun d : Record => if d !! "_id" is Some v then <["id" := v]> d else d)).
  - simpl. unfold unset. f_equal.
    rewrite <- list_fmap_compose. reflexivity.
  - intros d _. unfold set_field, e_field. simpl. reflexivity.
Qed.

(** The latest record of a partition is one of its records, and none of
    them has a greater key. *)
Lemma latest_spec (db : Database) (boxID : string) :
  (collection db (getRecordCollection boxID) = [] /\ latest db boxID = []) \/
  (exists d : Record,
      In d (collection db (getRecordCollection boxID)) /\
      latest db boxID = [ tagged boxID d ] /\
      forall d' : Record,
        In d' (collection db (getRecordCollection boxID)) ->
        bson_compare (sort_key "_id" d') (sort_key "_id" d) <> Gt).
Proof.
  unfold latest.
  destruct (sort_by (sort_le "_id" (-1))
              (collection db (getRecordCollection boxID))) as [|h t] eqn:Es.
  - left. split; [|reflexivity].
    pose proof (sort_by_Permutation (sort_le "_id" (-1))
                  (collection db (getRecordCollection boxID))) as Hp.
    rewrite Es in Hp. now apply Permutation_nil.
  - right. exists h.
    destruct (sort_by_head (sort_le "_id" (-1)) _ h t
                (fun a b => sort_le_total "_id" (-1) a b ltac:(lia))
                (fun a b c => sort_le_trans "_id" (-1) a b c ltac:(lia)) Es)
      as [Hin Hmax].
    split; [exact Hin|]. split; [reflexivity|].
    intros d' Hd'. specialize (Hmax d' Hd'). unfold sort_le in Hmax.
    rewrite (bson_compare_antisym (sort_key "_id" h)).
    destruct (bson_compare (sort_key "_id" h) (sort_key "_id" d'));
      simpl; discriminate.
Qed.

Lemma latest_length (db : Database) (boxIDs : list string) :
  length (flat_map (latest db) boxIDs)
  = length (List.filter
              (fun boxID =>
                 if collection db (getRecordCollection boxID) is []
                 then false else true)
              boxIDs).
Proof.
  induction boxIDs as [|b boxIDs IH]; [reflexivity|].
  cbn [flat_map List.filter]. rewrite length_app, IH.
  destruct (latest_spec db b) as [[-> ->]|(d & Hin & -> & _)];
    [reflexivity|].
  destruct (collection db (getRecordCollection b)); [destruct Hin|].
  reflexivity.
Qed.

(** X12.  [ListRecordsLatestByGroup] returns, for every list of partition
    keys, the most recent record of each partition that is not empty: a
    record of the partition such that no record of the partition has a
    greater key, tagged with the key of the partition.  The records come
    sorted by key in descending order, each with its key under [id] instead
    of [_id], and the total is their number, the number of the partitions
    that are not empty.  It returns no error.  On the partitions of the
    scenario, of 5, 0 and 3 records, it returns the two records with the
    keys 1700002700 and 1700002400. *)
Theorem X12_ListRecordsLatestByGroup :
  (forall (reg : ArrayType) (db : Database) (boxIDs : list string),
      exists sorted : list Record,
        Permutation sorted (flat_map (latest db) boxIDs) /\
        key_descending sorted /\
        ListRecordsLatestByGroup reg db boxIDs
        = Ok {| Records := cursor_All reg (presented <$> sorted);
                Total := Z.of_nat (length sorted) |} /\
        length sorted
        = length (List.filter
                    (fun boxID =>
                       if collection db (getRecordCollection boxID) is []
                       then false else true)
                    boxIDs)) /\
  (forall (db : Database) (boxID : string),
      (collection db (getRecordCollection boxID) = [] /\
       latest db boxID = []) \/
      (exists d : Record,
          In d (collection db (getRecordCollection boxID)) /\
          latest db boxID = [ tagged boxID d ] /\
          forall d' : Record,
            In d' (collection db (getRecordCollection boxID)) ->
            bson_compare (sort_key "_id" d') (sort_key "_id" d) <> Gt)) /\
  ListRecordsLatestByGroup BsonA scenario_db ["a"; "b"; "c"]
  = Ok {| Records := [ returned "c" 1700002700 8; returned "a" 1700002400 5 ];
          Total := 2 |}.
Proof.
  split; [|split; [exact latest_spec | vm_compute; reflexivity]].
  intros reg db boxIDs.
  exists (sort_by (sort_le "_id" (-1)) (flat_map (latest db) boxIDs)).
  split; [apply sort_by_Permutation|].
  split.
  { unfold key_descending.
    eapply Sorted_impl;
      [|apply sort_by_Sorted; intros a b; apply sort_le_total; lia].
    intros a b. unfold sort_le.
    destruct (bson_compare (sort_key "_id" a) (sort_key "_id" b));
      intros Hle; try discriminate; vm_compute in Hle; discriminate. }
  split.
  - destruct boxIDs as [|firstBoxID rest]; [reflexivity|].
    unfold ListRecordsLatestByGroup, Aggregate.
    rewrite (foldl_snoc
               (fun boxID =>
                  unionWith ("sensor_data_" +:+ boxID)
                    [ sort_stage "_id" (-1); limit_stage 1;
                      addFields "box_id" (e_lit (VString boxID)) ])).
    rewrite !run_app, run_latest. cbn [mbind outcome_bind].
    rewrite run_latest_unions. cbn [mbind outcome_bind].
    change (tagged firstBoxID <$>
              take 1 (sort_by (sort_le "_id" (-1))
                        (collection db (getRecordCollection firstBoxID))))
      with (latest db firstBoxID).
    change (latest db firstBoxID ++ flat_map (latest db) rest)
      with (flat_map (latest db) (firstBoxID :: rest)).
    change (run [ sort_stage "_id" (-1) ] db ?docs)
      with (Ok (sort_by (sort_le "_id" (-1)) docs) : outcome (list Record)).
    cbn [mbind outcome_bind]. rewrite run_present.
    unfold cursor_All. now rewrite !length_fmap.
  - rewrite (Permutation_length (sort_by_Permutation _ _)).
    apply latest_length.
Qed.

End LatestProperties.

(** ** Properties of the ingest *)

Section IngestProperties.
Import domain mongo mongodb merge listing interpolation service.
Import PipelineFacts.

Lemma applyInterpolation_other (Pow : float -> float -> float)
    (calculator : HydraulicCalculator) (record : Record) (key : string) :
  key <> "V" -> key <> "Q" -> key <> "Q_of" ->
  applyInterpolation Pow calculator record !! key = record !! key.
Proof.
  intros HV HQ HQof. unfold applyInterpolation.
  destruct (GetFloat record "WAU" =? 0)%float; [reflexivity|].
  cbv zeta. rewrite lookup_insert_ne by congruence.
  destruct (0 <? _)%float;
    repeat (rewrite lookup_insert_ne by congruence); reflexivity.
Qed.

Lemma filter_snoc {A : Type} (f : A -> bool) (l : list A) (a : A) :
  List.filter f (l ++ [a]) = List.filter f l ++ (if f a then [a] else []).
Proof. rewrite List.filter_app. reflexivity. Qed.

(** What a successful [InsertOne] does. *)
Lemma InsertOne_success (db db' : Database) (name : string) (oid : N)
    (doc : Record) :
  InsertOne db name oid doc = (db', None) ->
  exists stored : Record,
    stored = (if doc !! "_id" is Some _ then doc
              else <["_id" := VObjectID oid]> doc) /\
    db' = <[name := collection db name ++ [stored]]> db.
Proof.
  unfold InsertOne. intros H. eexists. split; [reflexivity|].
  cbv zeta in H. destruct (is_array _); [discriminate|].
  destruct (has_key _ _); [discriminate|]. now injection H as <-.
Qed.

(** X13.  Reading back what was written.  [AddRecord] and [ImportRecord] of
    the service do the same.  After a successful [ImportRecord] the
    partition holds one more record, the last: the record given, with the
    derived fields [V], [Q], [Q_of] of [applyInterpolation], the ingest time
    [c] when it had none, and the key the driver generates when it had
    none.  For every query [CountRecords] on the partition answers one more
    than before when the filter of the query accepts the key of the stored
    record and the same as before when it does not, the other partitions
    answer as before, and [ListRecords] with skip 0 and a limit above the
    number of the records that matched before returns the stored record,
    its key under [id]. *)
Theorem X13_ImportRecord_read_back (Pow : float -> float -> float)
    (calculator : HydraulicCalculator) (db : Database) (now : Z) (oid : N)
    (boxID : string) (record : Record) :
  SensorService.AddRecord Pow calculator db now oid boxID record
  = SensorService.ImportRecord Pow calculator db now oid boxID record /\
  forall db' : Database,
    SensorService.ImportRecord Pow calculator db now oid boxID record
    = (db', None) ->
    exists stored : Record,
      (stored !! "_id" = Some (default (VObjectID oid) (record !! "_id")) /\
       stored !! "c" = Some (default (VInt64 now) (record !! "c")) /\
       forall key : string,
         key <> "_id" -> key <> "c" ->
         stored !! key = applyInterpolation Pow calculator record !! key) /\
      collection db' (getRecordCollection boxID)
      = collection db (getRecordCollection boxID) ++ [stored] /\
      (forall query : option QueryRecord,
          CountRecords db' boxID query
          = Ok (Z.of_nat (length (partition_matches db query boxID))
                + if matches (time_filter ∅ query) stored then 1 else 0) /\
          CountRecords db boxID query
          = Ok (Z.of_nat (length (partition_matches db query boxID)))) /\
      (forall (boxID' : string) (query : option QueryRecord),
          boxID' <> boxID ->
          CountRecords db' boxID' query = CountRecords db boxID' query) /\
      (forall query : option QueryRecord,
          matches (time_filter ∅ query) stored = true ->
          query_skip query = 0 ->
          Z.of_nat (length (partition_matches db query boxID))
          < query_limit query <= Conv.max_int32 ->
          exists result : RecordsResult,
            ListRecords BsonA db' boxID query = Ok result /\
            In (presented stored) (Records result) /\
            Total result
            = Z.of_nat (length (partition_matches db query boxID)) + 1).
Proof.
  split; [reflexivity|].
  intros db' Hok.
  unfold SensorService.ImportRecord, ImportRecord in Hok. cbv zeta in Hok.
  set (r1 := applyInterpolation Pow calculator record) in *.
  set (r2 := match r1 !! "c" with
             | Some _ => r1
             | None => <["c" := VInt64 now]> r1
             end) in *.
  destruct (InsertOne_success _ _ _ _ _ Hok) as (stored & Hstored & ->).
  assert (Hid1 : r1 !! "_id" = record !! "_id")
    by (apply applyInterpolation_other; discriminate).
  assert (Hc1 : r1 !! "c" = record !! "c")
    by (apply applyInterpolation_other; discriminate).
  assert (Hid2 : r2 !! "_id" = record !! "_id").
  { unfold r2. destruct (r1 !! "c"); [exact Hid1|].
    now rewrite lookup_insert_ne by discriminate. }
  assert (Hc2 : r2 !! "c" = Some (default (VInt64 now) (record !! "c"))).
  { rewrite <- Hc1. unfold r2. destruct (r1 !! "c") as [v|] eqn:E.
    - exact E.
    - now rewrite lookup_insert_eq. }
  assert (Hother2 : forall key, key <> "c" -> r2 !! key = r1 !! key).
  { intros key Hk. unfold r2. destruct (r1 !! "c"); [reflexivity|].
    now rewrite lookup_insert_ne by congruence. }
  assert (Hcoll : collection
                    (<[getRecordCollection boxID :=
                         collection db (getRecordCollection boxID) ++ [stored]]>
                       db) (getRecordCollection boxID)
                  = collection db (getRecordCollection boxID) ++ [stored]).
  { unfold collection at 1. now rewrite lookup_insert_eq. }
  assert (Hmatches : forall query,
            partition_matches
              (<[getRecordCollection boxID :=
                   collection db (getRecordCollection boxID) ++ [stored]]> db)
              query boxID
            = partition_matches db query boxID
              ++ (if matches (time_filter ∅ query) stored then [stored]
                  else [])).
  { intros query. unfold partition_matches. rewrite Hcoll.
    apply filter_snoc. }
  exists stored. split; [|split; [exact Hcoll|split; [|split]]].
  - rewrite Hstored, <- Hid2. destruct (r2 !! "_id") as [v|] eqn:E.
    + split; [exact E|]. split; [exact Hc2|].
      intros key _ Hk. now apply Hother2.
    + rewrite lookup_insert_eq.
      rewrite lookup_insert_ne by discriminate.
      split; [reflexivity|]. split; [exact Hc2|].
      intros key Hk1 Hk2. rewrite lookup_insert_ne by congruence.
      now apply Hother2.
  - intros query. split; [|reflexivity].
    unfold CountRecords, CountDocuments.
    fold (partition_matches
            (<[getRecordCollection boxID :=
                 collection db (getRecordCollection boxID) ++ [stored]]> db)
            query boxID).
    rewrite Hmatches, length_app.
    destruct (matches (time_filter ∅ query) stored); simpl length;
      f_equal; lia.
  - intros boxID' query Hne. unfold CountRecords, CountDocuments, collection.
    rewrite lookup_insert_ne; [reflexivity|].
    intros Heq. apply Hne. symmetry. now apply getRecordCollection_inj.
  - intros query Hm Hskip Hlimit.
    eexists. split.
    + rewrite ListRecords_run, Hskip.
      destruct (Z.ltb_spec 0 0); [lia|].
      destruct (Z.leb_spec (query_limit query) 0); [lia|].
      cbv zeta. rewrite facet_doc_records, facet_doc_total. reflexivity.
    + cbn [Records Total]. rewrite Hmatches, Hm.
      set (old := partition_matches db query boxID) in *.
      split.
      * rewrite drop_0, take_ge.
        -- apply List.in_map.
           eapply Permutation_in;
             [symmetry; apply sort_by_Permutation|].
           apply List.in_or_app. right. now left.
        -- rewrite (Permutation_length (sort_by_Permutation _ _)).
           rewrite length_app. simpl. lia.
      * rewrite length_app. simpl length.
        destruct (Z.leb_spec (Z.of_nat (length old + 1)) Conv.max_int32); lia.
Qed.

(** X13 on the empty database: a record at key 1700000000 with level 2. *)
Lemma X13_ImportRecord_read_back_witness :
  let Pow := (fun x _ => x * PrimFloat.sqrt x)%float in
  let record : Record :=
    <["_id" := VInt64 1700000000]> {[ "WAU" := VFloat64 2 ]} in
  let db' :=
    (SensorService.ImportRecord Pow NewHydraulicCalculator ∅ 5 0 "box"
       record).1 in
  exists stored : Record,
    collection db' (getRecordCollection "box") = [stored] /\
    stored !! "_id" = Some (VInt64 1700000000) /\
    stored !! "c" = Some (VInt64 5) /\
    CountRecords db' "box" None = Ok 1.
Proof.
  intros Pow record db'.
  destruct (proj2 (X13_ImportRecord_read_back Pow NewHydraulicCalculator ∅ 5 0
                     "box" record) db')
    as (stored & (Hid & Hc & _) & Hcoll & Hcount & _).
  - vm_compute. reflexivity.
  - exists stored. split; [exact Hcoll|]. split; [exact Hid|].
    split; [exact Hc|].
    rewrite (proj1 (Hcount None)). vm_compute.
    destruct (stored !! "_id"); reflexivity.
Defined.

End IngestProperties.

(** ** Properties of the rollups at their edges *)

Section RollupProperties.
Import domain mongo mongodb rollup PipelineFacts RollupFacts GroupFacts.
Import DailyFacts DailyReportFacts MonthlyFacts.

Lemma traverse_app {A B : Type} (f : A -> outcome B) (l1 l2 : list A) :
  traverse f (l1 ++ l2)
  = bs1 ← traverse f l1; bs2 ← traverse f l2; Ok (bs1 ++ bs2).
Proof.
  induction l1 as [|a l1 IH]; simpl.
  - destruct (traverse f l2); reflexivity.
  - destruct (f a) as [b| |]; simpl; try reflexivity.
    rewrite IH. destruct (traverse f l1) as [bs1| |]; simpl; try reflexivity.
    destruct (traverse f l2); reflexivity.
Qed.

Lemma traverse_no_Err {A B : Type} (f : A -> outcome B) (l : list A) :
  (forall a e, f a <> Err e) -> forall e, traverse f l <> Err e.
Proof.
  intros Hf. induction l as [|a l IH]; intros e; simpl; [discriminate|].
  destruct (f a) as [b| |] eqn:Ea; simpl.
  - destruct (traverse f l) as [bs| |] eqn:El; simpl; try discriminate.
    exfalso. exact (IH _ eq_refl).
  - exfalso. exact (Hf _ _ Ea).
  - discriminate.
Qed.

Lemma traverse_Err {A B : Type} (f : A -> outcome B) (l : list A) :
  (forall a msg, f a <> Panic msg) ->
  (exists a e, In a l /\ f a = Err e) ->
  exists e, traverse f l = Err e.
Proof.
  intros Hf (a & e & Hin & Ha).
  induction l as [|x l IH]; [destruct Hin|].
  simpl. destruct (f x) as [b| |] eqn:Ex; simpl.
  - destruct Hin as [->|Hin]; [congruence|].
    destruct (IH Hin) as [e' ->]. simpl. eauto.
  - eauto.
  - exfalso. exact (Hf _ _ Ex).
Qed.

Lemma traverse_Panic_head {A B : Type} (f : A -> outcome B) (a : A)
    (l : list A) (msg : string) :
  f a = Panic msg -> traverse f (a :: l) = Panic msg.
Proof. intros H. simpl. now rewrite H. Qed.

Lemma sort_by_nonempty {A : Type} (le : A -> A -> bool) (l : list A) :
  l <> [] -> sort_by le l <> [].
Proof.
  intros Hl Hs. apply Hl.
  pose proof (sort_by_Permutation le l) as Hp. rewrite Hs in Hp.
  now apply Permutation_nil.
Qed.

(** The group of a date, decoded with arrays as [bson.A], stops
    [ReportRecords] at an assertion. *)
Lemma daily_report_BsonA (matched : list Record) (s : string) :
  exists msg : string, daily_report (daily_group matched s) = Panic msg.
Proof.
  unfold daily_report, daily_group.
  rewrite lookup_insert_eq.
  rewrite (lookup_insert_ne _ "_id" "count") by discriminate.
  rewrite lookup_insert_eq.
  rewrite (lookup_insert_ne _ "_id" "data") by discriminate.
  rewrite (lookup_insert_ne _ "count" "data") by discriminate.
  rewrite lookup_insert_eq.
  cbn [assert_string mbind outcome_bind].
  unfold int_value. destruct (_ && _); cbn; eauto.
Qed.

(** X14.  [ReportRecords] at its edges.  When no record of the partition
    matches, it returns the empty list of reports, however arrays are
    decoded.  When records match and arrays are decoded as [bson.A] (the
    default of the driver, and the type [ListRecords] asserts), it panics:
    the assertion [result["data"].([]interface{})] has no [ok] form. *)
Theorem X14_ReportRecords_edges (db : Database) (boxID : string)
    (query : option QueryRecord) :
  (daily_matches db query boxID = [] ->
   forall reg : ArrayType, ReportRecords reg db boxID query = Ok []) /\
  (daily_matches db query boxID <> [] ->
   Forall (fun d => is_Some (record_date d)) (daily_matches db query boxID) ->
   exists msg : string, ReportRecords BsonA db boxID query = Panic msg).
Proof.
  split.
  - intros Hnone reg. unfold ReportRecords, Aggregate. cbn [run].
    unfold match_stage at 1. cbn [mbind outcome_bind].
    fold (daily_matches db query boxID). rewrite Hnone. reflexivity.
  - intros Hsome Hdated. unfold ReportRecords, Aggregate.
    rewrite (daily_pipeline db boxID query Hdated).
    cbn [mbind outcome_bind]. rewrite cursor_All_BsonA.
    destruct (dates_of (daily_matches db query boxID)) as [|s dates] eqn:Ed.
    + exfalso. revert Ed. unfold dates_of. apply sort_by_nonempty.
      destruct (daily_matches db query boxID); [congruence|].
      discriminate.
    + rewrite fmap_cons.
      destruct (daily_report_BsonA (daily_matches db query boxID) s)
        as [msg Hmsg].
      exists msg. now apply traverse_Panic_head.
Qed.

(** X14 on the partition with one record, and on a partition that was never
    written. *)
Lemma X14_ReportRecords_edges_witness :
  ReportRecords BsonA one_reading_db "b" None = Ok [] /\
  exists msg : string, ReportRecords BsonA one_reading_db "a" None = Panic msg.
Proof.
  split.
  - apply (proj1 (X14_ReportRecords_edges one_reading_db "b" None)).
    vm_compute. reflexivity.
  - apply (proj2 (X14_ReportRecords_edges one_reading_db "a" None)).
    + vm_compute. discriminate.
    + assert (Em : daily_matches one_reading_db None "a"
                   = [ <["_id" := VInt64 1700000000]>
                         {[ "T" := VFloat64 1.234 ]} ])
        by (vm_compute; reflexivity).
      rewrite Em. constructor; [|constructor].
      vm_compute. eexists. reflexivity.
Defined.

Lemma date_expr_no_Panic (d : Record) (msg : string) :
  date_expr d <> Panic msg.
Proof.
  unfold date_expr, e_dateToString, e_toDate, e_multiply, e_field, e_lit,
    mul_values, int_value.
  repeat first
    [ discriminate
    | progress cbn [mbind outcome_bind]
    | match goal with
      | |- context [match ?x with _ => _ end] => destruct x
      | |- context [if ?x then _ else _] => destruct x
      end ].
Qed.

(** X15.  [ReportRecords] returns the error of the store: when the date of
    a matching record cannot be computed (its key is no number, or an int32
    too small for its product with 1000 to be a long), the call returns an
    error and no report, however many records have a date. *)
Theorem X15_ReportRecords_error (reg : ArrayType) (db : Database)
    (boxID : string) (query : option QueryRecord) :
  (exists (d : Record) (e : error),
      In d (daily_matches db query boxID) /\ date_expr d = Err e) ->
  exists e : error, ReportRecords reg db boxID query = Err e.
Proof.
  intros Hbad. unfold ReportRecords, Aggregate. cbn [run].
  unfold match_stage at 1. cbn [mbind outcome_bind].
  fold (daily_matches db query boxID). unfold addFields.
  destruct (traverse_Err (set_field "date" date_expr)
              (daily_matches db query boxID)) as [e He].
  - intros d msg. unfold set_field.
    destruct (date_expr d) as [v| |] eqn:E; cbn [mbind outcome_bind];
      try discriminate.
    exfalso. exact (date_expr_no_Panic _ _ E).
  - destruct Hbad as (d & e & Hin & He). exists d, e. split; [exact Hin|].
    unfold set_field. now rewrite He.
  - exists e. now rewrite He.
Qed.

(** X15 on a partition of two records, of which one has a string for its
    key. *)
Lemma X15_ReportRecords_error_witness :
  exists e : error,
    ReportRecords InterfaceSlice
      {[ "sensor_data_a" :=
           [ <["_id" := VInt64 1700000000]> {[ "T" := VFloat64 1.5 ]};
             <["_id" := VString "x"]> {[ "T" := VFloat64 2.5 ]} ] ]}
      "a" None
    = Err e.
Proof.
  apply X15_ReportRecords_error.
  exists (<["_id" := VString "x"]> {[ "T" := VFloat64 2.5 ]}).
  eexists. split.
  - assert (Em : daily_matches
                   {[ "sensor_data_a" :=
                        [ <["_id" := VInt64 1700000000]>
                            {[ "T" := VFloat64 1.5 ]};
                          <["_id" := VString "x"]>
                            {[ "T" := VFloat64 2.5 ]} ] ]}
                   None "a"
                 = [ <["_id" := VInt64 1700000000]> {[ "T" := VFloat64 1.5 ]};
                     <["_id" := VString "x"]> {[ "T" := VFloat64 2.5 ]} ])
      by (vm_compute; reflexivity).
    rewrite Em. right. now left.
  - vm_compute. reflexivity.
Defined.

Lemma assert_int32_no_Err (x : option value) (e : error) :
  assert_int32 x <> Err e.
Proof. unfold assert_int32. destruct x as [[]|]; discriminate. Qed.

Lemma assert_slice_no_Err (x : option value) (e : error) :
  assert_slice x <> Err e.
Proof. unfold assert_slice. destruct x as [[]|]; discriminate. Qed.

Lemma monthly_reports_no_Err (metrics : list string) (result : Record)
    (e : error) :
  monthly_reports metrics result <> Err e.
Proof.
  unfold monthly_reports.
  destruct (result !! "_id") as [[| | | | | | | | | | |id]|]; try discriminate.
  destruct (assert_int32 (id !! "year")) as [year| |] eqn:Ey;
    cbn [mbind outcome_bind]; try discriminate;
    [|exfalso; exact (assert_int32_no_Err _ _ Ey)].
  destruct (assert_int32 (id !! "month")) as [month| |] eqn:Em;
    cbn [mbind outcome_bind]; try discriminate;
    [|exfalso; exact (assert_int32_no_Err _ _ Em)].
  destruct (assert_int32 (result !! "count")) as [count| |] eqn:Ec;
    cbn [mbind outcome_bind]; try discriminate;
    [|exfalso; exact (assert_int32_no_Err _ _ Ec)].
  destruct (assert_slice (result !! "data")) as [data| |] eqn:Ed;
    cbn [mbind outcome_bind]; try discriminate.
  exfalso. exact (assert_slice_no_Err _ _ Ed).
Qed.

Lemma source_reports_no_Err (reg : ArrayType) (db : Database)
    (metrics : list string) (source : string) (e : error) :
  source_reports reg db metrics source <> Err e.
Proof.
  unfold source_reports.
  destruct (Aggregate _ _ _) as [docs| |]; try discriminate.
  destruct (traverse (monthly_reports metrics) (cursor_All reg docs))
    as [rows| |] eqn:E; cbn [mbind outcome_bind]; try discriminate.
  exfalso. revert E. apply traverse_no_Err. intros a e'.
  apply monthly_reports_no_Err.
Qed.

(** X16.  [ReportByMetric] never returns an error.  A partition on which
    the aggregation fails is passed over in silence: the call answers as if
    that partition were not in the list. *)
Theorem X16_ReportByMetric_skips_errors (reg : ArrayType) (db : Database)
    (metrics : list string) :
  (forall (sources : list string) (e : error),
      ReportByMetric reg db sources metrics <> Err e) /\
  (forall (before after : list string) (source : string) (e : error),
      Aggregate db ("sensor_data_" +:+ source) monthly_pipeline = Err e ->
      ReportByMetric reg db (before ++ source :: after) metrics
      = ReportByMetric reg db (before ++ after) metrics).
Proof.
  split.
  - intros sources e. unfold ReportByMetric.
    destruct (traverse (source_reports reg db metrics) sources)
      as [rows| |] eqn:E; cbn [mbind outcome_bind]; try discriminate.
    exfalso. revert E. apply traverse_no_Err. intros a e'.
    apply source_reports_no_Err.
  - intros before after source e Hfail. unfold ReportByMetric.
    rewrite !traverse_app. cbn [traverse].
    assert (Hs : source_reports reg db metrics source = Ok [])
      by (unfold source_reports; now rewrite Hfail).
    rewrite Hs.
    destruct (traverse (source_reports reg db metrics) before) as [r1| |];
      cbn [mbind outcome_bind]; try reflexivity.
    destruct (traverse (source_reports reg db metrics) after) as [r2| |];
      cbn [mbind outcome_bind]; try reflexivity.
    now rewrite !concat_app.
Qed.

(** X16 on the partition of two records after a partition whose one record
    has a string for its time. *)
Lemma X16_ReportByMetric_skips_errors_witness :
  let db : Database :=
    <["sensor_data_bad" := [ {[ "t" := VString "x" ]} ]]> two_readings_db in
  ReportByMetric InterfaceSlice db ["bad"; "a"] ["x"]
  = ReportByMetric InterfaceSlice db ["a"] ["x"] /\
  ReportByMetric InterfaceSlice db ["bad"; "a"] ["x"]
  = Ok [ {| InfoMonth := 11; InfoYear := 2023; InfoMetric := "x";
            ReportCount := 2; ReportTotal := 4 |} ].
Proof.
  intros db. split.
  - apply (proj2 (X16_ReportByMetric_skips_errors InterfaceSlice db ["x"])
             [] ["a"] "bad"
             (CommandError "$multiply only supports numeric types")).
    vm_compute. reflexivity.
  - vm_compute. reflexivity.
Defined.

Lemma traverse_Panic {A B : Type} (f : A -> outcome B) (l : list A) :
  (forall a e, f a <> Err e) ->
  (exists a msg, In a l /\ f a = Panic msg) ->
  exists msg, traverse f l = Panic msg.
Proof.
  intros Hf (a & msg & Hin & Ha).
  induction l as [|x l IH]; [destruct Hin|].
  simpl. destruct (f x) as [b| |] eqn:Ex; simpl.
  - destruct Hin as [->|Hin]; [congruence|].
    destruct (IH Hin) as [msg' ->]. simpl. eauto.
  - exfalso. exact (Hf _ _ Ex).
  - eauto.
Qed.

(** The group of a month, decoded with arrays as [bson.A], stops
    [ReportByMetric] at an assertion. *)
Lemma monthly_reports_BsonA (metrics : list string) (matched : list Record)
    (ym : Z * Z) :
  exists msg : string,
    monthly_reports metrics (monthly_group matched ym) = Panic msg.
Proof.
  unfold monthly_reports, monthly_group.
  rewrite lookup_insert_eq. unfold month_render, month_values.
  cbn [fst snd].
  rewrite lookup_insert_eq.
  rewrite (lookup_insert_ne _ "year" "month") by discriminate.
  rewrite lookup_singleton_eq.
  rewrite (lookup_insert_ne _ "_id" "count") by discriminate.
  rewrite lookup_insert_eq.
  rewrite (lookup_insert_ne _ "_id" "data") by discriminate.
  rewrite (lookup_insert_ne _ "count" "data") by discriminate.
  rewrite lookup_insert_eq.
  cbn [assert_int32 mbind outcome_bind].
  unfold int_value. destruct (_ && _); cbn; eauto.
Qed.

(** X17.  With arrays decoded as [bson.A] (the default of the driver),
    [ReportByMetric] panics as soon as one of the partitions has a record
    with the time field [t]: the assertion
    [result["data"].([]interface{})] has no [ok] form. *)
Theorem X17_ReportByMetric_default_decoding (db : Database)
    (sources metrics : list string) :
  (exists source : string,
      In source sources /\
      monthly_matches db source <> [] /\
      Forall (fun d => is_Some (record_month d)) (monthly_matches db source)) ->
  exists msg : string, ReportByMetric BsonA db sources metrics = Panic msg.
Proof.
  intros (source & Hin & Hsome & Hdated).
  assert (Hsrc : exists msg : string,
            source_reports BsonA db metrics source = Panic msg).
  { unfold source_reports, Aggregate.
    rewrite (monthly_pipeline_run db source Hdated).
    rewrite cursor_All_BsonA.
    destruct (months_of (monthly_matches db source)) as [|ym months] eqn:Em.
    - exfalso. unfold months_of in Em.
      destruct (monthly_matches db source); [congruence | discriminate].
    - destruct (monthly_reports_BsonA metrics (monthly_matches db source) ym)
        as [msg Hmsg].
      exists msg. rewrite fmap_cons.
      now rewrite (traverse_Panic_head _ _ _ _ Hmsg). }
  destruct Hsrc as [msg Hsrc]. unfold ReportByMetric.
  destruct (traverse_Panic (source_reports BsonA db metrics) sources)
    as [msg' Hmsg'].
  - intros a e. apply source_reports_no_Err.
  - now exists source, msg.
  - exists msg'. now rewrite Hmsg'.
Qed.

(** X17 on the partition of one month with two records. *)
Lemma X17_ReportByMetric_default_decoding_witness :
  exists msg : string,
    ReportByMetric BsonA two_readings_db ["a"] ["x"; "y"] = Panic msg.
Proof.
  apply X17_ReportByMetric_default_decoding.
  exists "a". split; [now left|].
  assert (Em : monthly_matches two_readings_db "a"
               = [ <["_id" := VInt64 1]>
                     (<["t" := VInt64 1700000000]>
                        (<["x" := VFloat64 1.5]> {[ "y" := VFloat64 2 ]}));
                   <["_id" := VInt64 2]>
                     (<["t" := VInt64 1700000100]> {[ "x" := VFloat64 2.5 ]}) ])
    by (vm_compute; reflexivity).
  rewrite Em. split; [discriminate|].
  repeat constructor; vm_compute; eexists; reflexivity.
Defined.

End RollupProperties.

(** ** The claims about the rollups

    Both rollups read the array of a group with an assertion to
    [[]interface{}] that has no [ok] form.  The driver decodes an array in a
    [bson.M] as [bson.A], which is another type, unless the registry of the
    client says otherwise, and the program sets no registry.  So both
    rollups panic at the first group, and return only when there is none. *)

Section ReportClaims.
Import domain mongo mongodb rollup PipelineFacts RollupFacts GroupFacts.
Import DailyFacts DailyReportFacts MonthlyFacts.

Lemma traverse_Ok_length {A B : Type} (f : A -> outcome B) (l : list A)
    (bs : list B) :
  traverse f l = Ok bs -> length bs = length l.
Proof.
  revert bs. induction l as [|a l IH]; intros bs; simpl.
  - now intros [= <-].
  - destruct (f a) as [b| |]; simpl; try discriminate.
    destruct (traverse f l) as [bs'| |]; simpl; try discriminate.
    intros [= <-]. simpl. f_equal. now apply IH.
Qed.

Lemma traverse_Ok_Forall {A B : Type} (P : B -> Prop) (f : A -> outcome B)
    (l : list A) (bs : list B) :
  (forall a b, f a = Ok b -> P b) ->
  traverse f l = Ok bs -> Forall P bs.
Proof.
  intros Hf. revert bs. induction l as [|a l IH]; intros bs; simpl.
  - intros [= <-]. constructor.
  - destruct (f a) as [b| |] eqn:Ea; simpl; try discriminate.
    destruct (traverse f l) as [bs'| |]; simpl; try discriminate.
    intros [= <-]. constructor; [now apply (Hf a) | now apply IH].
Qed.

Lemma traverse_Ok_nil {A B : Type} (f : A -> outcome B) (l : list A) :
  traverse f l = Ok [] -> l = [].
Proof.
  intros H. apply traverse_Ok_length in H. now destruct l.
Qed.

(** A stream of documents whose first stops the loop. *)
Lemma traverse_stops {A B : Type} (f : A -> outcome B) (l : list A)
    (bs : list B) :
  Forall (fun a => exists msg, f a = Panic msg) l ->
  traverse f l = Ok bs -> l = [] /\ bs = [].
Proof.
  intros Hall. destruct l as [|a l]; simpl.
  - now intros [= <-].
  - apply Forall_cons in Hall. destruct Hall as [[msg Hmsg] _].
    rewrite Hmsg. discriminate.
Qed.

(** The groups of [$group] with the accumulators [count] and [data]: each
    has a rendered key and its documents in an array, and there is one when
    there is a document. *)
Lemma group_shape {K : Type} (key : Record -> outcome K) (keq : K -> K -> bool)
    (render : K -> value) (e : expr) (db : Database)
    (docs out : list Record) :
  group key keq render [ ("count", acc_count); ("data", acc_push e) ] db docs
  = Ok out ->
  Forall (fun d : Record =>
            exists (k : K) (l : list value),
              d !! "_id" = Some (render k) /\
              d !! "data" = Some (VArray l)) out /\
  (docs <> [] -> out <> []).
Proof.
  unfold group.
  destruct (traverse (fun d => k ← key d; Ok (k, d)) docs) as [keyed| |] eqn:Ek;
    cbn [mbind outcome_bind]; try discriminate.
  intros Hout. split.
  - revert Hout. apply traverse_Ok_Forall. intros k d.
    cbn [traverse eval_acc fst snd mbind outcome_bind].
    destruct (traverse e (members_of keq keyed k)) as [vs| |];
      cbn [mbind outcome_bind]; try discriminate.
    intros [= <-]. exists k, (omap id vs). split.
    + now rewrite lookup_insert_eq.
    + rewrite lookup_insert_ne by discriminate. cbn [list_to_map foldr fst snd].
      rewrite lookup_insert_ne by discriminate.
      now rewrite lookup_insert_eq.
  - intros Hdocs Hnil. subst out. apply traverse_Ok_nil in Hout.
    apply traverse_Ok_length in Ek.
    destruct keyed as [|kd keyed]; [destruct docs; [congruence|discriminate]|].
    rewrite fmap_cons in Hout. discriminate.
Qed.

(** A group with its documents in a [bson.A] stops [ReportRecords]. *)
Lemma daily_report_array (d : Record) (l : list value) :
  d !! "data" = Some (VArray l) ->
  exists msg : string, daily_report d = Panic msg.
Proof.
  intros Hd. unfold daily_report, assert_string, assert_int32, assert_slice.
  rewrite Hd.
  destruct (d !! "_id") as [[]|]; cbn [mbind outcome_bind]; eauto;
    destruct (d !! "count") as [[]|]; cbn [mbind outcome_bind]; eauto.
Qed.

(** A group with its documents in a [bson.A] stops [ReportByMetric]. *)
Lemma monthly_reports_array (metrics : list string) (d : Record)
    (k : value * value) (l : list value) :
  d !! "_id" = Some (month_render k) ->
  d !! "data" = Some (VArray l) ->
  exists msg : string, monthly_reports metrics d = Panic msg.
Proof.
  intros Hid Hd. unfold monthly_reports, assert_int32, assert_slice.
  rewrite Hid, Hd. unfold month_render.
  destruct (_ !! "year") as [[]|]; cbn [mbind outcome_bind]; eauto;
    destruct (_ !! "month") as [[]|]; cbn [mbind outcome_bind]; eauto;
    destruct (d !! "count") as [[]|]; cbn [mbind outcome_bind]; eauto.
Qed.

Lemma Forall_sort_by {A : Type} (P : A -> Prop) (le : A -> A -> bool)
    (l : list A) :
  Forall P l -> Forall P (sort_by le l).
Proof.
  intros Hl. apply List.Forall_forall. intros a Hin.
  apply (Permutation_in _ (sort_by_Permutation le l)) in Hin.
  exact (proj1 (List.Forall_forall _ _) Hl a Hin).
Qed.

(** What the aggregation of [ReportRecords] gives, when it gives
    something. *)
Lemma daily_aggregate_shape (db : Database) (boxID : string)
    (query : option QueryRecord) (docs : list Record) :
  run [ match_stage (time_filter {[ "_id" := [Exists true] ]} query);
        addFields "date" date_expr;
        group date_key same_value id [
          ("count", acc_count);
          ("data", acc_push e_root) ];
        sort_stage "_id" 1 ]
      db (collection db (getRecordCollection boxID))
  = Ok docs ->
  Forall (fun d : Record => exists l, d !! "data" = Some (VArray l)) docs /\
  (daily_matches db query boxID <> [] -> docs <> []).
Proof.
  cbn [run]. unfold match_stage at 1. cbn [mbind outcome_bind].
  fold (daily_matches db query boxID).
  destruct (addFields "date" date_expr db (daily_matches db query boxID))
    as [dated| |] eqn:Ed; cbn [mbind outcome_bind]; try discriminate.
  destruct (group date_key same_value id _ db dated) as [groups| |] eqn:Eg;
    cbn [mbind outcome_bind]; try discriminate.
  unfold sort_stage. intros [= <-].
  apply group_shape in Eg. destruct Eg as [Hshape Hsome]. split.
  - apply Forall_sort_by. revert Hshape. apply List.Forall_impl.
    intros d (k & l & _ & Hd). now exists l.
  - intros Hm. apply sort_by_nonempty. apply Hsome.
    intros ->. apply Hm. unfold addFields in Ed.
    now apply traverse_Ok_nil in Ed.
Qed.

(** C3.  With the decoding of the driver ([bson.A] for an array),
    [ReportRecords] returns no row at all: it returns, with no report, only
    when no record of the partition matches, and it panics at an assertion,
    at the latest at [result["data"].([]interface{})], as soon as records
    match (here: all with a key from which a date can be derived, so that
    the aggregation succeeds). *)
Theorem C3_ReportRecords_panics (db : Database) (boxID : string)
    (query : option QueryRecord) :
  let matched := daily_matches db query boxID in
  (matched <> [] ->
   Forall (fun d => is_Some (record_date d)) matched ->
   exists msg : string, ReportRecords BsonA db boxID query = Panic msg) /\
  (forall reports : list DailyReport,
      ReportRecords BsonA db boxID query = Ok reports ->
      reports = [] /\ matched = []) /\
  (matched = [] -> ReportRecords BsonA db boxID query = Ok []).
Proof.
  cbv zeta. split; [|split].
  - intros Hsome Hdated. unfold ReportRecords, Aggregate.
    rewrite (daily_pipeline db boxID query Hdated).
    cbn [mbind outcome_bind]. rewrite cursor_All_BsonA.
    destruct (dates_of (daily_matches db query boxID)) as [|s dates] eqn:Ed.
    + exfalso. revert Ed. unfold dates_of. apply sort_by_nonempty.
      destruct (daily_matches db query boxID); [congruence|].
      discriminate.
    + rewrite fmap_cons.
      destruct (daily_report_array
                  (daily_group (daily_matches db query boxID) s)
                  (VDoc <$> (with_date
                               <$> bucket s (daily_matches db query boxID))))
        as [msg Hmsg].
      * unfold daily_group.
        rewrite (lookup_insert_ne _ "_id" "data") by discriminate.
        rewrite (lookup_insert_ne _ "count" "data") by discriminate.
        now rewrite lookup_insert_eq.
      * exists msg. now apply traverse_Panic_head.
  - intros reports. unfold ReportRecords, Aggregate.
    destruct (run _ db _) as [docs| |] eqn:Er; cbn [mbind outcome_bind];
      try discriminate.
    rewrite cursor_All_BsonA. intros Hrun.
    apply daily_aggregate_shape in Er. destruct Er as [Hshape Hsome].
    destruct (traverse_stops daily_report docs reports) as [Hdocs ->].
    + revert Hshape. apply List.Forall_impl. intros d [l Hd].
      now apply (daily_report_array d l).
    + exact Hrun.
    + split; [reflexivity|].
      destruct (daily_matches db query boxID) as [|d l] eqn:Em;
        [reflexivity|].
      destruct Hsome; [discriminate | exact Hdocs].
  - intros Hnone. unfold ReportRecords, Aggregate. cbn [run].
    unfold match_stage at 1. cbn [mbind outcome_bind].
    fold (daily_matches db query boxID). rewrite Hnone. reflexivity.
Qed.

(** C3 on the partition with the one record of value 1.234, and on a
    partition that was never written. *)
Lemma C3_ReportRecords_panics_witness :
  (exists msg : string,
      ReportRecords BsonA one_reading_db "a" None = Panic msg) /\
  ReportRecords BsonA one_reading_db "b" None = Ok [].
Proof.
  destruct (C3_ReportRecords_panics one_reading_db "a" None) as (Hpanic & _).
  destruct (C3_ReportRecords_panics one_reading_db "b" None) as (_ & _ & Hnone).
  assert (Em : daily_matches one_reading_db None "a"
               = [ <["_id" := VInt64 1700000000]>
                     {[ "T" := VFloat64 1.234 ]} ])
    by (vm_compute; reflexivity).
  split.
  - apply Hpanic.
    + rewrite Em. discriminate.
    + rewrite Em. constructor; [|constructor].
      vm_compute. eexists. reflexivity.
  - apply Hnone. vm_compute. reflexivity.
Defined.

(** What the aggregation of [ReportByMetric] gives, when it gives
    something. *)
Lemma monthly_aggregate_shape (db : Database) (source : string)
    (docs : list Record) :
  Aggregate db ("sensor_data_" +:+ source) monthly_pipeline = Ok docs ->
  Forall (fun d : Record =>
            exists (k : value * value) (l : list value),
              d !! "_id" = Some (month_render k) /\
              d !! "data" = Some (VArray l)) docs /\
  (monthly_matches db source <> [] -> docs <> []).
Proof.
  unfold Aggregate, monthly_pipeline. cbn [run].
  unfold match_stage at 1. cbn [mbind outcome_bind].
  fold (monthly_matches db source).
  destruct (project _ db (monthly_matches db source)) as [projected| |] eqn:Ep;
    cbn [mbind outcome_bind]; try discriminate.
  destruct (group month_key month_keq month_render _ db projected)
    as [groups| |] eqn:Eg; cbn [mbind outcome_bind]; try discriminate.
  intros [= <-].
  apply group_shape in Eg. destruct Eg as [Hshape Hsome]. split.
  - exact Hshape.
  - intros Hm. apply Hsome. intros ->. apply Hm. unfold project in Ep.
    now apply traverse_Ok_nil in Ep.
Qed.

(** With the decoding of the driver a partition gives no row: the loop over
    its groups stops at the first. *)
Lemma source_reports_BsonA (db : Database) (metrics : list string)
    (source : string) (rows : list Report) :
  source_reports BsonA db metrics source = Ok rows -> rows = [].
Proof.
  unfold source_reports.
  destruct (Aggregate db _ monthly_pipeline) as [docs| |] eqn:Ea;
    [|now intros [= <-] | discriminate].
  rewrite cursor_All_BsonA.
  destruct (traverse (monthly_reports metrics) docs) as [rowss| |] eqn:Et;
    cbn [mbind outcome_bind]; try discriminate.
  intros [= <-].
  apply monthly_aggregate_shape in Ea. destruct Ea as [Hshape _].
  destruct (traverse_stops (monthly_reports metrics) docs rowss) as [_ ->].
  - revert Hshape. apply List.Forall_impl. intros d (k & l & Hid & Hd).
    now apply (monthly_reports_array metrics d k l).
  - exact Et.
  - reflexivity.
Qed.

(** The partition whose groups stop the loop. *)
Lemma source_reports_panics (db : Database) (metrics : list string)
    (source : string) :
  monthly_matches db source <> [] ->
  Forall (fun d => is_Some (record_month d)) (monthly_matches db source) ->
  exists msg : string, source_reports BsonA db metrics source = Panic msg.
Proof.
  intros Hsome Hdated.
  destruct (source_reports BsonA db metrics source) as [rows|e|msg] eqn:Es.
  - exfalso. unfold source_reports, Aggregate in Es.
    rewrite (monthly_pipeline_run db source Hdated) in Es.
    rewrite cursor_All_BsonA in Es.
    destruct (months_of (monthly_matches db source)) as [|ym months] eqn:Em.
    + unfold months_of in Em.
      destruct (monthly_matches db source); [congruence | discriminate].
    + rewrite fmap_cons in Es.
      destruct (monthly_reports_array metrics
                  (monthly_group (monthly_matches db source) ym)
                  (month_values ym)
                  (VDoc <$> month_bucket ym (monthly_matches db source)))
        as [msg Hmsg].
      * unfold monthly_group. now rewrite lookup_insert_eq.
      * unfold monthly_group.
        rewrite (lookup_insert_ne _ "_id" "data") by discriminate.
        rewrite (lookup_insert_ne _ "count" "data") by discriminate.
        now rewrite lookup_insert_eq.
      * rewrite (traverse_Panic_head _ _ _ _ Hmsg) in Es. discriminate.
  - exfalso. exact (source_reports_no_Err _ _ _ _ _ Es).
  - now exists msg.
Qed.

(** C2.  With the decoding of the driver ([bson.A] for an array),
    [ReportByMetric] returns no row at all, whatever the partitions hold and
    whatever metrics are asked for: when it returns, it returns no row; it
    panics at an assertion, at the latest at
    [result["data"].([]interface{})], as soon as one of the partitions has a
    record with the time field [t] (here: the records with [t] of that
    partition all with a time from which year and month can be derived, so
    that its aggregation succeeds); and it returns, with no row, when no
    partition has such a record. *)
Theorem C2_ReportByMetric_panics (db : Database)
    (sources metrics : list string) :
  (forall rows : list Report,
      ReportByMetric BsonA db sources metrics = Ok rows -> rows = []) /\
  ((exists source : string,
       In source sources /\
       monthly_matches db source <> [] /\
       Forall (fun d => is_Some (record_month d)) (monthly_matches db source)) ->
   exists msg : string, ReportByMetric BsonA db sources metrics = Panic msg) /\
  ((forall source : string,
       In source sources -> monthly_matches db source = []) ->
   ReportByMetric BsonA db sources metrics = Ok []).
Proof.
  split; [|split].
  - intros rows. unfold ReportByMetric.
    destruct (traverse (source_reports BsonA db metrics) sources)
      as [rowss| |] eqn:Et; cbn [mbind outcome_bind]; try discriminate.
    intros [= <-].
    assert (Hall : Forall (fun rows => rows = []) rowss).
    { revert Et. apply traverse_Ok_Forall. intros source rows.
      apply source_reports_BsonA. }
    clear Et. induction Hall as [|rows rowss -> _ IH]; [reflexivity|].
    exact IH.
  - intros (source & Hin & Hsome & Hdated).
    destruct (source_reports_panics db metrics source Hsome Hdated)
      as [msg Hmsg].
    unfold ReportByMetric.
    destruct (traverse_Panic (source_reports BsonA db metrics) sources)
      as [msg' Hmsg'].
    + intros a e. apply source_reports_no_Err.
    + now exists source, msg.
    + exists msg'. now rewrite Hmsg'.
  - intros Hnone. unfold ReportByMetric.
    rewrite (traverse_Ok _ (fun _ => [])).
    + cbn [mbind outcome_bind]. f_equal.
      induction sources as [|s sources IH]; [reflexivity|].
      rewrite fmap_cons. cbn [concat app]. apply IH.
      intros source Hin. apply Hnone. now right.
    + intros source Hin. unfold source_reports, Aggregate, monthly_pipeline.
      cbn [run]. unfold match_stage at 1. cbn [mbind outcome_bind].
      fold (monthly_matches db source). rewrite (Hnone source Hin).
      reflexivity.
Qed.

(** C2 on the partition of one month with two records, after a partition
    that was never written, and on that partition alone. *)
Lemma C2_ReportByMetric_panics_witness :
  (exists msg : string,
      ReportByMetric BsonA two_readings_db ["b"; "a"] ["x"; "y"] = Panic msg) /\
  ReportByMetric BsonA two_readings_db ["b"] ["x"; "y"] = Ok [].
Proof.
  destruct (C2_ReportByMetric_panics two_readings_db ["b"; "a"] ["x"; "y"])
    as (_ & Hpanic & _).
  destruct (C2_ReportByMetric_panics two_readings_db ["b"] ["x"; "y"])
    as (_ & _ & Hnone).
  assert (Ea : monthly_matches two_readings_db "a"
               = [ <["_id" := VInt64 1]>
                     (<["t" := VInt64 1700000000]>
                        (<["x" := VFloat64 1.5]> {[ "y" := VFloat64 2 ]}));
                   <["_id" := VInt64 2]>
                     (<["t" := VInt64 1700000100]> {[ "x" := VFloat64 2.5 ]}) ])
    by (vm_compute; reflexivity).
  assert (Eb : monthly_matches two_readings_db "b" = [])
    by (vm_compute; reflexivity).
  split.
  - apply Hpanic. exists "a". split; [right; now left|].
    rewrite Ea. split; [discriminate|].
    repeat constructor; vm_compute; eexists; reflexivity.
  - apply Hnone. intros source [<-|[]]. exact Eb.
Defined.

End ReportClaims.

(** ** Properties of the string helpers of the handlers *)

Section TextProperties.
Import domain handler text.

Lemma bytes_string (l : list ascii) : bytes (string_of_list_ascii l) = l.
Proof. apply list_ascii_of_string_of_list_ascii. Qed.

Lemma string_bytes (s : string) : string_of_list_ascii (bytes s) = s.
Proof. apply string_of_list_ascii_of_string. Qed.

Lemma append_cons (c : ascii) (s t : string) :
  String c s +:+ t = String c (s +:+ t).
Proof. reflexivity. Qed.

Lemma bytes_cons (c : ascii) (s : string) : bytes (String c s) = c :: bytes s.
Proof. reflexivity. Qed.

Lemma bytes_app (s t : string) : bytes (s +:+ t) = bytes s ++ bytes t.
Proof.
  induction s as [|c s IH]; [reflexivity|].
  now rewrite append_cons, !bytes_cons, IH.
Qed.

Lemma bytes_inj (s t : string) : bytes s = bytes t -> s = t.
Proof.
  intros H. rewrite <- (string_bytes s), <- (string_bytes t). now rewrite H.
Qed.

Lemma append_assoc (s t u : string) : (s +:+ t) +:+ u = s +:+ (t +:+ u).
Proof.
  induction s as [|c s IH]; [reflexivity|]. now rewrite !append_cons, IH.
Qed.

Lemma append_nil_r (s : string) : s +:+ "" = s.
Proof.
  induction s as [|c s IH]; [reflexivity|]. now rewrite append_cons, IH.
Qed.

(** The spaces [skip_spaces] passes over, and where it stops. *)
Lemma skip_spaces_spec (s : string) :
  exists front : list ascii,
    bytes s = front ++ bytes (skip_spaces s) /\
    Forall (fun c => is_space c = true) front /\
    match bytes (skip_spaces s) with
    | [] => True
    | c :: _ => is_space c = false
    end.
Proof.
  induction s as [|c s (front & Hs & Hfront & Hhead)].
  - exists []. repeat split; constructor.
  - simpl. destruct (is_space c) eqn:E.
    + exists (c :: front). split; [simpl; now rewrite Hs|].
      split; [now constructor | exact Hhead].
    + exists []. split; [reflexivity|]. split; [constructor | exact E].
Qed.

Lemma trimString_spec (s : string) :
  (exists front back : list ascii,
      bytes s = front ++ bytes (trimString s) ++ back /\
      Forall (fun c => is_space c = true) front /\
      Forall (fun c => is_space c = true) back) /\
  trimmed (trimString s).
Proof.
  unfold trimString, reverse, trimmed.
  destruct (skip_spaces_spec s) as (front & Hs & Hfront & Hhead).
  destruct (skip_spaces_spec
              (string_of_list_ascii (rev (bytes (skip_spaces s)))))
    as (back & Hb & Hback & Hlast).
  rewrite bytes_string in Hb. unfold bytes in *.
  rewrite !list_ascii_of_string_of_list_ascii.
  set (l1 := list_ascii_of_string (skip_spaces s)) in *.
  set (l2 := list_ascii_of_string
               (skip_spaces (string_of_list_ascii (rev l1)))) in *.
  assert (Hl1 : l1 = rev l2 ++ rev back).
  { rewrite <- rev_app_distr, <- Hb. now rewrite rev_involutive. }
  rewrite rev_involutive.
  split.
  - exists front, (rev back). split; [now rewrite Hs, Hl1|].
    split; [exact Hfront|]. now apply Forall_rev.
  - split; [|exact Hlast].
    rewrite Hl1 in Hhead. destruct (rev l2); [exact I | exact Hhead].
Qed.

(** A string with no space at its ends is left as it is. *)
Lemma trimString_trimmed (t : string) : trimmed t -> trimString t = t.
Proof.
  intros [Hfirst Hlast].
  assert (Hskip : forall u, match bytes u with
                            | [] => True
                            | c :: _ => is_space c = false
                            end -> skip_spaces u = u).
  { intros [|c u]; simpl; [reflexivity|]. now intros ->. }
  unfold trimString. rewrite (Hskip _ Hfirst).
  unfold reverse at 2. fold (bytes t).
  rewrite (Hskip (string_of_list_ascii (rev (bytes t))))
    by (now rewrite bytes_string).
  unfold reverse. rewrite bytes_string, rev_involutive.
  apply string_bytes.
Qed.

(** X18.  [trimString] returns the string without the spaces, tabs, line
    feeds and carriage returns at its front and at its back, and nothing
    else is removed: the string is a run of such bytes, then the result,
    then a run of such bytes, and the result neither starts nor ends with
    one.  Trimming again changes nothing. *)
Theorem X18_trimString (s : string) :
  (exists front back : list ascii,
      bytes s = front ++ bytes (trimString s) ++ back /\
      Forall (fun c => is_space c = true) front /\
      Forall (fun c => is_space c = true) back) /\
  trimmed (trimString s) /\
  trimString (trimString s) = trimString s.
Proof.
  destruct (trimString_spec s) as [Hparts Htrimmed].
  split; [exact Hparts|]. split; [exact Htrimmed|].
  now apply trimString_trimmed.
Qed.

(** *** Splitting *)

Lemma join_snoc (sep : string) (l : list string) (a b : string) :
  join sep ((l ++ [a]) ++ [b]) = join sep (l ++ [a]) +:+ sep +:+ b.
Proof.
  induction l as [|x l IH].
  - cbn. reflexivity.
  - destruct l as [|y l].
    + cbn. now rewrite !append_assoc.
    + change (join sep (((x :: y :: l) ++ [a]) ++ [b]))
        with (x +:+ sep +:+ join sep (((y :: l) ++ [a]) ++ [b])).
      change (join sep ((x :: y :: l) ++ [a]))
        with (x +:+ sep +:+ join sep ((y :: l) ++ [a])).
      rewrite IH. now rewrite !append_assoc.
Qed.

Lemma join_last (sep : string) (l : list string) (a e : string) :
  join sep (l ++ [a +:+ e]) = join sep (l ++ [a]) +:+ e.
Proof.
  induction l as [|x l IH]; [reflexivity|].
  destruct l as [|y l].
  - cbn. now rewrite !append_assoc.
  - change (join sep ((x :: y :: l) ++ [a +:+ e]))
      with (x +:+ sep +:+ join sep ((y :: l) ++ [a +:+ e])).
    change (join sep ((x :: y :: l) ++ [a]))
      with (x +:+ sep +:+ join sep ((y :: l) ++ [a])).
    rewrite IH. now rewrite !append_assoc.
Qed.

Lemma EncodeRune_nonempty (r : N) : utf8.EncodeRune r <> EmptyString.
Proof.
  unfold utf8.EncodeRune.
  repeat match goal with
         | |- context [if ?b then _ else _] => destruct b
         end; discriminate.
Qed.

Section Loop.
Variable sep : string.

#[local] Abbreviation step := (split_step sep).

(** What the loop keeps: the parts so far, joined, are the runes so far. *)
Lemma loop_join (rs : list N) (st : list string * string) :
  join sep ((foldl step st rs).1 ++ [(foldl step st rs).2])
  = join sep (st.1 ++ [st.2])
    +:+ foldr (fun r acc => utf8.EncodeRune r +:+ acc) EmptyString rs.
Proof.
  revert st. induction rs as [|r rs IH]; intros [result current].
  - simpl. now rewrite append_nil_r.
  - cbn [foldl foldr]. rewrite IH. unfold split_step. cbn [fst snd].
    destruct (String.eqb_spec (utf8.EncodeRune r) sep) as [->|Hne];
      cbn [fst snd].
    + rewrite join_snoc. rewrite append_nil_r. now rewrite !append_assoc.
    + rewrite join_last. now rewrite !append_assoc.
Qed.

Lemma loop_nonempty (rs : list N) (st : list string * string) :
  rs <> [] \/ st.1 <> [] \/ st.2 <> EmptyString ->
  (foldl step st rs).1 <> [] \/ (foldl step st rs).2 <> EmptyString.
Proof.
  revert st. induction rs as [|r rs IH]; intros [result current] H.
  - simpl in *. destruct H as [H|H]; [congruence | exact H].
  - cbn [foldl]. apply IH. right. unfold split_step.
    destruct (String.eqb (utf8.EncodeRune r) sep); cbn [fst snd].
    + left. now destruct result.
    + right. intros E. apply (EncodeRune_nonempty r).
      destruct current; [exact E | discriminate].
Qed.

Lemma loop_parts (P : string -> Prop) (rs : list N)
    (st : list string * string) :
  (forall r a, String.eqb (utf8.EncodeRune r) sep = false ->
               P a -> P (a +:+ utf8.EncodeRune r)) ->
  P EmptyString ->
  Forall P st.1 -> P st.2 ->
  Forall P (foldl step st rs).1 /\ P (foldl step st rs).2.
Proof.
  intros Hstep Hnil. revert st.
  induction rs as [|r rs IH]; intros [result current] Hres Hcur.
  - now split.
  - cbn [foldl]. cbn [fst snd] in *. apply IH; unfold split_step;
      destruct (String.eqb (utf8.EncodeRune r) sep) eqn:E; cbn [fst snd];
      try assumption.
    + apply Forall_app. split; [exact Hres|]. now constructor.
    + now apply Hstep.
Qed.

Lemma splitString_parts (s : string) :
  s <> EmptyString ->
  splitString s sep
  = (foldl step ([], EmptyString) (utf8.runes s)).1
    ++ [(foldl step ([], EmptyString) (utf8.runes s)).2].
Proof.
  intros Hs. unfold splitString.
  destruct (String.eqb_spec s ""); [contradiction|].
  assert (Hrs : utf8.runes s <> []).
  { destruct s as [|c s]; [congruence|]. cbn [utf8.runes]. cbv zeta.
    repeat match goal with
           | |- context [if ?b then _ else _] => destruct b
           | |- context [match ?x with EmptyString => _ | String _ _ => _ end] =>
               destruct x
           end; discriminate. }
  pose proof (loop_nonempty (utf8.runes s) ([], EmptyString) (or_introl Hrs))
    as H.
  destruct (foldl step ([], EmptyString) (utf8.runes s)) as [result current].
  cbn [fst snd] in *.
  destruct (String.eqb_spec current ""); simpl; [|reflexivity].
  destruct result; [|reflexivity].
  destruct H; congruence.
Qed.

End Loop.

Lemma byte_chr (n : N) : (n < 256)%N -> utf8.byte (utf8.chr n) = n.
Proof. apply N_ascii_embedding. Qed.

Lemma chr_byte (c : ascii) : utf8.chr (utf8.byte c) = c.
Proof. apply ascii_N_embedding. Qed.

Lemma byte_bound (c : ascii) : (utf8.byte c < 256)%N.
Proof. apply N_ascii_bounded. Qed.

Ltac hide_div :=
  repeat match goal with
         | |- context [N.div ?a ?b] =>
             let q := fresh "q" in set (q := N.div a b) in *; clearbody q
         | |- context [N.modulo ?a ?b] =>
             let m := fresh "m" in set (m := N.modulo a b) in *; clearbody m
         end.

(** The encoding of a rune other than an ASCII separator has no byte of the
    separator. *)
Lemma EncodeRune_no_sep (r : N) (c : ascii) :
  (utf8.byte c < 128)%N ->
  String.eqb (utf8.EncodeRune r) (String c EmptyString) = false ->
  ~ has_byte c (utf8.EncodeRune r).
Proof.
  intros Hc Hne. unfold has_byte, utf8.EncodeRune in *.
  assert (Hhigh : forall n, (128 <= n < 256)%N -> c <> utf8.chr n).
  { intros n Hn ->. rewrite byte_chr in Hc by lia. lia. }
  assert (Hm : forall x, (x mod 64 < 64)%N)
    by (intros x; apply N.mod_lt; discriminate).
  destruct (N.leb_spec r 127).
  { intros [<-|[]]. now rewrite String.eqb_refl in Hne. }
  destruct (N.leb_spec r 2047).
  { assert (r / 64 < 32)%N by (apply N.Div0.div_lt_upper_bound; lia).
    pose proof (Hm r).
    intros [E|[E|[]]]; symmetry in E; revert E; apply Hhigh; hide_div; lia. }
  destruct ((1114111 <? r)%N || ((55296 <=? r)%N && (r <=? 57343)%N)) eqn:Er.
  { intros [E|[E|[E|[]]]]; symmetry in E; revert E; apply Hhigh;
      vm_compute; split; congruence. }
  apply orb_false_iff in Er as [Er _]. apply N.ltb_ge in Er.
  pose proof (Hm r). pose proof (Hm (r / 64)%N). pose proof (Hm (r / 4096)%N).
  destruct (N.leb_spec r 65535).
  { assert (r / 4096 < 16)%N by (apply N.Div0.div_lt_upper_bound; lia).
    intros [E|[E|[E|[]]]]; symmetry in E; revert E; apply Hhigh; hide_div; lia. }
  assert (r / 262144 < 5)%N by (apply N.Div0.div_lt_upper_bound; lia).
  intros [E|[E|[E|[E|[]]]]]; symmetry in E; revert E; apply Hhigh; hide_div; lia.
Qed.

Lemma reencoded_ascii (s : string) : ascii_only s -> reencoded s = s.
Proof.
  unfold ascii_only, reencoded.
  induction s as [|c s IH]; intros Hs; [reflexivity|].
  rewrite bytes_cons in Hs. inversion Hs as [|? ? Hc Hs']; subst.
  cbn [utf8.runes]. cbv zeta.
  destruct (N.ltb_spec (utf8.byte c) 128); [|lia].
  cbn [foldr]. rewrite (IH Hs').
  unfold utf8.EncodeRune.
  destruct (N.leb_spec (utf8.byte c) 127); [|lia].
  now rewrite chr_byte.
Qed.

Lemma splitString_join (s : string) (sep : string) :
  join sep (splitString s sep) = reencoded s.
Proof.
  destruct (String.eqb_spec s "") as [->|Hs]; [reflexivity|].
  rewrite (splitString_parts sep s Hs), loop_join. reflexivity.
Qed.

Lemma splitString_no_sep (s : string) (c : ascii) :
  (utf8.byte c < 128)%N ->
  Forall (fun part => ~ has_byte c part) (splitString s (String c EmptyString)).
Proof.
  intros Hc.
  destruct (String.eqb_spec s "") as [->|Hs]; [constructor|].
  rewrite (splitString_parts _ s Hs).
  destruct (loop_parts (String c EmptyString)
              (fun part => ~ has_byte c part) (utf8.runes s)
              ([], EmptyString)) as [Hres Hcur].
  - intros r a Hne Ha. unfold has_byte. rewrite bytes_app.
    intros Hin. apply List.in_app_or in Hin as [Hin|Hin]; [now apply Ha|].
    revert Hin. now apply EncodeRune_no_sep.
  - intros [].
  - constructor.
  - intros [].
  - apply Forall_app. split; [exact Hres|]. now constructor.
Qed.

(** The runes of a string that starts with ASCII bytes. *)
Lemma runes_ascii_app (a t : string) :
  ascii_only a ->
  utf8.runes (a +:+ t) = List.map utf8.byte (bytes a) ++ utf8.runes t.
Proof.
  unfold ascii_only.
  induction a as [|x a IH]; intros Ha; [reflexivity|].
  rewrite bytes_cons in Ha. inversion Ha as [|? ? Hx Ha']; subst.
  rewrite append_cons, bytes_cons. cbn [utf8.runes List.map app]. cbv zeta.
  destruct (N.ltb_spec (utf8.byte x) 128); [|lia].
  now rewrite (IH Ha').
Qed.

Lemma EncodeRune_byte (x : ascii) :
  (utf8.byte x < 128)%N -> utf8.EncodeRune (utf8.byte x) = String x EmptyString.
Proof.
  intros Hx. unfold utf8.EncodeRune.
  destruct (N.leb_spec (utf8.byte x) 127); [|lia]. now rewrite chr_byte.
Qed.

Section Inverse.
Variable c : ascii.
Hypothesis c_ascii : (utf8.byte c < 128)%N.

#[local] Abbreviation sep := (String c EmptyString).
#[local] Abbreviation step := (split_step (String c EmptyString)).

Lemma loop_ascii_part (a : string) (rs : list N) (st : list string * string) :
  ascii_only a -> ~ has_byte c a ->
  foldl step st (List.map utf8.byte (bytes a) ++ rs)
  = foldl step (st.1, st.2 +:+ a) rs.
Proof.
  unfold ascii_only, has_byte. revert st.
  induction a as [|x a IH]; intros [result current] Ha Hc.
  - cbn [bytes list_ascii_of_string List.map app fst snd].
    now rewrite append_nil_r.
  - rewrite bytes_cons in Ha, Hc. inversion Ha as [|? ? Hx Ha']; subst.
    rewrite bytes_cons. cbn [List.map app foldl].
    unfold split_step at 2. rewrite (EncodeRune_byte x Hx).
    assert (Hxc : String.eqb (String x EmptyString) sep = false).
    { apply String.eqb_neq. intros [= ->]. apply Hc. now left. }
    rewrite Hxc. rewrite IH; [|exact Ha' | intros Hin; apply Hc; now right].
    cbn [fst snd]. now rewrite append_assoc.
Qed.

Lemma loop_sep (rs : list N) (st : list string * string) :
  foldl step st (utf8.byte c :: rs) = foldl step (st.1 ++ [st.2], EmptyString) rs.
Proof.
  destruct st as [result current]. cbn [foldl fst snd]. unfold split_step at 2.
  rewrite (EncodeRune_byte c c_ascii).
  now rewrite String.eqb_refl.
Qed.

Lemma loop_joined (p : string) (parts : list string)
    (st : list string * string) :
  Forall (fun part => ascii_only part /\ ~ has_byte c part) (p :: parts) ->
  (foldl step st (utf8.runes (join sep (p :: parts)))).1
  ++ [(foldl step st (utf8.runes (join sep (p :: parts)))).2]
  = st.1 ++ (st.2 +:+ p) :: parts.
Proof.
  revert p st. induction parts as [|q parts IH]; intros p st Hall;
    inversion Hall as [|? ? [Hp Hpc] Hrest]; subst.
  - cbn [join]. rewrite <- (append_nil_r p) at 1 2.
    rewrite runes_ascii_app by exact Hp.
    rewrite loop_ascii_part by assumption. reflexivity.
  - change (join sep (p :: q :: parts))
      with (p +:+ sep +:+ join sep (q :: parts)).
    rewrite runes_ascii_app by exact Hp.
    rewrite loop_ascii_part by assumption.
    rewrite (append_cons c). cbn [utf8.runes]. cbv zeta.
    destruct (N.ltb_spec (utf8.byte c) 128); [|lia].
    change ("" +:+ join sep (q :: parts)) with (join sep (q :: parts)).
    rewrite loop_sep, (IH q _ Hrest). cbn [fst snd].
    now rewrite <- app_assoc.
Qed.

Lemma join_splitString (parts : list string) :
  Forall (fun part => ascii_only part /\ ~ has_byte c part) parts ->
  join sep parts <> EmptyString ->
  splitString (join sep parts) sep = parts.
Proof.
  intros Hall Hne. rewrite (splitString_parts sep _ Hne).
  destruct parts as [|p parts]; [now cbn in Hne|].
  rewrite (loop_joined p parts ([], EmptyString) Hall).
  reflexivity.
Qed.

End Inverse.

(** X19.  [splitString] with a separator of one ASCII byte and [strings.Join]
    are inverse to each other on ASCII strings.  The parts of a string, put
    together again with the separator between them, are the string as its
    runes encode it, which is the string itself when it holds ASCII only;
    no part has the byte of the separator; there is no part at all only for
    the empty string; and the string joined from ASCII parts without the
    byte of the separator is split into these parts, unless it is empty. *)
Theorem X19_splitString (c : ascii) :
  (utf8.byte c < 128)%N ->
  let sep := String c EmptyString in
  (forall s : string,
      join sep (splitString s sep) = reencoded s /\
      (ascii_only s -> reencoded s = s) /\
      Forall (fun part => ~ has_byte c part) (splitString s sep) /\
      (splitString s sep = [] <-> s = EmptyString)) /\
  (forall parts : list string,
      Forall (fun part => ascii_only part /\ ~ has_byte c part) parts ->
      join sep parts <> EmptyString ->
      splitString (join sep parts) sep = parts).
Proof.
  intros Hc sep. split.
  - intros s. split; [apply splitString_join|].
    split; [apply reencoded_ascii|].
    split; [now apply splitString_no_sep|].
    split.
    + intros E. destruct (String.eqb_spec s "") as [|Hs]; [assumption|].
      rewrite (splitString_parts sep s Hs) in E.
      now apply app_eq_nil in E as [_ E].
    + now intros ->.
  - intros parts. now apply join_splitString.
Qed.

(** X19 on the parameter "WAU,DR,,V". *)
Lemma X19_splitString_witness :
  splitString "WAU,DR,,V" "," = ["WAU"; "DR"; ""; "V"] /\
  join "," (splitString "WAU,DR,,V" ",") = "WAU,DR,,V" /\
  splitString (join "," ["WAU"; "DR"; ""; "V"]) "," = ["WAU"; "DR"; ""; "V"].
Proof.
  destruct (X19_splitString ","%char ltac:(vm_compute; reflexivity))
    as (Hsplit & Hjoin).
  split; [reflexivity|]. split.
  - destruct (Hsplit "WAU,DR,,V") as (-> & Hascii & _).
    apply Hascii. repeat constructor.
  - apply Hjoin; [|discriminate].
    repeat constructor; vm_compute; intuition discriminate.
Defined.

(** *** The list of metrics of a request *)

Lemma join_padded (m : string) (ms : list string) :
  join ", " (m :: ms) = join "," (m :: List.map (String " "%char) ms).
Proof.
  revert m. induction ms as [|q ms IH]; intros m; [reflexivity|].
  change (join ", " (m :: q :: ms)) with (m +:+ ", " +:+ join ", " (q :: ms)).
  change (join "," (m :: List.map (String " "%char) (q :: ms)))
    with (m +:+ "," +:+ join "," (String " "%char q
                                    :: List.map (String " "%char) ms)).
  rewrite IH. f_equal.
  destruct ms; reflexivity.
Qed.

Lemma trimString_space (s : string) :
  trimString (String " "%char s) = trimString s.
Proof. reflexivity. Qed.

Lemma filter_all {A : Type} (f : A -> bool) (l : list A) :
  Forall (fun a => f a = true) l -> List.filter f l = l.
Proof.
  induction 1 as [|a l Ha Hl IH]; [reflexivity|].
  simpl. now rewrite Ha, IH.
Qed.

(** X20.  The list of metrics [ReportByMetric] of the handler takes from
    the parameter [metrics]: every metric in it is not empty, has no space
    at its ends and has no comma; and a list of ASCII names of that kind,
    written with a comma and a space between them, is read back as it is. *)
Theorem X20_request_metrics :
  (forall metricsStr : string,
      Forall (fun m => m <> EmptyString /\ trimmed m /\ ~ has_byte "," m)
             (request_metrics metricsStr)) /\
  (forall ms : list string,
      Forall (fun m => m <> EmptyString /\ ascii_only m /\ trimmed m
                       /\ ~ has_byte "," m) ms ->
      request_metrics (join ", " ms) = ms).
Proof.
  split.
  - intros metricsStr. unfold request_metrics, splitAndTrim.
    apply List.Forall_forall. intros m Hin.
    apply List.filter_In in Hin as [Hin Hne].
    apply List.in_map_iff in Hin as (part & <- & Hpart).
    pose proof (splitString_no_sep metricsStr ","%char
                  ltac:(vm_compute; reflexivity)) as Hno.
    rewrite List.Forall_forall in Hno. specialize (Hno part Hpart).
    destruct (trimString_spec part) as [(front & back & Hb & _) Htrimmed].
    split; [|split; [exact Htrimmed|]].
    + intros E. rewrite E in Hne. discriminate.
    + intros Hc. apply Hno. unfold has_byte in *. rewrite Hb.
      apply List.in_or_app. right. apply List.in_or_app. now left.
  - intros ms Hall. destruct ms as [|m ms]; [reflexivity|].
    unfold request_metrics, splitAndTrim. rewrite join_padded.
    inversion Hall as [|? ? (Hm & Ha & Ht & Hc) Hrest]; subst.
    rewrite (join_splitString ","%char ltac:(vm_compute; reflexivity)).
    + cbn [List.map]. rewrite (trimString_trimmed m Ht).
      rewrite List.map_map.
      rewrite (List.map_ext_in _ id).
      * rewrite List.map_id. apply (filter_all _ (m :: ms)).
        apply List.Forall_forall. intros x Hx.
        rewrite List.Forall_forall in Hall.
        destruct (Hall x Hx) as (Hne & _).
        now destruct x.
      * intros q Hq. rewrite trimString_space.
        rewrite List.Forall_forall in Hrest.
        destruct (Hrest q Hq) as (_ & _ & Hqt & _).
        now apply trimString_trimmed.
    + constructor; [now split|].
      apply List.Forall_forall. intros x Hx.
      apply List.in_map_iff in Hx as (q & <- & Hq).
      rewrite List.Forall_forall in Hrest.
      destruct (Hrest q Hq) as (_ & Hqa & _ & Hqc).
      split.
      * unfold ascii_only. rewrite bytes_cons. constructor; [|exact Hqa].
        vm_compute. reflexivity.
      * unfold has_byte. rewrite bytes_cons. intros [E|E]; [discriminate|].
        now apply Hqc.
    + destruct ms; cbn; destruct m; try discriminate; congruence.
Qed.

(** X20 on the names WAU and DR. *)
Lemma X20_request_metrics_witness :
  request_metrics "WAU, DR" = ["WAU"; "DR"].
Proof.
  apply (proj2 X20_request_metrics ["WAU"; "DR"]).
  repeat constructor; try discriminate; vm_compute; intuition discriminate.
Defined.

End TextProperties.

(** ** Properties of the time of a record *)

Section TimestampProperties.
Import domain mongo merge handler.

(** X21.  [GetTimestamp] reads an int32 only.  Of a record as the queries
    return it, with its key under [id], it gives the key when the key is
    stored as an int32 and 0 when the key is stored as any other type (an
    int64, or the float64 of a JSON number).  As an int32 is below 10^12,
    [ExportRecords] never takes the time for milliseconds: the time it
    formats is what [GetTimestamp] gives. *)
Theorem X21_GetTimestamp :
  (forall (d : Record) (n : Z),
      d !! "_id" = Some (VInt32 n) -> GetTimestamp (presented d) = n) /\
  (forall (d : Record) (v : value),
      d !! "_id" = Some v -> (forall n : Z, v <> VInt32 n) ->
      GetTimestamp (presented d) = 0) /\
  (forall record : Record,
      (forall (key : string) (n : Z),
          record !! key = Some (VInt32 n) ->
          Conv.min_int32 <= n <= Conv.max_int32) ->
      Conv.min_int32 <= GetTimestamp record <= Conv.max_int32 /\
      export_timestamp record = GetTimestamp record).
Proof.
  split; [|split].
  - intros d n Hid. unfold presented, GetTimestamp. rewrite Hid.
    rewrite lookup_delete_eq.
    rewrite lookup_delete_ne by discriminate.
    now rewrite lookup_insert_eq.
  - intros d v Hid Hv. unfold presented, GetTimestamp. rewrite Hid.
    rewrite lookup_delete_eq.
    rewrite lookup_delete_ne by discriminate.
    rewrite lookup_insert_eq.
    destruct v; try reflexivity. now destruct (Hv n).
  - intros record Hint.
    assert (Hrange : Conv.min_int32 <= GetTimestamp record <= Conv.max_int32).
    { unfold GetTimestamp.
      destruct (record !! "_id") as [[]|] eqn:E1;
        try (apply (Hint "_id"); exact E1);
        destruct (record !! "id") as [[]|] eqn:E2;
        try (apply (Hint "id"); exact E2);
        vm_compute; split; discriminate. }
    split; [exact Hrange|].
    unfold export_timestamp. cbv zeta.
    destruct (Z.ltb_spec 1000000000000 (GetTimestamp record));
      [|reflexivity].
    unfold Conv.max_int32 in Hrange. lia.
Qed.

(** X21 on a record with an int32 key and on a record of the scenario,
    whose key is an int64. *)
Lemma X21_GetTimestamp_witness :
  GetTimestamp (presented (<["_id" := VInt32 1700000000]> ∅)) = 1700000000 /\
  GetTimestamp (presented (reading 1700000000 1)) = 0 /\
  export_timestamp (<["id" := VInt32 1700000000]> ∅) = 1700000000.
Proof.
  destruct X21_GetTimestamp as (H32 & Hother & Hexport).
  split; [|split].
  - apply H32. reflexivity.
  - apply (Hother _ (VInt64 1700000000)); [reflexivity | discriminate].
  - rewrite (proj2 (Hexport (<["id" := VInt32 1700000000]> ∅)
                      ltac:(intros key n H;
                            destruct (decide (key = "id")) as [->|Hk];
                            [rewrite lookup_insert_eq in H; injection H as <-;
                             vm_compute; split; discriminate
                            |rewrite lookup_insert_ne, lookup_empty in H
                               by congruence; discriminate]))).
    reflexivity.
Defined.

End TimestampProperties.

(** ** Properties of the catalog of metrics *)

Section MetricProperties.
Import domain metrics.

Lemma by_id_spec (id : string) (d : Metric) : by_id id d = true <-> ID d = id.
Proof. unfold by_id. apply String.eqb_eq. Qed.

Lemma by_code_spec (code : string) (d : Metric) :
  by_code code d = true <-> Code d = code.
Proof. unfold by_code. apply String.eqb_eq. Qed.

Lemma not_deleted_spec (d : Metric) : not_deleted d = true <-> DTime d = None.
Proof. unfold not_deleted. destruct (DTime d); split; congruence. Qed.

Lemma In_ListMetrics (coll : MetricCollection) (m : Metric) :
  In m (ListMetrics coll) <-> In m coll /\ DTime m = None.
Proof.
  unfold ListMetrics. rewrite List.filter_In. now rewrite not_deleted_spec.
Qed.

(** At most one document has a given [_id]. *)
Lemma same_ID (coll : MetricCollection) (a b : Metric) :
  List.NoDup (ID <$> coll) -> In a coll -> In b coll -> ID a = ID b -> a = b.
Proof.
  induction coll as [|d coll IH]; [intros _ []|].
  rewrite fmap_cons. intros Hnd Ha Hb Hid.
  apply List.NoDup_cons_iff in Hnd. destruct Hnd as [Hd Hnd].
  destruct Ha as [<-|Ha], Hb as [<-|Hb].
  - reflexivity.
  - destruct Hd. rewrite Hid. now apply (in_map ID).
  - destruct Hd. rewrite <- Hid. now apply (in_map ID).
  - now apply IH.
Qed.

Lemma GetMetric_Ok (coll : MetricCollection) (filter : Metric -> bool)
    (m : Metric) :
  GetMetric coll filter = Ok m ->
  In m coll /\ filter m = true /\ DTime m = None.
Proof.
  unfold GetMetric, FindOne.
  destruct (List.find _ coll) as [m'|] eqn:E; [|discriminate].
  intros [= <-]. apply List.find_some in E. destruct E as [Hin Hf].
  apply andb_true_iff in Hf. now rewrite not_deleted_spec in Hf.
Qed.

Lemma GetMetric_Err (coll : MetricCollection) (filter : Metric -> bool) :
  (forall m : Metric, In m (ListMetrics coll) -> filter m = false) ->
  GetMetric coll filter = Err ErrMetricNotFound.
Proof.
  intros Hnone. unfold GetMetric, FindOne.
  destruct (List.find _ coll) as [m|] eqn:E; [|reflexivity].
  apply List.find_some in E. destruct E as [Hin Hf].
  apply andb_true_iff in Hf. destruct Hf as [Hf Hd].
  rewrite Hnone in Hf; [discriminate|].
  apply In_ListMetrics. now rewrite <- not_deleted_spec.
Qed.

Lemma GetMetric_found (coll : MetricCollection) (filter : Metric -> bool)
    (m : Metric) :
  In m (ListMetrics coll) -> filter m = true ->
  exists m' : Metric, GetMetric coll filter = Ok m'.
Proof.
  intros Hin Hf. unfold GetMetric, FindOne.
  destruct (List.find _ coll) as [m'|] eqn:E; [now exists m'|].
  apply In_ListMetrics in Hin. destruct Hin as [Hin Hd].
  apply (List.find_none _ _ E) in Hin. rewrite Hf in Hin.
  apply not_deleted_spec in Hd. rewrite Hd in Hin. discriminate.
Qed.

(** By its [_id], [GetMetric] finds the metric when it is not deleted. *)
Lemma GetMetric_by_id (coll : MetricCollection) (m : Metric) :
  List.NoDup (ID <$> coll) -> In m coll -> DTime m = None ->
  GetMetric coll (by_id (ID m)) = Ok m.
Proof.
  intros Hnd Hin Hd.
  destruct (GetMetric_found coll (by_id (ID m)) m) as [m' Hm'].
  - now apply In_ListMetrics.
  - now apply by_id_spec.
  - rewrite Hm'. f_equal. apply GetMetric_Ok in Hm'.
    destruct Hm' as (Hin' & Hid & _). apply by_id_spec in Hid.
    now apply (same_ID coll).
Qed.

(** With unique [_id]s, updating the first document of an [_id] updates
    every document of that [_id]. *)
Lemma UpdateOne_by_id (coll : MetricCollection) (k : string)
    (update : Metric -> Metric) :
  List.NoDup (ID <$> coll) ->
  UpdateOne coll (by_id k) update
  = (fun d => if by_id k d then update d else d) <$> coll.
Proof.
  induction coll as [|d coll IH]; [reflexivity|].
  rewrite fmap_cons. intros Hnd.
  apply List.NoDup_cons_iff in Hnd. destruct Hnd as [Hd Hnd].
  cbn [UpdateOne]. rewrite fmap_cons.
  destruct (by_id k d) eqn:E.
  - f_equal. rewrite <- (list_fmap_id coll) at 1.
    apply list_fmap_ext. intros i x Hx. unfold Datatypes.id at 1.
    destruct (by_id k x) eqn:Ex; [|reflexivity].
    destruct Hd. apply by_id_spec in E, Ex. rewrite E, <- Ex.
    apply (in_map ID). apply list_elem_of_In.
    now apply (list_elem_of_lookup_2 _ i).
  - f_equal. now apply IH.
Qed.

Lemma UpdateOne_IDs (coll : MetricCollection) (k : string)
    (update : Metric -> Metric) :
  (forall d : Metric, ID d = k -> ID (update d) = k) ->
  ID <$> UpdateOne coll (by_id k) update = ID <$> coll.
Proof.
  intros Hu. induction coll as [|d coll IH]; [reflexivity|].
  cbn [UpdateOne]. destruct (by_id k d) eqn:E.
  - rewrite !fmap_cons. apply by_id_spec in E. rewrite (Hu d E). now rewrite E.
  - rewrite !fmap_cons. now rewrite IH.
Qed.

Lemma find_fmap_same {A : Type} (p : A -> bool) (f : A -> A) (l : list A) :
  (forall d : A, p (f d) = p d /\ (p d = true -> f d = d)) ->
  List.find p (f <$> l) = List.find p l.
Proof.
  intros Hf. induction l as [|d l IH]; [reflexivity|].
  rewrite fmap_cons. cbn [List.find]. destruct (Hf d) as [-> Hd].
  destruct (p d); [f_equal; now apply Hd | exact IH].
Qed.

(** A document other than the one of the [_id] updated is found as before. *)
Lemma GetMetric_other (coll : MetricCollection) (k k' : string)
    (update : Metric -> Metric) :
  List.NoDup (ID <$> coll) ->
  (forall d : Metric, ID d = k -> ID (update d) = k) ->
  k' <> k ->
  GetMetric (UpdateOne coll (by_id k) update) (by_id k')
  = GetMetric coll (by_id k').
Proof.
  intros Hnd Hu Hk. rewrite UpdateOne_by_id by assumption.
  unfold GetMetric, FindOne. rewrite find_fmap_same; [reflexivity|].
  intros d. destruct (by_id k d) eqn:E; [|now split].
  apply by_id_spec in E.
  assert (E1 : by_id k' d = false).
  { destruct (by_id k' d) eqn:E1; [|reflexivity].
    apply by_id_spec in E1. congruence. }
  assert (E2 : by_id k' (update d) = false).
  { destruct (by_id k' (update d)) eqn:E2; [|reflexivity].
    apply by_id_spec in E2. rewrite (Hu d E) in E2. congruence. }
  rewrite E1, E2. now split.
Qed.

(** The document of the [_id] updated, when there is one. *)
Lemma In_updated (coll : MetricCollection) (update : Metric -> Metric)
    (m : Metric) :
  List.NoDup (ID <$> coll) -> In m coll ->
  In (update m) (UpdateOne coll (by_id (ID m)) update).
Proof.
  intros Hnd Hin. rewrite UpdateOne_by_id by assumption.
  change (In (update m)
            (List.map (fun d => if by_id (ID m) d then update d else d) coll)).
  apply List.in_map_iff. exists m. split; [|assumption].
  now rewrite (proj2 (by_id_spec (ID m) m) eq_refl).
Qed.

(** A document other than the one of the [_id] updated stays. *)
Lemma In_not_updated (coll : MetricCollection) (k : string)
    (update : Metric -> Metric) (m : Metric) :
  List.NoDup (ID <$> coll) -> In m coll -> ID m <> k ->
  In m (UpdateOne coll (by_id k) update).
Proof.
  intros Hnd Hin Hk. rewrite UpdateOne_by_id by assumption.
  change (In m (List.map (fun d => if by_id k d then update d else d) coll)).
  apply List.in_map_iff. exists m. split; [|assumption].
  destruct (by_id k m) eqn:E; [|reflexivity].
  apply by_id_spec in E. contradiction.
Qed.

(** The metrics left after the deletion of one. *)
Lemma ListMetrics_deleted (coll : MetricCollection) (k : string) (now : Z) :
  ListMetrics ((fun d => if by_id k d then set_dtime now d else d) <$> coll)
  = List.filter (fun d => negb (by_id k d)) (ListMetrics coll).
Proof.
  unfold ListMetrics. induction coll as [|d coll IH]; [reflexivity|].
  rewrite fmap_cons. cbn [List.filter].
  destruct (by_id k d) eqn:E.
  - cbn [not_deleted set_dtime DTime]. rewrite IH.
    destruct (not_deleted d); [|reflexivity].
    cbn [List.filter]. now rewrite E.
  - rewrite IH. destruct (not_deleted d); [|reflexivity].
    cbn [List.filter]. now rewrite E.
Qed.

Lemma InsertOne_fresh (coll : MetricCollection) (metric : Metric) :
  ~ In (ID metric) (ID <$> coll) ->
  InsertOne coll metric = (coll ++ [metric], None).
Proof.
  intros Hfresh. unfold InsertOne.
  destruct (existsb _ coll) eqn:E; [|reflexivity].
  apply List.existsb_exists in E. destruct E as (d & Hin & Heq).
  apply String.eqb_eq in Heq. destruct Hfresh. rewrite <- Heq.
  now apply (in_map ID).
Qed.

Lemma InsertOne_taken (coll : MetricCollection) (metric : Metric) :
  In (ID metric) (ID <$> coll) ->
  InsertOne coll metric = (coll, Some (WriteException 11000)).
Proof.
  intros Htaken. unfold InsertOne.
  destruct (existsb _ coll) eqn:E; [reflexivity|].
  change (In (ID metric) (List.map ID coll)) in Htaken.
  apply List.in_map_iff in Htaken. destruct Htaken as (d & Hid & Hin).
  assert (H : existsb (fun d => String.eqb (ID d) (ID metric)) coll = true).
  { apply List.existsb_exists. exists d. split; [assumption|].
    now apply String.eqb_eq. }
  congruence.
Qed.

Lemma ListMetrics_app (a b : MetricCollection) :
  ListMetrics (a ++ b) = ListMetrics a ++ ListMetrics b.
Proof. apply List.filter_app. Qed.

Lemma NoDup_snoc {A : Type} (l : list A) (x : A) :
  List.NoDup l -> ~ In x l -> List.NoDup (l ++ [x]).
Proof.
  intros Hnd Hx. apply List.NoDup_rev in Hnd.
  rewrite <- (List.rev_involutive (l ++ [x])). apply List.NoDup_rev.
  rewrite List.rev_app_distr. cbn [List.rev List.app].
  constructor; [|assumption]. now rewrite <- List.in_rev.
Qed.

(** The outcome of [CreateMetric] of the repository. *)
Lemma CreateMetric_cases (coll : MetricCollection) (metric : Metric) :
  (exists m : Metric,
      In m (ListMetrics coll) /\ Code m = Code metric /\
      CreateMetric coll metric = (coll, Some ErrMetricCodeExisted)) \/
  ((forall m : Metric, In m (ListMetrics coll) -> Code m <> Code metric) /\
   CreateMetric coll metric = InsertOne coll metric).
Proof.
  unfold CreateMetric.
  destruct (GetMetric coll (by_code (Code metric))) as [m|e|msg] eqn:E.
  - left. exists m. apply GetMetric_Ok in E. destruct E as (Hin & Hc & Hd).
    apply by_code_spec in Hc. split; [now apply In_ListMetrics|]. now split.
  - right. split; [|reflexivity]. intros m Hin Hc.
    destruct (GetMetric_found coll (by_code (Code metric)) m Hin) as [m' Hm'];
      [now apply by_code_spec | congruence].
  - unfold GetMetric in E. now destruct (FindOne _ _).
Qed.

(** X22.  [CreateMetric] of the service refuses an empty code and a code
    that a metric that is not deleted has, and leaves the collection as it
    is then.  With a code that no such metric has and a fresh id, it
    appends the new metric, answers with it, and [GetMetric] finds it by its
    code and by its id.  A collection in which the metrics that are not
    deleted have different codes stays so, whatever the outcome. *)
Theorem X22_CreateMetric (coll : MetricCollection) (id : string) (now : Z)
    (params : CreateMetricParams) :
  let metric := NewMetric id now params in
  (CreateCode params = "" ->
   SensorService.CreateMetric coll id now params
   = (coll, Err ErrMetricMustHaveCode)) /\
  (CreateCode params <> "" ->
   (exists m : Metric,
       In m (ListMetrics coll) /\ Code m = CreateCode params) ->
   SensorService.CreateMetric coll id now params
   = (coll, Err ErrMetricCodeExisted)) /\
  (CreateCode params <> "" ->
   (forall m : Metric, In m (ListMetrics coll) -> Code m <> CreateCode params) ->
   ~ In id (ID <$> coll) ->
   List.NoDup (ID <$> coll) ->
   SensorService.CreateMetric coll id now params = (coll ++ [metric], Ok metric) /\
   GetMetric (coll ++ [metric]) (by_code (CreateCode params)) = Ok metric /\
   GetMetric (coll ++ [metric]) (by_id id) = Ok metric) /\
  (List.NoDup (ID <$> coll) ->
   List.NoDup (ID <$> (SensorService.CreateMetric coll id now params).1)) /\
  (List.NoDup (Code <$> ListMetrics coll) ->
   List.NoDup
     (Code <$> ListMetrics (SensorService.CreateMetric coll id now params).1)).
Proof.
  cbv zeta. unfold SensorService.CreateMetric.
  assert (Hnew : forall coll' : MetricCollection,
             List.NoDup (ID <$> coll') -> In (NewMetric id now params) coll' ->
             (forall m, In m (ListMetrics coll') ->
                        Code m = CreateCode params -> m = NewMetric id now params) ->
             GetMetric coll' (by_code (CreateCode params))
             = Ok (NewMetric id now params) /\
             GetMetric coll' (by_id id) = Ok (NewMetric id now params)).
  { intros coll' Hnd Hin Honly. split.
    - destruct (GetMetric_found coll' (by_code (CreateCode params))
                  (NewMetric id now params)) as [m' Hm'].
      + now apply In_ListMetrics.
      + now apply by_code_spec.
      + rewrite Hm'. f_equal. apply GetMetric_Ok in Hm'.
        destruct Hm' as (Hin' & Hc & Hd). apply by_code_spec in Hc.
        apply Honly; [now apply In_ListMetrics | assumption].
    - now apply (GetMetric_by_id coll' (NewMetric id now params)). }
  destruct (String.eqb_spec (CreateCode params) "") as [Hempty|Hcode].
  { split; [reflexivity|]. split; [congruence|]. split; [congruence|].
    now split. }
  split; [congruence|].
  destruct (CreateMetric_cases coll (NewMetric id now params))
    as [(m & Hin & Hc & ->)|[Hfree ->]]; cbn [Code NewMetric] in *.
  - split; [reflexivity|]. split.
    + intros _ Hfree. now destruct (Hfree m Hin).
    + now split.
  - split.
    { intros _ (m & Hin & Hc). now destruct (Hfree m Hin). }
    split.
    { intros _ _ Hfresh Hnd.
      rewrite InsertOne_fresh by exact Hfresh. split; [reflexivity|].
      apply Hnew.
      - rewrite fmap_app. now apply NoDup_snoc.
      - apply List.in_or_app. right. now left.
      - intros m Hin Hc. rewrite ListMetrics_app in Hin.
        apply List.in_app_or in Hin. destruct Hin as [Hin|Hin].
        + now destruct (Hfree m Hin).
        + apply In_ListMetrics in Hin. destruct Hin as [[<-|[]] _].
          reflexivity. }
    destruct (in_dec String.string_dec id (ID <$> coll)) as [Htaken|Hfresh].
    + rewrite InsertOne_taken by exact Htaken. now split.
    + rewrite InsertOne_fresh by exact Hfresh. cbn [fst]. split.
      * intros Hnd. rewrite fmap_app. now apply NoDup_snoc.
      * intros Hnd. rewrite ListMetrics_app, fmap_app.
        change (ListMetrics [NewMetric id now params])
          with [NewMetric id now params].
        apply NoDup_snoc; [assumption|]. cbn [fmap list_fmap Code NewMetric].
        change (~ In (CreateCode params) (List.map Code (ListMetrics coll))).
        rewrite List.in_map_iff. intros (m & Hc & Hin).
        now destruct (Hfree m Hin).
Qed.

(** X22 on the catalog of two metrics: a third metric is added and found;
    a second metric of the code [level] is refused. *)
Lemma X22_CreateMetric_witness :
  SensorService.CreateMetric catalog.two_metrics "m3" 3000 catalog.rain
  = (catalog.two_metrics ++ [NewMetric "m3" 3000 catalog.rain],
     Ok (NewMetric "m3" 3000 catalog.rain)) /\
  GetMetric (catalog.two_metrics ++ [NewMetric "m3" 3000 catalog.rain])
    (by_code "rain")
  = Ok (NewMetric "m3" 3000 catalog.rain).
Proof.
  destruct (X22_CreateMetric catalog.two_metrics "m3" 3000 catalog.rain)
    as (_ & _ & Hadd & _).
  destruct Hadd as (H1 & H2 & _).
  - discriminate.
  - intros m Hin. vm_compute in Hin.
    destruct Hin as [<-|[<-|[]]]; discriminate.
  - intros Hin. vm_compute in Hin.
    destruct Hin as [H|[H|[]]]; discriminate H.
  - repeat constructor; vm_compute; intros H;
      repeat (destruct H as [H|H]; [discriminate H|]); exact H.
  - split; [exact H1 | exact H2].
Defined.

(** X23.  [UpdateMetric] of the service, on the id of a metric that is not
    deleted, answers with the metric with the given fields replaced and the
    modification time set, and leaves the other metrics as they are.  What
    it stores is what it answers with, but for the range: an empty range is
    left out of the update, so the stored metric keeps the range it had.  On
    an id that no metric that is not deleted has, it answers
    [ErrMetricNotFound] and changes nothing. *)
Theorem X23_UpdateMetric (coll : MetricCollection) (now : Z) (id : string)
    (params : UpdateMetricParams) :
  let result := SensorService.UpdateMetric coll now id params in
  (forall m : Metric,
      List.NoDup (ID <$> coll) ->
      GetMetric coll (by_id id) = Ok m ->
      let answered :=
        {| ID := id;
           Code := default (Code m) (UpdateCode params);
           Name := default (Name m) (UpdateName params);
           Unit := default (Unit m) (UpdateUnit params);
           Alias := Alias m;
           MetricRange := default (MetricRange m) (UpdateRange params);
           CTime := CTime m;
           MTime := now;
           DTime := None |} in
      let stored :=
        {| ID := id;
           Code := Code answered;
           Name := Name answered;
           Unit := Unit answered;
           Alias := Alias m;
           MetricRange := if MetricRange answered is [] then MetricRange m
                          else MetricRange answered;
           CTime := CTime m;
           MTime := now;
           DTime := None |} in
      result.2 = Ok answered /\
      GetMetric result.1 (by_id id) = Ok stored /\
      ID <$> result.1 = ID <$> coll /\
      (forall id' : string,
          id' <> id ->
          GetMetric result.1 (by_id id') = GetMetric coll (by_id id')) /\
      (UpdateRange params = Some [] -> MetricRange m <> [] ->
       stored <> answered)) /\
  ((forall m : Metric, In m (ListMetrics coll) -> ID m <> id) ->
   result = (coll, Err ErrMetricNotFound)).
Proof.
  cbv zeta. unfold SensorService.UpdateMetric. split.
  - intros m Hnd Hget. rewrite Hget.
    apply GetMetric_Ok in Hget. destruct Hget as (Hin & Hid & Hd).
    apply by_id_spec in Hid. subst id.
    unfold UpdateMetric. cbn [fst snd ID Code Name Unit Alias MetricRange
                                CTime MTime DTime].
    rewrite Hd.
    set (answered := {| ID := ID m;
                        Code := default (Code m) (UpdateCode params) |}).
    assert (Hids : forall d : Metric,
               ID d = ID m -> ID (set_metric answered d) = ID m)
      by (intros d _; reflexivity).
    split; [reflexivity|]. split; [|split; [|split]].
    + pose proof (In_updated coll (set_metric answered) m Hnd Hin) as Hup.
      assert (Es : set_metric answered m
                   = {| ID := ID m;
                        Code := default (Code m) (UpdateCode params);
                        Name := default (Name m) (UpdateName params);
                        Unit := default (Unit m) (UpdateUnit params);
                        Alias := Alias m;
                        MetricRange :=
                          if default (MetricRange m) (UpdateRange params) is []
                          then MetricRange m
                          else default (MetricRange m) (UpdateRange params);
                        CTime := CTime m;
                        MTime := now;
                        DTime := None |}).
      { unfold set_metric, answered.
        cbn [ID Code Name Unit Alias MetricRange CTime MTime DTime].
        rewrite Hd. now destruct (Alias m). }
      rewrite Es in Hup.
      apply (GetMetric_by_id _ _) in Hup; [exact Hup| |reflexivity].
      now rewrite UpdateOne_IDs.
    + now apply UpdateOne_IDs.
    + intros id' Hid'. now apply GetMetric_other.
    + intros Hr Hm E. injection E as E. rewrite Hr in E. cbn in E.
      contradiction.
  - intros Hnone. rewrite GetMetric_Err; [reflexivity|].
    intros m Hin. destruct (by_id id m) eqn:E; [|reflexivity].
    apply by_id_spec in E. now destruct (Hnone m Hin).
Qed.

(** X23 on the catalog of two metrics: the answer to an update of [level]
    with an empty range has no range, and the stored metric has the range
    it had. *)
Lemma X23_UpdateMetric_witness :
  exists (coll : MetricCollection) (answered stored : Metric),
    SensorService.UpdateMetric catalog.two_metrics 3000 "m1" catalog.empty_range
    = (coll, Ok answered) /\
    GetMetric coll (by_id "m1") = Ok stored /\
    MetricRange answered = [] /\
    MetricRange stored = MetricRange catalog.level /\
    GetMetric coll (by_id "m2") = Ok catalog.flow.
Proof.
  destruct (X23_UpdateMetric catalog.two_metrics 3000 "m1" catalog.empty_range)
    as [Hup _].
  destruct (Hup catalog.level) as (Hans & Hstored & _ & Hother & _).
  - repeat constructor; vm_compute; intros H;
      repeat (destruct H as [H|H]; [discriminate H|]); exact H.
  - reflexivity.
  - destruct (SensorService.UpdateMetric _ _ _ _) as [coll result].
    cbn [fst snd] in *. subst result.
    eexists coll, _, _. split; [reflexivity|]. split; [exact Hstored|].
    split; [reflexivity|]. split; [reflexivity|].
    now rewrite Hother.
Defined.

(** X24.  [UpdateMetric] does not look at the codes of the other metrics:
    in a collection that has two metrics that are not deleted, it gives the
    second the code of the first when asked to, after which two metrics that
    are not deleted have the same code, which [CreateMetric] never allows. *)
Theorem X24_UpdateMetric_code_taken (coll : MetricCollection) (now : Z)
    (m1 m2 : Metric) :
  List.NoDup (ID <$> coll) ->
  In m1 (ListMetrics coll) -> In m2 (ListMetrics coll) -> ID m1 <> ID m2 ->
  let result :=
    SensorService.UpdateMetric coll now (ID m2) (catalog.new_code (Code m1)) in
  exists answered : Metric,
    result.2 = Ok answered /\
    ID answered = ID m2 /\
    Code answered = Code m1 /\
    ~ List.NoDup (Code <$> ListMetrics result.1).
Proof.
  intros Hnd H1 H2 Hne. cbv zeta.
  apply In_ListMetrics in H1, H2. destruct H1 as [H1 Hd1], H2 as [H2 Hd2].
  unfold SensorService.UpdateMetric.
  rewrite (GetMetric_by_id coll m2 Hnd H2 Hd2).
  unfold UpdateMetric, catalog.new_code.
  cbn [fst snd ID Code Name Unit Alias MetricRange CTime MTime DTime
         UpdateCode UpdateName UpdateUnit UpdateRange default from_option
         Datatypes.id].
  eexists. split; [reflexivity|]. split; [reflexivity|]. split; [reflexivity|].
  set (answered := {| ID := ID m2; Code := Code m1 |}).
  set (coll' := UpdateOne coll (by_id (ID m2)) (set_metric answered)).
  assert (Hin1 : In m1 (ListMetrics coll')).
  { apply In_ListMetrics. split; [|assumption].
    now apply In_not_updated. }
  assert (Hin2 : In (set_metric answered m2) (ListMetrics coll')).
  { apply In_ListMetrics. split; [now apply In_updated|].
    unfold set_metric, answered. cbn [DTime]. now rewrite Hd2. }
  intros Hcodes.
  assert (Hsame : forall (l : list Metric) (a b : Metric),
             List.NoDup (Code <$> l) -> In a l -> In b l ->
             Code a = Code b -> a = b).
  { clear. induction l as [|d l IH]; [intros a b _ []|].
    rewrite fmap_cons. intros a b Hnd Ha Hb Hc.
    apply List.NoDup_cons_iff in Hnd. destruct Hnd as [Hd Hnd].
    destruct Ha as [<-|Ha], Hb as [<-|Hb].
    - reflexivity.
    - destruct Hd. rewrite Hc. now apply (in_map Code).
    - destruct Hd. rewrite <- Hc. now apply (in_map Code).
    - now apply IH. }
  apply Hne.
  rewrite (Hsame _ m1 (set_metric answered m2) Hcodes Hin1 Hin2 eq_refl).
  reflexivity.
Qed.

(** X24 on the catalog of two metrics: [flow] takes the code [level]. *)
Lemma X24_UpdateMetric_code_taken_witness :
  exists answered : Metric,
    (SensorService.UpdateMetric catalog.two_metrics 3000 "m2"
       (catalog.new_code "level")).2 = Ok answered /\
    ID answered = "m2" /\
    Code answered = "level" /\
    ~ List.NoDup
        (Code <$> ListMetrics
                    (SensorService.UpdateMetric catalog.two_metrics 3000 "m2"
                       (catalog.new_code "level")).1).
Proof.
  apply (X24_UpdateMetric_code_taken catalog.two_metrics 3000
           catalog.level catalog.flow).
  - repeat constructor; vm_compute; intros H;
      repeat (destruct H as [H|H]; [discriminate H|]); exact H.
  - vm_compute. now left.
  - vm_compute. right. now left.
  - discriminate.
Defined.

(** X25.  [DeleteMetric] of the service, on the id of a metric that is not
    deleted, answers with the metric as it was and keeps its document, with
    the deletion time set: the metric is no more listed nor found, a second
    deletion and an update answer [ErrMetricNotFound], the other metrics are
    listed as before, and, the codes having been different, no metric that is
    listed has the code of the deleted one, so that the code can be given
    to a new metric. *)
Theorem X25_DeleteMetric (coll : MetricCollection) (now : Z) (id : string)
    (m : Metric) :
  List.NoDup (ID <$> coll) ->
  GetMetric coll (by_id id) = Ok m ->
  let result := SensorService.DeleteMetric coll now id in
  result.2 = Ok m /\
  ID <$> result.1 = ID <$> coll /\
  In (set_dtime now m) result.1 /\
  ListMetrics result.1
  = List.filter (fun d => negb (by_id id d)) (ListMetrics coll) /\
  GetMetric result.1 (by_id id) = Err ErrMetricNotFound /\
  (forall now' : Z,
      SensorService.DeleteMetric result.1 now' id
      = (result.1, Err ErrMetricNotFound)) /\
  (forall (now' : Z) (params : UpdateMetricParams),
      SensorService.UpdateMetric result.1 now' id params
      = (result.1, Err ErrMetricNotFound)) /\
  (List.NoDup (Code <$> ListMetrics coll) ->
   forall m' : Metric, In m' (ListMetrics result.1) -> Code m' <> Code m).
Proof.
  intros Hnd Hget. cbv zeta.
  assert (Eres : SensorService.DeleteMetric coll now id
                 = (UpdateOne coll (by_id id) (set_dtime now), Ok m)).
  { unfold SensorService.DeleteMetric. now rewrite Hget. }
  rewrite Eres. cbn [fst snd]. clear Eres.
  apply GetMetric_Ok in Hget. destruct Hget as (Hin & Hid & Hd).
  apply by_id_spec in Hid. subst id.
  assert (Hids : forall d : Metric,
             ID d = ID m -> ID (set_dtime now d) = ID m)
    by (intros d Hd'; exact Hd').
  assert (Hlist : ListMetrics (UpdateOne coll (by_id (ID m)) (set_dtime now))
                  = List.filter (fun d => negb (by_id (ID m) d))
                      (ListMetrics coll)).
  { rewrite UpdateOne_by_id by assumption. apply ListMetrics_deleted. }
  assert (Hgone : GetMetric (UpdateOne coll (by_id (ID m)) (set_dtime now))
                    (by_id (ID m)) = Err ErrMetricNotFound).
  { apply GetMetric_Err. intros m' Hin'. rewrite Hlist in Hin'.
    apply List.filter_In in Hin'. destruct Hin' as [_ Hn].
    now destruct (by_id (ID m) m'). }
  split; [reflexivity|]. split; [now apply UpdateOne_IDs|].
  split; [now apply In_updated|]. split; [exact Hlist|].
  split; [exact Hgone|]. split; [|split].
  - intros now'. unfold SensorService.DeleteMetric. now rewrite Hgone.
  - intros now' params. unfold SensorService.UpdateMetric. now rewrite Hgone.
  - intros Hcodes m' Hin' Hc. rewrite Hlist in Hin'.
    apply List.filter_In in Hin'. destruct Hin' as [Hin' Hn].
    assert (Hm : In m (ListMetrics coll)) by now apply In_ListMetrics.
    assert (E : m' = m).
    { revert Hcodes Hin' Hm Hc. generalize (ListMetrics coll). clear.
      induction l as [|d l IH]; [intros _ []|].
      rewrite fmap_cons. intros Hnd Ha Hb Hc.
      apply List.NoDup_cons_iff in Hnd. destruct Hnd as [Hd Hnd].
      destruct Ha as [<-|Ha], Hb as [<-|Hb].
      - reflexivity.
      - destruct Hd. rewrite Hc. now apply (in_map Code).
      - destruct Hd. rewrite <- Hc. now apply (in_map Code).
      - now apply IH. }
    subst m'. now rewrite (proj2 (by_id_spec (ID m) m) eq_refl) in Hn.
Qed.

(** X25 on the catalog of two metrics: [level] is deleted; only [flow] is
    listed after. *)
Lemma X25_DeleteMetric_witness :
  (SensorService.DeleteMetric catalog.two_metrics 3000 "m1").2
  = Ok catalog.level /\
  ListMetrics (SensorService.DeleteMetric catalog.two_metrics 3000 "m1").1
  = [catalog.flow].
Proof.
  destruct (X25_DeleteMetric catalog.two_metrics 3000 "m1" catalog.level)
    as (Hans & _ & _ & Hlist & _).
  - repeat constructor; vm_compute; intros H;
      repeat (destruct H as [H|H]; [discriminate H|]); exact H.
  - reflexivity.
  - split; [exact Hans|]. rewrite Hlist. reflexivity.
Defined.

End MetricProperties.
